(** * isiZulu cultural corpus: a shallow embedding of the backend services

    The development follows the layout of the Django project:
    - [corpus/models.py]       the five tables and their rows;
    - [corpus/services.py]     [SearchService], [DataImportService],
                               [ActivityLogService];
    - [corpus/serializers.py]  the export representation and the nested
                               create / update of [CulturalEntrySerializer];
    - [corpus/views.py]        the actions of [CulturalEntryViewSet];
    - [analytics/services.py]  [get_word_frequency].

    Python code that touches the database is written in a state-and-error
    monad over a connection: the tables, the primary-key sequences, a clock,
    the transaction flags of Django's [transaction.atomic], and a schedule of
    persistence faults from which every write draws.  Characters are the 256
    code points of Latin-1. *)

From Stdlib Require Import List String Ascii ZArith Bool Arith Lia DecimalString.
From Stdlib Require Import Permutation Sorted.
Import ListNotations.

Set Warnings "-register-all".
Local Open Scope string_scope.
Local Open Scope Z_scope.

(** ** Python values *)

(** The value [json.loads] (or DRF's parser) hands to the services.  A JSON
    object keeps its items in insertion order; [dict_get] reads the first
    binding of a key. *)
Inductive json : Type :=
| JNull
| JBool (b : bool)
| JNum (n : Z)
| JStr (s : string)
| JArr (l : list json)
| JObj (items : list (string * json)).

Inductive exn : Type :=
| TypeError
| AttributeError
| KeyError
| ValueError
| IntegrityError
| DatabaseError
| ValidationError
| Http404.

Inductive result (A : Type) : Type :=
| Ok (a : A)
| Raise (e : exn).
Arguments Ok {A} a.
Arguments Raise {A} e.

Definition is_ok {A} (r : result A) : bool :=
  match r with Ok _ => true | Raise _ => false end.

Fixpoint dict_get {V : Type} (k : string) (d : list (string * V)) : option V :=
  match d with
  | [] => None
  | (k', v) :: d' => if String.eqb k k' then Some v else dict_get k d'
  end.

Definition dict_has {V : Type} (k : string) (d : list (string * V)) : bool :=
  match dict_get k d with Some _ => true | None => false end.

(** [needle in hay] on two strings. *)
Fixpoint contains (needle hay : string) : bool :=
  if String.prefix needle hay then true
  else match hay with
       | EmptyString => false
       | String _ hay' => contains needle hay'
       end.

(** [key in v]: membership on a dict, on a list, substring on a string; the
    other values are not iterable. *)
Definition py_in (key : string) (v : json) : result bool :=
  match v with
  | JObj d => Ok (dict_has key d)
  | JArr l => Ok (existsb (fun x => match x with
                                    | JStr s => String.eqb s key
                                    | _ => false
                                    end) l)
  | JStr s => Ok (contains key s)
  | JNull | JBool _ | JNum _ => Raise TypeError
  end.

(** [v[key]] with a string key. *)
Definition py_getitem (v : json) (key : string) : result json :=
  match v with
  | JObj d => match dict_get key d with
              | Some x => Ok x
              | None => Raise KeyError
              end
  | _ => Raise TypeError
  end.

(** [v.get(key, default)]: only a dict has the method. *)
Definition py_get (v : json) (key : string) (default : json) : result json :=
  match v with
  | JObj d => Ok (match dict_get key d with Some x => x | None => default end)
  | _ => Raise AttributeError
  end.

(** The items a [for] loop over [v] visits. *)
Definition py_iter (v : json) : result (list json) :=
  match v with
  | JArr l => Ok l
  | JObj d => Ok (map (fun kv => JStr (fst kv)) d)
  | JStr s => Ok (map (fun c => JStr (String c EmptyString)) (list_ascii_of_string s))
  | JNull | JBool _ | JNum _ => Raise TypeError
  end.

(** [v.items()]. *)
Definition py_items (v : json) : result (list (string * json)) :=
  match v with
  | JObj d => Ok d
  | _ => Raise AttributeError
  end.

(** Truth value of an optional query parameter: [None] and [''] are false. *)
Definition truthy (o : option string) : bool :=
  match o with
  | Some s => negb (String.eqb s "")
  | None => false
  end.

(** ** Characters and case *)

Definition code (c : ascii) : N := N_of_ascii c.

Definition in_range (lo hi : N) (c : ascii) : bool :=
  (N.leb lo (code c) && N.leb (code c) hi)%bool.

Definition is_ascii_alnum (c : ascii) : bool :=
  (in_range 48 57 c || in_range 65 90 c || in_range 97 122 c)%bool.

(** The alphanumeric code points above 127: the letters of Latin-1 and its
    superscript digits and vulgar fractions. *)
Definition is_latin1_alnum (c : ascii) : bool :=
  (N.eqb (code c) 170 || N.eqb (code c) 181 || N.eqb (code c) 186
   || in_range 192 214 c || in_range 216 246 c || in_range 248 255 c
   || in_range 178 179 c || N.eqb (code c) 185 || in_range 188 190 c)%bool.

Definition is_alnum (c : ascii) : bool :=
  (is_ascii_alnum c || is_latin1_alnum c)%bool.

(** The class [\w] of a [str] pattern: alphanumeric or underscore. *)
Definition is_word (c : ascii) : bool :=
  (is_alnum c || N.eqb (code c) 95)%bool.

Definition lower_char (c : ascii) : ascii :=
  if (in_range 65 90 c || in_range 192 214 c || in_range 216 222 c)%bool
  then ascii_of_N (code c + 32)
  else c.

(** [s.lower()]. *)
Fixpoint lower (s : string) : string :=
  match s with
  | EmptyString => EmptyString
  | String c s' => String (lower_char c) (lower s')
  end.

(** [c.isspace()]. *)
Definition is_space (c : ascii) : bool :=
  (in_range 9 13 c || in_range 28 32 c || N.eqb (code c) 133 || N.eqb (code c) 160)%bool.

(** [s.strip()]: without the whitespace at either end. *)
Fixpoint lstrip (s : string) : string :=
  match s with
  | EmptyString => EmptyString
  | String c s' => if is_space c then lstrip s' else s
  end.

Fixpoint rstrip (s : string) : string :=
  match s with
  | EmptyString => EmptyString
  | String c s' =>
      match rstrip s' with
      | EmptyString => if is_space c then EmptyString else String c EmptyString
      | r => String c r
      end
  end.

Definition strip (s : string) : string := rstrip (lstrip s).

(** ['\x00' in s]. *)
Definition has_null (s : string) : bool :=
  existsb (fun c => N.eqb (code c) 0) (list_ascii_of_string s).

(** The [__icontains] lookup: containment whatever the case of the letters.
    Which letters a database folds is the database's choice: here every
    letter of the character set is folded, as PostgreSQL does; SQLite folds
    the ASCII letters only. *)
Definition icontains (column needle : string) : bool :=
  contains (lower needle) (lower column).

(** ** corpus/models.py *)

(** Every model inherits [created_at] and [updated_at] from [BaseModel];
    timestamps are readings of the connection's clock. *)

Module CulturalEntry.
Record t : Type := mk {
  id : Z;
  isiZulu_text : string;
  english_translation : string;
  part_of_speech : string;
  genre : string;
  cultural_context : string;
  source : string;
  frequency : Z;
  is_active : bool;
  created_at : Z;
  updated_at : Z
}.

Definition PART_OF_SPEECH_CHOICES : list (string * string) :=
  [("noun", "Noun"); ("verb", "Verb"); ("adjective", "Adjective");
   ("adverb", "Adverb"); ("proverb", "Proverb"); ("idiom", "Idiom");
   ("narrative", "Narrative"); ("song", "Song"); ("greeting", "Greeting");
   ("cultural", "Cultural Term")].

Definition GENRE_CHOICES : list (string * string) :=
  [("proverb", "Proverb"); ("idiom", "Idiom"); ("narrative", "Narrative");
   ("song", "Song"); ("greeting", "Greeting"); ("cultural", "Cultural")].

(** The concrete columns, as [Model.__init__] knows them. *)
Definition fields : list string :=
  ["id"; "created_at"; "updated_at"; "isiZulu_text"; "english_translation";
   "part_of_speech"; "genre"; "cultural_context"; "source"; "frequency";
   "is_active"].

Definition __str__ (e : t) : string :=
  isiZulu_text e ++ " - " ++ english_translation e.

Definition set_frequency (n : Z) (e : t) : t :=
  mk (id e) (isiZulu_text e) (english_translation e) (part_of_speech e)
     (genre e) (cultural_context e) (source e) n (is_active e)
     (created_at e) (updated_at e).

Definition set_is_active (b : bool) (e : t) : t :=
  mk (id e) (isiZulu_text e) (english_translation e) (part_of_speech e)
     (genre e) (cultural_context e) (source e) (frequency e) b
     (created_at e) (updated_at e).

Definition set_updated_at (now : Z) (e : t) : t :=
  mk (id e) (isiZulu_text e) (english_translation e) (part_of_speech e)
     (genre e) (cultural_context e) (source e) (frequency e) (is_active e)
     (created_at e) now.

Definition eq_dec (a b : t) : {a = b} + {a <> b}.
Proof.
  decide equality;
    (apply Z.eq_dec || apply string_dec || apply bool_dec).
Defined.
End CulturalEntry.

Module UsageExample.
Record t : Type := mk {
  id : Z;
  entry : Z;
  isiZulu_example : string;
  english_example : string;
  created_at : Z;
  updated_at : Z
}.

Definition fields : list string :=
  ["id"; "created_at"; "updated_at"; "entry"; "isiZulu_example";
   "english_example"].
End UsageExample.

Module AdditionalTranslation.
Record t : Type := mk {
  id : Z;
  entry : Z;
  language : string;
  translation : string;
  created_at : Z;
  updated_at : Z
}.

Definition LANGUAGE_CHOICES : list (string * string) :=
  [("isixhosa", "isiXhosa"); ("sesotho", "Sesotho"); ("setswana", "Setswana");
   ("tshivenda", "Tshivenda"); ("xitsonga", "Xitsonga")].

Definition fields : list string :=
  ["id"; "created_at"; "updated_at"; "entry"; "language"; "translation"].
End AdditionalTranslation.

Module Collocation.
Record t : Type := mk {
  id : Z;
  entry : Z;
  phrase : string;
  frequency : Z;
  created_at : Z;
  updated_at : Z
}.
End Collocation.

Module ActivityLog.
Record t : Type := mk {
  id : Z;
  user : option Z;
  action : string;
  description : string;
  ip_address : option string;
  created_at : Z;
  updated_at : Z
}.
End ActivityLog.

(** [get_FOO_display]: the label of a choice, the value itself when it is
    not one of the choices. *)
Definition get_display (choices : list (string * string)) (value : string) : string :=
  match dict_get value choices with
  | Some label => label
  | None => value
  end.

(** ** The database connection *)

Record Tables : Type := mkTables {
  cultural_entries : list CulturalEntry.t;
  usage_examples : list UsageExample.t;
  additional_translations : list AdditionalTranslation.t;
  collocations : list Collocation.t;
  activity_logs : list ActivityLog.t
}.

(** [faults] is the schedule of persistence errors: each write draws its
    head, and [true] makes that write fail with a [DatabaseError].  The
    sequences and the clock are not part of a transaction. *)
Record Conn : Type := mkConn {
  tables : Tables;
  entry_seq : Z;
  example_seq : Z;
  translation_seq : Z;
  log_seq : Z;
  clock : Z;
  faults : list bool;
  in_atomic_block : bool;
  needs_rollback : bool
}.

Definition with_tables (t : Tables) (c : Conn) : Conn :=
  mkConn t (entry_seq c) (example_seq c) (translation_seq c) (log_seq c)
         (clock c) (faults c) (in_atomic_block c) (needs_rollback c).

Definition with_flags (atomic rollback : bool) (c : Conn) : Conn :=
  mkConn (tables c) (entry_seq c) (example_seq c) (translation_seq c)
         (log_seq c) (clock c) (faults c) atomic rollback.

(** One statement reaches the database: the clock advances and the head of
    the fault schedule is consumed. *)
Definition tick (c : Conn) : Conn :=
  mkConn (tables c) (entry_seq c) (example_seq c) (translation_seq c)
         (log_seq c) (clock c + 1) (tl (faults c)) (in_atomic_block c)
         (needs_rollback c).

Definition next_fault (c : Conn) : bool := hd false (faults c).

(** [transaction.mark_for_rollback_on_error], which [Model.save] runs its
    query under: an error inside an atomic block poisons the transaction. *)
Definition mark_for_rollback_on_error (c : Conn) : Conn :=
  if in_atomic_block c then with_flags true true c else c.

(** ** The monad of database code *)

Definition M (A : Type) : Type := Conn -> result A * Conn.

Definition ret {A} (a : A) : M A := fun c => (Ok a, c).
Definition raise {A} (e : exn) : M A := fun c => (Raise e, c).

Definition bind {A B} (m : M A) (k : A -> M B) : M B :=
  fun c => match m c with
           | (Ok a, c') => k a c'
           | (Raise e, c') => (Raise e, c')
           end.

Definition lift {A} (r : result A) : M A := fun c => (r, c).

Declare Scope db_scope.
Delimit Scope db_scope with db.
Notation "x <- m ;; k" := (bind m (fun x => k))
  (at level 100, m at next level, right associativity) : db_scope.
Notation "m ;;; k" := (bind m (fun _ => k))
  (at level 100, right associativity) : db_scope.

(** [try: body except Exception as e: handler(e)]. *)
Definition try_except {A} (body : M A) (handler : exn -> M A) : M A :=
  fun c => match body c with
           | (Ok a, c') => (Ok a, c')
           | (Raise e, c') => handler e c'
           end.

(** A [for] loop whose body may raise. *)
Fixpoint for_each {A} (l : list A) (body : A -> M unit) : M unit :=
  match l with
  | [] => ret tt
  | x :: l' => bind (body x) (fun _ => for_each l' body)
  end.

(** A single write statement.  [stmt] computes the new tables, or the
    integrity error the database answers with. *)
Definition execute (stmt : Conn -> result Tables) : M unit :=
  fun c =>
    let c' := tick c in
    if next_fault c then (Raise DatabaseError, mark_for_rollback_on_error c')
    else match stmt c with
         | Ok t => (Ok tt, with_tables t c')
         | Raise e => (Raise e, mark_for_rollback_on_error c')
         end.

(** [@transaction.atomic] around the outermost block: on an exception, or
    when an error swallowed inside the block has marked the transaction, the
    tables return to their state at entry; otherwise the block commits, and
    the commit is a statement that can fail like any other. *)
Definition atomic {A} (body : M A) : M A :=
  fun c =>
    let snapshot := tables c in
    let leave (c1 : Conn) := with_flags (in_atomic_block c) (needs_rollback c) c1 in
    match body (with_flags true false c) with
    | (Ok a, c1) =>
        if needs_rollback c1 then (Ok a, leave (with_tables snapshot c1))
        else if next_fault c1
             then (Raise DatabaseError, leave (with_tables snapshot (tick c1)))
             else (Ok a, leave (tick c1))
    | (Raise e, c1) => (Raise e, leave (with_tables snapshot c1))
    end.

(** ** Ordering and de-duplication of query results *)

(** A stable insertion sort: [x] is placed after the elements that come
    strictly [before] it, so equal elements keep their relative order. *)
Fixpoint insert_by {A} (before : A -> A -> bool) (x : A) (l : list A) : list A :=
  match l with
  | [] => [x]
  | y :: l' => if before y x then y :: insert_by before x l' else x :: y :: l'
  end.

Definition sort_by {A} (before : A -> A -> bool) (l : list A) : list A :=
  fold_right (insert_by before) [] l.

(** [Meta.ordering] of the four models. *)
Definition order_entries : list CulturalEntry.t -> list CulturalEntry.t :=
  sort_by (fun a b => CulturalEntry.created_at b <? CulturalEntry.created_at a).

Definition order_examples : list UsageExample.t -> list UsageExample.t :=
  sort_by (fun a b => UsageExample.id a <? UsageExample.id b).

Definition order_translations : list AdditionalTranslation.t -> list AdditionalTranslation.t :=
  sort_by (fun a b => String.ltb (AdditionalTranslation.language a)
                                 (AdditionalTranslation.language b)).

Definition order_collocations : list Collocation.t -> list Collocation.t :=
  sort_by (fun a b => Collocation.frequency b <? Collocation.frequency a).

(** [SELECT DISTINCT] over the columns of [cultural_entries]. *)
Definition distinct (rows : list CulturalEntry.t) : list CulturalEntry.t :=
  nodup CulturalEntry.eq_dec rows.

(** ** Q objects and the entry manager's [filter] *)

Inductive lookup : Type :=
| is_active_ (b : bool)
| part_of_speech_ (s : string)
| genre_ (s : string)
| isiZulu_text__icontains (s : string)
| english_translation__icontains (s : string)
| cultural_context__icontains (s : string)
| examples__isiZulu_example__icontains (s : string)
| examples__english_example__icontains (s : string).

Inductive Q : Type :=
| Qf (l : lookup)
| Qand (a b : Q)
| Qor (a b : Q).

Infix "&&&" := Qand (at level 40, left associativity).
Infix "|||" := Qor (at level 50, left associativity).

(** A lookup on one row of [cultural_entries LEFT OUTER JOIN usage_examples]:
    a comparison with the NULL side of the join is not true. *)
Definition eval_lookup (l : lookup) (e : CulturalEntry.t) (x : option UsageExample.t) : bool :=
  match l with
  | is_active_ b => Bool.eqb (CulturalEntry.is_active e) b
  | part_of_speech_ s => String.eqb (CulturalEntry.part_of_speech e) s
  | genre_ s => String.eqb (CulturalEntry.genre e) s
  | isiZulu_text__icontains s => icontains (CulturalEntry.isiZulu_text e) s
  | english_translation__icontains s => icontains (CulturalEntry.english_translation e) s
  | cultural_context__icontains s => icontains (CulturalEntry.cultural_context e) s
  | examples__isiZulu_example__icontains s =>
      match x with
      | Some u => icontains (UsageExample.isiZulu_example u) s
      | None => false
      end
  | examples__english_example__icontains s =>
      match x with
      | Some u => icontains (UsageExample.english_example u) s
      | None => false
      end
  end.

Fixpoint eval_Q (q : Q) (e : CulturalEntry.t) (x : option UsageExample.t) : bool :=
  match q with
  | Qf l => eval_lookup l e x
  | Qand a b => (eval_Q a e x && eval_Q b e x)%bool
  | Qor a b => (eval_Q a e x || eval_Q b e x)%bool
  end.

Definition spans_examples_lookup (l : lookup) : bool :=
  match l with
  | examples__isiZulu_example__icontains _
  | examples__english_example__icontains _ => true
  | _ => false
  end.

Fixpoint spans_examples (q : Q) : bool :=
  match q with
  | Qf l => spans_examples_lookup l
  | Qand a b | Qor a b => (spans_examples a || spans_examples b)%bool
  end.

Definition examples_of (t : Tables) (e : CulturalEntry.t) : list UsageExample.t :=
  filter (fun u => UsageExample.entry u =? CulturalEntry.id e) (usage_examples t).

Definition translations_of (t : Tables) (e : CulturalEntry.t) : list AdditionalTranslation.t :=
  filter (fun a => AdditionalTranslation.entry a =? CulturalEntry.id e)
         (additional_translations t).

Definition collocations_of (t : Tables) (e : CulturalEntry.t) : list Collocation.t :=
  filter (fun a => Collocation.entry a =? CulturalEntry.id e) (collocations t).

(** The rows of the join: one per matching example, one with a NULL example
    for an entry that has none.  The join is only made when the condition
    spans the relation. *)
Definition joined_rows (q : Q) (t : Tables)
  : list (CulturalEntry.t * option UsageExample.t) :=
  flat_map (fun e =>
              if spans_examples q then
                match examples_of t e with
                | [] => [(e, None)]
                | us => map (fun u => (e, Some u)) us
                end
              else [(e, None)])
           (cultural_entries t).

Definition where_ (q : Q) (t : Tables) : list CulturalEntry.t :=
  map fst (filter (fun r => eval_Q q (fst r) (snd r)) (joined_rows q t)).

(** [CulturalEntry.objects.filter(q)], evaluated. *)
Definition objects_filter (q : Q) : M (list CulturalEntry.t) :=
  fun c => (Ok (order_entries (where_ q (tables c))), c).

(** [CulturalEntry.objects.filter(q).distinct()], evaluated. *)
Definition objects_filter_distinct (q : Q) : M (list CulturalEntry.t) :=
  fun c => (Ok (order_entries (distinct (where_ q (tables c)))), c).

(** ** Model instances and the managers' [create] *)

(** A keyword argument of a model constructor: a value out of a payload, or a
    model instance (the [entry=entry] of a child row). *)
Inductive pyval : Type :=
| PJson (v : json)
| PEntry (e : CulturalEntry.t).

Definition kwargs : Type := list (string * pyval).

Definition PStr (s : string) : pyval := PJson (JStr s).

(** [Model.__init__] collects the keyword arguments that name no field and
    raises [TypeError] when there is one. *)
Definition unexpected (fields : list string) (kw : kwargs) : list string :=
  filter (fun k => negb (existsb (String.eqb k) fields)) (map fst kw).

Definition set_entries (l : list CulturalEntry.t) (t : Tables) : Tables :=
  mkTables l (usage_examples t) (additional_translations t) (collocations t)
           (activity_logs t).

Definition set_examples (l : list UsageExample.t) (t : Tables) : Tables :=
  mkTables (cultural_entries t) l (additional_translations t) (collocations t)
           (activity_logs t).

Definition set_translations (l : list AdditionalTranslation.t) (t : Tables) : Tables :=
  mkTables (cultural_entries t) (usage_examples t) l (collocations t)
           (activity_logs t).

Definition set_logs (l : list ActivityLog.t) (t : Tables) : Tables :=
  mkTables (cultural_entries t) (usage_examples t) (additional_translations t)
           (collocations t) l.

(** [nextval] of a primary-key sequence. *)
Definition next_entry_id : M Z := fun c =>
  (Ok (entry_seq c),
   mkConn (tables c) (entry_seq c + 1) (example_seq c) (translation_seq c)
          (log_seq c) (clock c) (faults c) (in_atomic_block c) (needs_rollback c)).

Definition next_example_id : M Z := fun c =>
  (Ok (example_seq c),
   mkConn (tables c) (entry_seq c) (example_seq c + 1) (translation_seq c)
          (log_seq c) (clock c) (faults c) (in_atomic_block c) (needs_rollback c)).

Definition next_translation_id : M Z := fun c =>
  (Ok (translation_seq c),
   mkConn (tables c) (entry_seq c) (example_seq c) (translation_seq c + 1)
          (log_seq c) (clock c) (faults c) (in_atomic_block c) (needs_rollback c)).

Definition next_log_id : M Z := fun c =>
  (Ok (log_seq c),
   mkConn (tables c) (entry_seq c) (example_seq c) (translation_seq c)
          (log_seq c + 1) (clock c) (faults c) (in_atomic_block c) (needs_rollback c)).

Definition now : M Z := fun c => (Ok (clock c), c).

(** A conversion error while a row is being saved is raised under
    [mark_for_rollback_on_error], like an error of the query itself. *)
Definition prepare {A} (r : result A) : M A := fun c =>
  match r with
  | Ok a => (Ok a, c)
  | Raise e => (Raise e, mark_for_rollback_on_error c)
  end.

(** ** [str] and [repr] of a payload value *)

Definition str_of_Z (n : Z) : string := NilZero.string_of_int (Z.to_int n).

Definition quote1 : ascii := ascii_of_N 39.
Definition quote2 : ascii := ascii_of_N 34.
Definition backslash : ascii := ascii_of_N 92.

Definition hex_digit (n : N) : ascii :=
  if N.ltb n 10 then ascii_of_N (48 + n) else ascii_of_N (87 + n).

Definition is_printable (c : ascii) : bool :=
  (in_range 32 126 c || in_range 161 172 c || in_range 174 255 c)%bool.

Definition repr_char (quote c : ascii) : string :=
  if (Ascii.eqb c quote || Ascii.eqb c backslash)%bool
  then String backslash (String c EmptyString)
  else if N.eqb (code c) 9 then String backslash "t"
  else if N.eqb (code c) 10 then String backslash "n"
  else if N.eqb (code c) 13 then String backslash "r"
  else if is_printable c then String c EmptyString
  else String backslash
         (String "x" (String (hex_digit (code c / 16))
                              (String (hex_digit (code c mod 16)) EmptyString))).

Fixpoint has_char (c : ascii) (s : string) : bool :=
  match s with
  | EmptyString => false
  | String c' s' => (Ascii.eqb c c' || has_char c s')%bool
  end.

(** [repr(s)]: single quotes, unless the string has one and no double
    quote. *)
Definition repr_str (s : string) : string :=
  let quote := if (has_char quote1 s && negb (has_char quote2 s))%bool
               then quote2 else quote1 in
  String quote
    (String.concat EmptyString (map (repr_char quote) (list_ascii_of_string s))
     ++ String quote EmptyString).

Fixpoint py_repr (v : json) : string :=
  match v with
  | JNull => "None"
  | JBool true => "True"
  | JBool false => "False"
  | JNum n => str_of_Z n
  | JStr s => repr_str s
  | JArr l => "[" ++ String.concat ", " (map py_repr l) ++ "]"
  | JObj d =>
      "{" ++ String.concat ", "
               (map (fun kv => match kv with
                               | (k, x) => repr_str k ++ ": " ++ py_repr x
                               end) d)
          ++ "}"
  end.

(** [str(v)]. *)
Definition py_str (v : json) : string :=
  match v with
  | JStr s => s
  | _ => py_repr v
  end.


(** The conversions a save applies to the attributes of an instance.  A
    missing text argument takes the field default [''], and [None] breaks
    the column's NOT NULL constraint.  The callers pass strings for the
    text columns and a validated boolean for [is_active]; they never pass
    a key or a counter, for which only a JSON number is read as such. *)
Definition text_value (v : option pyval) : result string :=
  match v with
  | None => Ok ""
  | Some (PJson (JStr s)) => Ok s
  | Some (PJson JNull) => Raise IntegrityError
  | Some (PJson j) => Ok (py_str j)
  | Some (PEntry e) => Ok (CulturalEntry.__str__ e)
  end.

Definition int_value (default : Z) (v : option pyval) : result Z :=
  match v with
  | None => Ok default
  | Some (PJson (JNum n)) => Ok n
  | Some (PJson (JBool b)) => Ok (if b then 1 else 0)
  | Some (PJson JNull) => Raise IntegrityError
  | Some _ => Raise ValueError
  end.

Definition bool_value (default : bool) (v : option pyval) : result bool :=
  match v with
  | None => Ok default
  | Some (PJson (JBool b)) => Ok b
  | Some (PJson (JNum 0)) => Ok false
  | Some (PJson (JNum 1)) => Ok true
  | Some (PJson JNull) => Raise IntegrityError
  | Some _ => Raise ValueError
  end.

(** The key of a new row: the given one, or the next of the sequence. *)
Definition pk_value (v : option pyval) (next : M Z) : M Z :=
  match v with
  | None | Some (PJson JNull) => next
  | Some (PJson (JNum n)) => ret n
  | Some _ => prepare (Raise ValueError)
  end.

Definition fk_value (v : option pyval) : result Z :=
  match v with
  | Some (PEntry e) => Ok (CulturalEntry.id e)
  | None | Some (PJson JNull) => Raise IntegrityError
  | Some (PJson _) => Raise ValueError
  end.

Definition insert_entry (row : CulturalEntry.t) (c : Conn) : result Tables :=
  let t := tables c in
  if existsb (fun r => CulturalEntry.id r =? CulturalEntry.id row) (cultural_entries t)
  then Raise IntegrityError
  else Ok (set_entries (cultural_entries t ++ [row]) t).

(** A child row needs a fresh key and an existing parent. *)
Definition insert_example (row : UsageExample.t) (c : Conn) : result Tables :=
  let t := tables c in
  if (existsb (fun r => UsageExample.id r =? UsageExample.id row) (usage_examples t)
      || negb (existsb (fun e => CulturalEntry.id e =? UsageExample.entry row)
                       (cultural_entries t)))%bool
  then Raise IntegrityError
  else Ok (set_examples (usage_examples t ++ [row]) t).

(** [unique_together = ['entry', 'language']]. *)
Definition insert_translation (row : AdditionalTranslation.t) (c : Conn) : result Tables :=
  let t := tables c in
  if (existsb (fun r => AdditionalTranslation.id r =? AdditionalTranslation.id row)
              (additional_translations t)
      || negb (existsb (fun e => CulturalEntry.id e =? AdditionalTranslation.entry row)
                       (cultural_entries t))
      || existsb (fun r => (AdditionalTranslation.entry r =? AdditionalTranslation.entry row)
                           && String.eqb (AdditionalTranslation.language r)
                                         (AdditionalTranslation.language row))
                 (additional_translations t))%bool
  then Raise IntegrityError
  else Ok (set_translations (additional_translations t ++ [row]) t).

Definition insert_log (row : ActivityLog.t) (c : Conn) : result Tables :=
  let t := tables c in
  if existsb (fun r => ActivityLog.id r =? ActivityLog.id row) (activity_logs t)
  then Raise IntegrityError
  else Ok (set_logs (activity_logs t ++ [row]) t).

(** [CulturalEntry.objects.create] on the keyword arguments [kw]. *)
Definition CulturalEntry_objects_create (kw : kwargs) : M CulturalEntry.t :=
  match unexpected CulturalEntry.fields kw with
  | _ :: _ => raise TypeError
  | [] =>
      (isiZulu_text <- prepare (text_value (dict_get "isiZulu_text" kw)) ;;
       english_translation <- prepare (text_value (dict_get "english_translation" kw)) ;;
       part_of_speech <- prepare (text_value (dict_get "part_of_speech" kw)) ;;
       genre <- prepare (text_value (dict_get "genre" kw)) ;;
       cultural_context <- prepare (text_value (dict_get "cultural_context" kw)) ;;
       source <- prepare (text_value (dict_get "source" kw)) ;;
       frequency <- prepare (int_value 0 (dict_get "frequency" kw)) ;;
       is_active <- prepare (bool_value true (dict_get "is_active" kw)) ;;
       pk <- pk_value (dict_get "id" kw) next_entry_id ;;
       t <- now ;;
       let row := CulturalEntry.mk pk isiZulu_text english_translation
                    part_of_speech genre cultural_context source frequency
                    is_active t t in
       execute (insert_entry row) ;;;
       ret row)%db
  end.

(** [UsageExample.objects.create] on the keyword arguments [kw]. *)
Definition UsageExample_objects_create (kw : kwargs) : M UsageExample.t :=
  match unexpected UsageExample.fields kw with
  | _ :: _ => raise TypeError
  | [] =>
      (entry <- prepare (fk_value (dict_get "entry" kw)) ;;
       isiZulu_example <- prepare (text_value (dict_get "isiZulu_example" kw)) ;;
       english_example <- prepare (text_value (dict_get "english_example" kw)) ;;
       pk <- pk_value (dict_get "id" kw) next_example_id ;;
       t <- now ;;
       let row := UsageExample.mk pk entry isiZulu_example english_example t t in
       execute (insert_example row) ;;;
       ret row)%db
  end.

(** [AdditionalTranslation.objects.create] on the keyword arguments [kw]. *)
Definition AdditionalTranslation_objects_create (kw : kwargs)
  : M AdditionalTranslation.t :=
  match unexpected AdditionalTranslation.fields kw with
  | _ :: _ => raise TypeError
  | [] =>
      (entry <- prepare (fk_value (dict_get "entry" kw)) ;;
       language <- prepare (text_value (dict_get "language" kw)) ;;
       translation <- prepare (text_value (dict_get "translation" kw)) ;;
       pk <- pk_value (dict_get "id" kw) next_translation_id ;;
       t <- now ;;
       let row := AdditionalTranslation.mk pk entry language translation t t in
       execute (insert_translation row) ;;;
       ret row)%db
  end.

(** [ActivityLog.objects.create(user=, action=, description=, ip_address=)]. *)
Definition ActivityLog_objects_create (user : option Z) (action description : string)
           (ip_address : option string) : M ActivityLog.t :=
  (pk <- next_log_id ;;
   t <- now ;;
   let row := ActivityLog.mk pk user action description ip_address t t in
   execute (insert_log row) ;;;
   ret row)%db.

(** [instance.save()] of a row that came from the database: an UPDATE of
    the row with the instance's key (an INSERT when there is none), with
    [updated_at] refreshed by [auto_now]. *)
Definition save_entry (instance : CulturalEntry.t) (c : Conn) : result Tables :=
  let t := tables c in
  let same r := CulturalEntry.id r =? CulturalEntry.id instance in
  if existsb same (cultural_entries t)
  then Ok (set_entries (map (fun r => if same r then instance else r)
                            (cultural_entries t)) t)
  else Ok (set_entries (cultural_entries t ++ [instance]) t).

Definition CulturalEntry_save (instance : CulturalEntry.t) : M CulturalEntry.t :=
  (t <- now ;;
   let instance := CulturalEntry.set_updated_at t instance in
   execute (save_entry instance) ;;;
   ret instance)%db.

(** [CulturalEntry.objects.bulk_update(objs, ['frequency'])]: nothing is
    sent for an empty batch; otherwise one UPDATE gives every row the
    counter of the object with its key. *)
Definition frequency_case (objs : list CulturalEntry.t) (r : CulturalEntry.t)
  : CulturalEntry.t :=
  match find (fun o => CulturalEntry.id o =? CulturalEntry.id r) objs with
  | Some o => CulturalEntry.set_frequency (CulturalEntry.frequency o) r
  | None => r
  end.

Definition objects_bulk_update_frequency (objs : list CulturalEntry.t) : M unit :=
  match objs with
  | [] => ret tt
  | _ => execute (fun c => Ok (set_entries (map (frequency_case objs)
                                                (cultural_entries (tables c)))
                                           (tables c)))
  end.

(** [instance.examples.all().delete()] and its sibling. *)
Definition delete_examples_of (instance : CulturalEntry.t) : M unit :=
  execute (fun c =>
    Ok (set_examples
          (filter (fun u => negb (UsageExample.entry u =? CulturalEntry.id instance))
                  (usage_examples (tables c)))
          (tables c))).

Definition delete_translations_of (instance : CulturalEntry.t) : M unit :=
  execute (fun c =>
    Ok (set_translations
          (filter (fun a => negb (AdditionalTranslation.entry a
                                  =? CulturalEntry.id instance))
                  (additional_translations (tables c)))
          (tables c))).

(** ** corpus/services.py *)

(** *** ActivityLogService *)

Module ActivityLogService.

(** A failure to write the log row is caught and goes to the logger. *)
Definition log_activity (user : option Z) (action description : string)
           (ip_address : option string) : M unit :=
  try_except
    (ActivityLog_objects_create user action description ip_address ;;; ret tt)%db
    (fun _ => ret tt).

End ActivityLogService.

(** *** SearchService *)

Module SearchService.

(** The [filters] dict of the search: its values are strings or [None]. *)
Definition filters_dict : Type := list (string * option string).

Definition filters_get (filters : filters_dict) (key : string) : option string :=
  match dict_get key filters with
  | Some v => v
  | None => None
  end.

(** [filters.get('query', '')]; a key bound to [None] yields [None], which
    the manager refuses as the value of an [icontains] lookup. *)
Definition filters_query (filters : filters_dict) : result string :=
  match dict_get "query" filters with
  | None => Ok ""
  | Some (Some s) => Ok s
  | Some None => Raise ValueError
  end.

Definition option_eqb (o : option string) (s : string) : bool :=
  match o with
  | Some x => String.eqb x s
  | None => false
  end.

Definition _apply_filters (base_query : Q) (filters : filters_dict) : result Q :=
  let query := base_query in
  let query :=
    match filters_get filters "part_of_speech" with
    | Some v => if truthy (Some v) then query &&& Qf (part_of_speech_ v) else query
    | None => query
    end in
  let query :=
    match filters_get filters "genre" with
    | Some v => if truthy (Some v) then query &&& Qf (genre_ v) else query
    | None => query
    end in
  if option_eqb (filters_get filters "language") "isizulu" then
    match filters_query filters with
    | Ok s => Ok (query &&& Qf (isiZulu_text__icontains s))
    | Raise e => Raise e
    end
  else if option_eqb (filters_get filters "language") "english" then
    match filters_query filters with
    | Ok s => Ok (query &&& Qf (english_translation__icontains s))
    | Raise e => Raise e
    end
  else Ok query.

(** The loop increments the counter of every instance of the evaluated
    queryset, and the batch update writes them; the instances, which the
    caller's queryset holds, are returned as they now are. *)
Definition _update_frequencies (entries : list CulturalEntry.t)
  : M (list CulturalEntry.t) :=
  let entries :=
    map (fun entry => CulturalEntry.set_frequency (CulturalEntry.frequency entry + 1) entry)
        entries in
  (objects_bulk_update_frequency entries ;;;
   ret entries)%db.

Definition text_query (query : string) : Q :=
  Qf (isiZulu_text__icontains query)
  ||| Qf (english_translation__icontains query)
  ||| Qf (cultural_context__icontains query)
  ||| Qf (examples__isiZulu_example__icontains query)
  ||| Qf (examples__english_example__icontains query).

Definition search_entries (query : string) (filters : option filters_dict)
  : M (list CulturalEntry.t) :=
  try_except
    (let search_query := Qf (is_active_ true) in
     let search_query :=
       if truthy (Some query) then search_query &&& text_query query
       else search_query in
     search_query <- lift (match filters with
                           | Some ((_ :: _) as filters) => _apply_filters search_query filters
                           | _ => Ok search_query
                           end) ;;
     results <- objects_filter_distinct search_query ;;
     results <- _update_frequencies results ;;
     ret results)%db
    (fun e => raise e).

End SearchService.

(** *** DataImportService *)

Module DataImportService.

(** [all(key in entry_data for key in ['isiZulu_text', 'english_translation'])]:
    the second test is only made when the first holds. *)
Definition has_required_fields (entry_data : json) : result bool :=
  match py_in "isiZulu_text" entry_data with
  | Ok true => py_in "english_translation" entry_data
  | r => r
  end.

(** One turn of the import loop; the answer tells whether the record was
    counted. *)
Definition import_record (entry_data : json) : M bool :=
  (valid <- lift (has_required_fields entry_data) ;;
   if negb valid then ret false
   else
     isiZulu_text <- lift (py_getitem entry_data "isiZulu_text") ;;
     english_translation <- lift (py_getitem entry_data "english_translation") ;;
     part_of_speech <- lift (py_get entry_data "part_of_speech" (JStr "cultural")) ;;
     genre <- lift (py_get entry_data "genre" (JStr "cultural")) ;;
     cultural_context <- lift (py_get entry_data "cultural_context" (JStr "")) ;;
     source <- lift (py_get entry_data "source" (JStr "")) ;;
     entry <- CulturalEntry_objects_create
                [("isiZulu_text", PJson isiZulu_text);
                 ("english_translation", PJson english_translation);
                 ("part_of_speech", PJson part_of_speech);
                 ("genre", PJson genre);
                 ("cultural_context", PJson cultural_context);
                 ("source", PJson source)] ;;
     examples <- lift (py_get entry_data "examples" (JArr [])) ;;
     examples <- lift (py_iter examples) ;;
     for_each examples (fun example_data =>
       isizulu <- lift (py_get example_data "isizulu" (JStr "")) ;;
       english <- lift (py_get example_data "english" (JStr "")) ;;
       CulturalEntry_objects_create
         [("entry", PEntry entry);
          ("isiZulu_example", PJson isizulu);
          ("english_example", PJson english)] ;;;
       ret tt) ;;;
     translations <- lift (py_get entry_data "additional_translations" (JObj [])) ;;
     translations <- lift (py_items translations) ;;
     for_each translations (fun item =>
       CulturalEntry_objects_create
         [("entry", PEntry entry);
          ("language", PStr (fst item));
          ("translation", PJson (snd item))] ;;;
       ret tt) ;;;
     ret true)%db.

Fixpoint import_loop (json_data : list json) (imported_count : Z) : M Z :=
  match json_data with
  | [] => ret imported_count
  | entry_data :: json_data' =>
      (counted <- import_record entry_data ;;
       import_loop json_data'
                   (if counted then imported_count + 1 else imported_count))%db
  end.

Definition import_from_json (json_data : list json) (user : option Z) : M Z :=
  atomic
    (try_except
       (imported_count <- import_loop json_data 0 ;;
        ActivityLogService.log_activity user "import"
          ("Imported " ++ str_of_Z imported_count ++ " entries from JSON") None ;;;
        ret imported_count)%db
       (fun e => raise e)).

End DataImportService.

(** *** StatisticsService *)

(** A value of a statistics mapping: a whole number, [None], or a quotient
    that the database or Python computes in floating point.  A quotient is
    kept as the two whole numbers it is the quotient of. *)
Inductive stat : Type :=
| SInt (n : Z)
| SQuotient (numerator denominator : Z)
| SNone.

(** The aggregates over a set of rows.  No column of [cultural_entries] is
    nullable, so [Count] of a column counts the rows; [Avg] and [Max] of no
    rows are [None]. *)
Definition Count (rows : list CulturalEntry.t) : stat :=
  SInt (Z.of_nat (List.length rows)).

Definition Count_filter (p : CulturalEntry.t -> bool) (rows : list CulturalEntry.t) : stat :=
  SInt (Z.of_nat (List.length (filter p rows))).

Definition Avg (column : CulturalEntry.t -> Z) (rows : list CulturalEntry.t) : stat :=
  match rows with
  | [] => SNone
  | _ => SQuotient (fold_right Z.add 0 (map column rows)) (Z.of_nat (List.length rows))
  end.

Definition Max (column : CulturalEntry.t -> Z) (rows : list CulturalEntry.t) : stat :=
  match rows with
  | [] => SNone
  | r :: rows' => SInt (fold_right Z.max (column r) (map column rows'))
  end.

Module StatisticsService.

(** [CulturalEntry.objects.aggregate(...)]: over every row of the table,
    active or not. *)
Definition get_basic_stats : M (list (string * stat)) :=
  fun c =>
    let rows := cultural_entries (tables c) in
    (Ok [("total_entries", Count rows);
         ("active_entries", Count_filter CulturalEntry.is_active rows);
         ("avg_frequency", Avg CulturalEntry.frequency rows);
         ("total_searches", Count rows)],
     c).

End StatisticsService.

(** ** corpus/serializers.py *)

Module CulturalEntrySerializer.

Definition UsageExample_representation (u : UsageExample.t) : json :=
  JObj [("id", JNum (UsageExample.id u));
        ("isiZulu_example", JStr (UsageExample.isiZulu_example u));
        ("english_example", JStr (UsageExample.english_example u))].

Definition AdditionalTranslation_representation (a : AdditionalTranslation.t) : json :=
  JObj [("id", JNum (AdditionalTranslation.id a));
        ("language", JStr (AdditionalTranslation.language a));
        ("language_display",
         JStr (get_display AdditionalTranslation.LANGUAGE_CHOICES
                           (AdditionalTranslation.language a)));
        ("translation", JStr (AdditionalTranslation.translation a))].

Definition Collocation_representation (a : Collocation.t) : json :=
  JObj [("id", JNum (Collocation.id a));
        ("phrase", JStr (Collocation.phrase a));
        ("frequency", JNum (Collocation.frequency a))].

(** [CulturalEntrySerializer(e).data], with the keys of [Meta.fields] in
    their order; a timestamp is rendered as its clock reading. *)
Definition CulturalEntry_representation (t : Tables) (e : CulturalEntry.t) : json :=
  JObj [("id", JNum (CulturalEntry.id e));
        ("isiZulu_text", JStr (CulturalEntry.isiZulu_text e));
        ("english_translation", JStr (CulturalEntry.english_translation e));
        ("part_of_speech", JStr (CulturalEntry.part_of_speech e));
        ("part_of_speech_display",
         JStr (get_display CulturalEntry.PART_OF_SPEECH_CHOICES
                           (CulturalEntry.part_of_speech e)));
        ("genre", JStr (CulturalEntry.genre e));
        ("genre_display",
         JStr (get_display CulturalEntry.GENRE_CHOICES (CulturalEntry.genre e)));
        ("cultural_context", JStr (CulturalEntry.cultural_context e));
        ("source", JStr (CulturalEntry.source e));
        ("frequency", JNum (CulturalEntry.frequency e));
        ("is_active", JBool (CulturalEntry.is_active e));
        ("examples",
         JArr (map UsageExample_representation (order_examples (examples_of t e))));
        ("additional_translations",
         JArr (map AdditionalTranslation_representation
                   (order_translations (translations_of t e))));
        ("collocations",
         JArr (map Collocation_representation
                   (order_collocations (collocations_of t e))));
        ("created_at", JNum (CulturalEntry.created_at e));
        ("updated_at", JNum (CulturalEntry.updated_at e))].

(** [CulturalEntryListSerializer(e).data]. *)
Definition CulturalEntryList_representation (e : CulturalEntry.t) : json :=
  JObj [("id", JNum (CulturalEntry.id e));
        ("isiZulu_text", JStr (CulturalEntry.isiZulu_text e));
        ("english_translation", JStr (CulturalEntry.english_translation e));
        ("part_of_speech", JStr (CulturalEntry.part_of_speech e));
        ("part_of_speech_display",
         JStr (get_display CulturalEntry.PART_OF_SPEECH_CHOICES
                           (CulturalEntry.part_of_speech e)));
        ("genre", JStr (CulturalEntry.genre e));
        ("frequency", JNum (CulturalEntry.frequency e));
        ("created_at", JNum (CulturalEntry.created_at e))].

(** [Meta.fields], [Meta.read_only_fields] and the fields declared with
    [read_only=True]; what remains can be written through the serializer. *)
Definition Meta_fields : list string :=
  ["id"; "isiZulu_text"; "english_translation";
   "part_of_speech"; "part_of_speech_display";
   "genre"; "genre_display"; "cultural_context";
   "source"; "frequency"; "is_active";
   "examples"; "additional_translations"; "collocations";
   "created_at"; "updated_at"].

Definition Meta_read_only_fields : list string :=
  ["id"; "frequency"; "created_at"; "updated_at"].

Definition declared_read_only : list string :=
  ["collocations"; "part_of_speech_display"; "genre_display"].

Definition mem (x : string) (l : list string) : bool := existsb (String.eqb x) l.

Definition writable_fields : list string :=
  filter (fun f => negb (mem f Meta_read_only_fields || mem f declared_read_only))
         Meta_fields.

(** *** Validation

    The fields the framework derives from the declarations of the models.
    A text field takes a string or a number (through [str]), trims it,
    refuses a blank unless the column is [blank=True], a NUL character, and
    a text longer than the column's [max_length]; a choice is one of the
    choices; a boolean is [true], [false], 1, 0 or one of their spellings;
    a required field is present unless the update is partial.
    [validated_data] holds the writable fields that were supplied, in the
    order of [Meta.fields]. *)
Definition char_field (allow_blank : bool) (max_length : option nat) (data : string)
  : result json :=
  let value := strip data in
  if String.eqb value "" then
    if allow_blank then Ok (JStr "") else Raise ValidationError
  else if has_null value then Raise ValidationError
  else match max_length with
       | Some n => if (n <? String.length value)%nat then Raise ValidationError
                   else Ok (JStr value)
       | None => Ok (JStr value)
       end.

Definition validate_text (allow_blank : bool) (max_length : option nat) (v : json)
  : result json :=
  match v with
  | JStr s => char_field allow_blank max_length s
  | JNum n => char_field allow_blank max_length (str_of_Z n)
  | _ => Raise ValidationError
  end.

Definition validate_choice (choices : list (string * string)) (v : json) : result json :=
  match v with
  | JStr s => if dict_has s choices then Ok v else Raise ValidationError
  | _ => Raise ValidationError
  end.

(** The spellings of a boolean that every release of the framework takes;
    'yes', 'on' and the like, which only some releases take, are refused
    here. *)
Definition TRUE_VALUES : list string := ["t"; "T"; "true"; "True"; "TRUE"; "1"].
Definition FALSE_VALUES : list string := ["f"; "F"; "false"; "False"; "FALSE"; "0"].

Definition validate_bool (v : json) : result json :=
  match v with
  | JBool _ => Ok v
  | JNum n => if n =? 1 then Ok (JBool true)
              else if n =? 0 then Ok (JBool false)
              else Raise ValidationError
  | JStr s => if existsb (String.eqb s) TRUE_VALUES then Ok (JBool true)
              else if existsb (String.eqb s) FALSE_VALUES then Ok (JBool false)
              else Raise ValidationError
  | _ => Raise ValidationError
  end.

Definition field_spec : Type := string * (bool * (json -> result json)).

Fixpoint validate_fields (specs : list field_spec) (partial : bool)
         (d : list (string * json)) : result (list (string * json)) :=
  match specs with
  | [] => Ok []
  | (name, (required, validate)) :: specs' =>
      match dict_get name d with
      | Some v =>
          match validate v, validate_fields specs' partial d with
          | Ok v', Ok rest => Ok ((name, v') :: rest)
          | Raise e, _ | _, Raise e => Raise e
          end
      | None =>
          if (required && negb partial)%bool then Raise ValidationError
          else validate_fields specs' partial d
      end
  end.

Definition validate_object (specs : list field_spec) (partial : bool) (data : json)
  : result json :=
  match data with
  | JObj d => match validate_fields specs partial d with
              | Ok vd => Ok (JObj vd)
              | Raise e => Raise e
              end
  | _ => Raise ValidationError
  end.

Fixpoint validate_each (validate : json -> result json) (l : list json)
  : result (list json) :=
  match l with
  | [] => Ok []
  | x :: l' => match validate x, validate_each validate l' with
               | Ok y, Ok ys => Ok (y :: ys)
               | Raise e, _ | _, Raise e => Raise e
               end
  end.

Definition validate_many (specs : list field_spec) (partial : bool) (data : json)
  : result json :=
  match data with
  | JArr l => match validate_each (validate_object specs partial) l with
              | Ok l' => Ok (JArr l')
              | Raise e => Raise e
              end
  | _ => Raise ValidationError
  end.

Definition UsageExampleSerializer_fields : list field_spec :=
  [("isiZulu_example", (true, validate_text false None));
   ("english_example", (true, validate_text false None))].

Definition AdditionalTranslationSerializer_fields : list field_spec :=
  [("language", (true, validate_choice AdditionalTranslation.LANGUAGE_CHOICES));
   ("translation", (true, validate_text false None))].

Definition CulturalEntrySerializer_fields (partial : bool) : list field_spec :=
  [("isiZulu_text", (true, validate_text false None));
   ("english_translation", (true, validate_text false None));
   ("part_of_speech", (true, validate_choice CulturalEntry.PART_OF_SPEECH_CHOICES));
   ("genre", (true, validate_choice CulturalEntry.GENRE_CHOICES));
   ("cultural_context", (true, validate_text false None));
   ("source", (false, validate_text true (Some 200%nat)));
   ("is_active", (false, validate_bool));
   ("examples", (false, validate_many UsageExampleSerializer_fields partial));
   ("additional_translations",
    (false, validate_many AdditionalTranslationSerializer_fields partial))].

Definition run_validation (partial : bool) (data : json)
  : result (list (string * json)) :=
  match data with
  | JObj d => validate_fields (CulturalEntrySerializer_fields partial) partial d
  | _ => Raise ValidationError
  end.

(** *** Nested create and update *)

Definition dict_remove {V} (k : string) (d : list (string * V)) : list (string * V) :=
  filter (fun kv => negb (String.eqb (fst kv) k)) d.

(** The keyword arguments of [create(entry=entry, **child_data)]. *)
Definition child_kwargs (entry : CulturalEntry.t) (child_data : json) : result kwargs :=
  match child_data with
  | JObj d => if dict_has "entry" d then Raise TypeError
              else Ok (("entry", PEntry entry)
                         :: map (fun kv => (fst kv, PJson (snd kv))) d)
  | _ => Raise TypeError
  end.

Definition create_examples (entry : CulturalEntry.t) (examples_data : list json) : M unit :=
  for_each examples_data (fun example_data =>
    kw <- lift (child_kwargs entry example_data) ;;
    UsageExample_objects_create kw ;;;
    ret tt)%db.

Definition create_translations (entry : CulturalEntry.t) (translations_data : list json)
  : M unit :=
  for_each translations_data (fun translation_data =>
    kw <- lift (child_kwargs entry translation_data) ;;
    AdditionalTranslation_objects_create kw ;;;
    ret tt)%db.

(** [CulturalEntrySerializer.create]. *)
Definition create (validated_data : list (string * json)) : M CulturalEntry.t :=
  let examples_data :=
    match dict_get "examples" validated_data with Some v => v | None => JArr [] end in
  let validated_data := dict_remove "examples" validated_data in
  let translations_data :=
    match dict_get "additional_translations" validated_data with
    | Some v => v
    | None => JArr []
    end in
  let validated_data := dict_remove "additional_translations" validated_data in
  (entry <- CulturalEntry_objects_create
              (map (fun kv => (fst kv, PJson (snd kv))) validated_data) ;;
   examples_data <- lift (py_iter examples_data) ;;
   create_examples entry examples_data ;;;
   translations_data <- lift (py_iter translations_data) ;;
   create_translations entry translations_data ;;;
   ret entry)%db.

(** [setattr(instance, attr, value)] on a column; any other name becomes
    a plain attribute of the object, which a save does not write. *)
Definition setattr (instance : CulturalEntry.t) (attr : string) (value : json)
  : result CulturalEntry.t :=
  let e := instance in
  let text (k : string -> CulturalEntry.t) :=
    match text_value (Some (PJson value)) with
    | Ok s => Ok (k s)
    | Raise x => Raise x
    end in
  let int (k : Z -> CulturalEntry.t) :=
    match int_value 0 (Some (PJson value)) with
    | Ok n => Ok (k n)
    | Raise x => Raise x
    end in
  let upd id' t1 t2 p g cc src f a cr up :=
    CulturalEntry.mk id' t1 t2 p g cc src f a cr up in
  let '(CulturalEntry.mk i t1 t2 p g cc src f a cr up) := e in
  if String.eqb attr "isiZulu_text" then text (fun s => upd i s t2 p g cc src f a cr up)
  else if String.eqb attr "english_translation" then text (fun s => upd i t1 s p g cc src f a cr up)
  else if String.eqb attr "part_of_speech" then text (fun s => upd i t1 t2 s g cc src f a cr up)
  else if String.eqb attr "genre" then text (fun s => upd i t1 t2 p s cc src f a cr up)
  else if String.eqb attr "cultural_context" then text (fun s => upd i t1 t2 p g s src f a cr up)
  else if String.eqb attr "source" then text (fun s => upd i t1 t2 p g cc s f a cr up)
  else if String.eqb attr "frequency" then int (fun n => upd i t1 t2 p g cc src n a cr up)
  else if String.eqb attr "is_active" then
    match bool_value true (Some (PJson value)) with
    | Ok b => Ok (upd i t1 t2 p g cc src f b cr up)
    | Raise x => Raise x
    end
  else if String.eqb attr "id" then int (fun n => upd n t1 t2 p g cc src f a cr up)
  else if String.eqb attr "created_at" then int (fun n => upd i t1 t2 p g cc src f a n up)
  else if String.eqb attr "updated_at" then int (fun n => upd i t1 t2 p g cc src f a cr n)
  else Ok e.

Fixpoint setattrs (instance : CulturalEntry.t) (items : list (string * json))
  : result CulturalEntry.t :=
  match items with
  | [] => Ok instance
  | (attr, value) :: items' =>
      match setattr instance attr value with
      | Ok instance' => setattrs instance' items'
      | Raise e => Raise e
      end
  end.

(** [CulturalEntrySerializer.update]. *)
Definition update (instance : CulturalEntry.t) (validated_data : list (string * json))
  : M CulturalEntry.t :=
  let examples_data := dict_get "examples" validated_data in
  let validated_data := dict_remove "examples" validated_data in
  let translations_data := dict_get "additional_translations" validated_data in
  let validated_data := dict_remove "additional_translations" validated_data in
  (instance <- prepare (setattrs instance validated_data) ;;
   instance <- CulturalEntry_save instance ;;
   match examples_data with
   | None | Some JNull => ret tt
   | Some examples_data =>
       delete_examples_of instance ;;;
       examples_data <- lift (py_iter examples_data) ;;
       create_examples instance examples_data
   end ;;;
   match translations_data with
   | None | Some JNull => ret tt
   | Some translations_data =>
       delete_translations_of instance ;;;
       translations_data <- lift (py_iter translations_data) ;;
       create_translations instance translations_data
   end ;;;
   ret instance)%db.

End CulturalEntrySerializer.

(** ** Splitting strings *)

(** The fields of [s] between separator characters, empty ones included:
    [s.split(sep)] for a one-character separator. *)
Fixpoint fields_of (is_sep : ascii -> bool) (s : string) : list string :=
  match s with
  | EmptyString => [EmptyString]
  | String c s' =>
      if is_sep c then EmptyString :: fields_of is_sep s'
      else match fields_of is_sep s' with
           | f :: fs => String c f :: fs
           | [] => [String c EmptyString]
           end
  end.

Definition non_empty (s : string) : bool := negb (String.eqb s "").

Definition is_comma (c : ascii) : bool := N.eqb (code c) 44.

Fixpoint digits_value (s : string) (acc : Z) : option Z :=
  match s with
  | EmptyString => Some acc
  | String c s' => if in_range 48 57 c
                   then digits_value s' (10 * acc + Z.of_N (code c) - 48)
                   else None
  end.

(** A whole number in decimal notation. *)
Definition parse_Z (s : string) : option Z :=
  match s with
  | EmptyString => None
  | String "-" EmptyString => None
  | String "-" s' => option_map Z.opp (digits_value s' 0)
  | _ => digits_value s 0
  end.

(** [s.split()]: the runs of characters between whitespace. *)
Definition split_whitespace (s : string) : list string :=
  filter non_empty (fields_of is_space s).

(** ** corpus/filters.py and the list backends *)

Record Request : Type := mkRequest {
  user : option Z;                     (* [None]: the anonymous user *)
  GET : list (string * string);
  META : list (string * string);
  data : json;
  pagination : option (nat * nat)      (* offset and limit, when paginated *)
}.

Record Response : Type := mkResponse {
  status : Z;
  body : json
}.

(** A filter of the filterset: skipped when its parameter is absent or
    empty.  The form field of a [CharFilter] trims the value and refuses a
    NUL character. *)
Definition char_filter (GET : list (string * string)) (param : string)
           (test : string -> CulturalEntry.t -> bool)
           (queryset : list CulturalEntry.t) : result (list CulturalEntry.t) :=
  match dict_get param GET with
  | None => Ok queryset
  | Some value =>
      let value := strip value in
      if has_null value then Raise ValidationError
      else if non_empty value then Ok (filter (test value) queryset)
      else Ok queryset
  end.

Definition choice_filter (GET : list (string * string)) (param : string)
           (choices : list (string * string)) (column : CulturalEntry.t -> string)
           (queryset : list CulturalEntry.t) : result (list CulturalEntry.t) :=
  match dict_get param GET with
  | None => Ok queryset
  | Some value =>
      if non_empty value then
        if dict_has value choices
        then Ok (filter (fun e => String.eqb (column e) value) queryset)
        else Raise ValidationError
      else Ok queryset
  end.

(** A [NumberFilter], for a value in plain whole-number notation; the other
    spellings of a number that its form field takes (a fraction, an
    exponent, whitespace around it) are refused here. *)
Definition number_filter (GET : list (string * string)) (param : string)
           (test : Z -> Z -> bool)
           (queryset : list CulturalEntry.t) : result (list CulturalEntry.t) :=
  match dict_get param GET with
  | None => Ok queryset
  | Some value =>
      if non_empty value then
        match parse_Z value with
        | Some n => Ok (filter (fun e => test (CulturalEntry.frequency e) n) queryset)
        | None => Raise ValidationError
        end
      else Ok queryset
  end.

Definition and_then {A B} (r : result A) (k : A -> result B) : result B :=
  match r with
  | Ok a => k a
  | Raise e => Raise e
  end.

(** [CulturalEntryFilter]. *)
Definition CulturalEntryFilter (GET : list (string * string))
           (queryset : list CulturalEntry.t) : result (list CulturalEntry.t) :=
  and_then (char_filter GET "isiZulu_text"
              (fun v e => icontains (CulturalEntry.isiZulu_text e) v) queryset) (fun qs =>
  and_then (char_filter GET "english_translation"
              (fun v e => icontains (CulturalEntry.english_translation e) v) qs) (fun qs =>
  and_then (choice_filter GET "part_of_speech" CulturalEntry.PART_OF_SPEECH_CHOICES
              CulturalEntry.part_of_speech qs) (fun qs =>
  and_then (choice_filter GET "genre" CulturalEntry.GENRE_CHOICES
              CulturalEntry.genre qs) (fun qs =>
  and_then (number_filter GET "min_frequency" Z.geb qs) (fun qs =>
  and_then (number_filter GET "max_frequency" Z.leb qs) (fun qs =>
  number_filter GET "frequency" Z.eqb qs)))))).

(** [SearchFilter] over [search_fields]: every term of the [search]
    parameter occurs in one of the three columns. *)
Definition search_terms (s : string) : list string :=
  filter non_empty (fields_of (fun c => is_space c || is_comma c)%bool s).

Definition SearchFilter (GET : list (string * string))
           (queryset : list CulturalEntry.t) : list CulturalEntry.t :=
  match dict_get "search" GET with
  | None => queryset
  | Some s =>
      filter (fun e =>
                forallb (fun term =>
                           icontains (CulturalEntry.isiZulu_text e) term
                           || icontains (CulturalEntry.english_translation e) term
                           || icontains (CulturalEntry.cultural_context e) term)%bool
                        (search_terms s))
             queryset
  end.

(** [OrderingFilter] over [ordering_fields]; the queryset arrives in the
    default order, which stays when no valid term is given. *)
Definition ordering_key (term : string) : option (CulturalEntry.t -> CulturalEntry.t -> bool) :=
  let column (name : string) : option (CulturalEntry.t -> Z) :=
    if String.eqb name "frequency" then Some CulturalEntry.frequency
    else if String.eqb name "created_at" then Some CulturalEntry.created_at
    else if String.eqb name "updated_at" then Some CulturalEntry.updated_at
    else None in
  match term with
  | String "-" name => option_map (fun f a b => f b <? f a) (column name)
  | name => option_map (fun f a b => f a <? f b) (column name)
  end.

Definition OrderingFilter (GET : list (string * string))
           (queryset : list CulturalEntry.t) : list CulturalEntry.t :=
  match dict_get "ordering" GET with
  | None => queryset
  | Some s =>
      fold_right (fun term qs => match ordering_key term with
                                 | Some before => sort_by before qs
                                 | None => qs
                                 end)
                 queryset (fields_of is_comma s)
  end.

Definition filter_queryset (request : Request) (queryset : list CulturalEntry.t)
  : result (list CulturalEntry.t) :=
  and_then (CulturalEntryFilter (GET request) queryset) (fun qs =>
  Ok (OrderingFilter (GET request) (SearchFilter (GET request) qs))).

(** Modelled from the spec: [corpus/pagination.py] with [StandardPagination]
    is not among the sources; the spec describes offset/limit pagination.
    A request carries the offset and limit the paginator reads, or none
    when the paginator leaves the request unpaginated. *)
Definition paginate_queryset {A} (request : Request) (queryset : list A)
  : option (list A) :=
  match pagination request with
  | Some (offset, limit) => Some (firstn limit (skipn offset queryset))
  | None => None
  end.

Definition get_paginated_response (count : nat) (results : list json) : Response :=
  mkResponse 200 (JObj [("count", JNum (Z.of_nat count)); ("results", JArr results)]).

(** ** corpus/views.py: CulturalEntryViewSet *)

Module CulturalEntryViewSet.

(** [queryset = CulturalEntry.objects.filter(is_active=True)]. *)
Definition get_queryset : M (list CulturalEntry.t) :=
  objects_filter (Qf (is_active_ true)).

(** [get_object]: the row with the key of the URL in the queryset the
    filter backends leave for the request. *)
Definition get_object (request : Request) (pk : Z) : M CulturalEntry.t :=
  (queryset <- get_queryset ;;
   queryset <- lift (filter_queryset request queryset) ;;
   match find (fun e => CulturalEntry.id e =? pk) queryset with
   | Some instance => ret instance
   | None => raise Http404
   end)%db.

Definition get_client_ip (request : Request) : option string :=
  match dict_get "HTTP_X_FORWARDED_FOR" (META request) with
  | Some x_forwarded_for =>
      if non_empty x_forwarded_for
      then Some (hd "" (fields_of is_comma x_forwarded_for))
      else dict_get "REMOTE_ADDR" (META request)
  | None => dict_get "REMOTE_ADDR" (META request)
  end.

(** A call [self.get_client_ip(...)] with the given positional arguments:
    the method is declared with exactly one, [request]. *)
Definition call_get_client_ip (args : list Request) : result (option string) :=
  match args with
  | [request] => Ok (get_client_ip request)
  | _ => Raise TypeError
  end.

Definition perform_create (request : Request) (validated_data : list (string * json))
  : M CulturalEntry.t :=
  (instance <- CulturalEntrySerializer.create validated_data ;;
   ip_address <- lift (call_get_client_ip []) ;;
   ActivityLogService.log_activity (user request) "create"
     ("Created entry: " ++ CulturalEntry.isiZulu_text instance) ip_address ;;;
   ret instance)%db.

Definition perform_update (request : Request) (instance : CulturalEntry.t)
           (validated_data : list (string * json)) : M CulturalEntry.t :=
  (instance <- CulturalEntrySerializer.update instance validated_data ;;
   ip_address <- lift (call_get_client_ip []) ;;
   ActivityLogService.log_activity (user request) "update"
     ("Updated entry: " ++ CulturalEntry.isiZulu_text instance) ip_address ;;;
   ret instance)%db.

Definition perform_destroy (request : Request) (instance : CulturalEntry.t) : M unit :=
  (* Soft delete *)
  let instance := CulturalEntry.set_is_active false instance in
  (instance <- CulturalEntry_save instance ;;
   ip_address <- lift (call_get_client_ip []) ;;
   ActivityLogService.log_activity (user request) "delete"
     ("Deleted entry: " ++ CulturalEntry.isiZulu_text instance) ip_address)%db.

Definition is_authenticated (request : Request) : bool :=
  match user request with Some _ => true | None => false end.

Definition current_tables : M Tables := fun c => (Ok (tables c), c).

(** The [list] and [retrieve] actions of the model viewset. *)
Definition list_ (request : Request) : M Response :=
  (queryset <- get_queryset ;;
   queryset <- lift (filter_queryset request queryset) ;;
   match paginate_queryset request queryset with
   | Some page =>
       ret (get_paginated_response (List.length queryset)
              (map CulturalEntrySerializer.CulturalEntryList_representation page))
   | None =>
       ret (mkResponse 200 (JArr (map CulturalEntrySerializer.CulturalEntryList_representation queryset)))
   end)%db.

Definition retrieve (request : Request) (pk : Z) : M Response :=
  (instance <- get_object request pk ;;
   t <- current_tables ;;
   ret (mkResponse 200 (CulturalEntrySerializer.CulturalEntry_representation t instance)))%db.

Definition create (request : Request) : M Response :=
  (validated_data <- lift (CulturalEntrySerializer.run_validation false (data request)) ;;
   instance <- perform_create request validated_data ;;
   t <- current_tables ;;
   ret (mkResponse 201 (CulturalEntrySerializer.CulturalEntry_representation t instance)))%db.

Definition update (request : Request) (pk : Z) (partial : bool) : M Response :=
  (instance <- get_object request pk ;;
   validated_data <- lift (CulturalEntrySerializer.run_validation partial (data request)) ;;
   instance <- perform_update request instance validated_data ;;
   t <- current_tables ;;
   ret (mkResponse 200 (CulturalEntrySerializer.CulturalEntry_representation t instance)))%db.

Definition destroy (request : Request) (pk : Z) : M Response :=
  (instance <- get_object request pk ;;
   perform_destroy request instance ;;;
   ret (mkResponse 204 JNull))%db.

(** The [search] action. *)
Definition search (request : Request) : M Response :=
  let query := match dict_get "q" (GET request) with Some q => q | None => "" end in
  let filters : SearchService.filters_dict :=
    [("part_of_speech", dict_get "part_of_speech" (GET request));
     ("genre", dict_get "genre" (GET request));
     ("language", dict_get "language" (GET request));
     ("query", Some query)] in
  try_except
    (results <- SearchService.search_entries query (Some filters) ;;
     match paginate_queryset request results with
     | Some page =>
         ret (get_paginated_response (List.length results)
                (map CulturalEntrySerializer.CulturalEntryList_representation page))
     | None =>
         let serializer_data := map CulturalEntrySerializer.CulturalEntryList_representation results in
         (* Log search activity *)
         ip_address <- lift (call_get_client_ip [request]) ;;
         ActivityLogService.log_activity (if is_authenticated request then user request else None)
           "search" ("Searched for: " ++ query) ip_address ;;;
         ret (mkResponse 200 (JArr serializer_data))
     end)%db
    (fun _ => ret (mkResponse 500 (JObj [("error", JStr "Search failed")]))).

(** The [import_data] action. *)
Definition import_data (request : Request) : M Response :=
  match data request with
  | JArr json_data =>
      try_except
        (imported_count <- DataImportService.import_from_json json_data (user request) ;;
         ret (mkResponse 200
                (JObj [("message",
                        JStr ("Successfully imported " ++ str_of_Z imported_count
                              ++ " entries"));
                       ("imported_count", JNum imported_count)])))%db
        (fun _ => ret (mkResponse 500 (JObj [("error", JStr "Import failed")])))
  | _ => ret (mkResponse 400 (JObj [("error", JStr "Data must be a list of entries")]))
  end.

(** The [export_data] action.  The queryset is lazy: it is read when the
    response is built, after the activity has been logged. *)
Definition export_data (request : Request) : M Response :=
  (ip_address <- lift (call_get_client_ip [request]) ;;
   ActivityLogService.log_activity (if is_authenticated request then user request else None)
     "export" "Exported corpus data" ip_address ;;;
   entries <- get_queryset ;;
   t <- current_tables ;;
   ret (mkResponse 200 (JArr (map (CulturalEntrySerializer.CulturalEntry_representation t) entries))))%db.

End CulturalEntryViewSet.

(** *** The public API *)

Inductive action : Type :=
| List
| Retrieve (pk : Z)
| Create
| Update (pk : Z)
| PartialUpdate (pk : Z)
| Destroy (pk : Z)
| Search
| ImportData
| ExportData.

Definition is_safe (a : action) : bool :=
  match a with
  | List | Retrieve _ | Search | ExportData => true
  | _ => false
  end.

Definition view (a : action) (request : Request) : M Response :=
  match a with
  | List => CulturalEntryViewSet.list_ request
  | Retrieve pk => CulturalEntryViewSet.retrieve request pk
  | Create => CulturalEntryViewSet.create request
  | Update pk => CulturalEntryViewSet.update request pk false
  | PartialUpdate pk => CulturalEntryViewSet.update request pk true
  | Destroy pk => CulturalEntryViewSet.destroy request pk
  | Search => CulturalEntryViewSet.search request
  | ImportData => CulturalEntryViewSet.import_data request
  | ExportData => CulturalEntryViewSet.export_data request
  end.

(** A request through the API: the permission check
    ([IsAuthenticatedOrReadOnly], [IsAuthenticated] for the import), the
    action, and the answer to an exception that leaves it. *)
Definition dispatch (a : action) (request : Request) (c : Conn) : Response * Conn :=
  if (is_safe a || CulturalEntryViewSet.is_authenticated request)%bool then
    match view a request c with
    | (Ok response, c') => (response, c')
    | (Raise Http404, c') => (mkResponse 404 JNull, c')
    | (Raise ValidationError, c') => (mkResponse 400 JNull, c')
    | (Raise _, c') => (mkResponse 500 JNull, c')
    end
  else (mkResponse 403 JNull, c).

(** ** analytics/services.py *)

Module AnalyticsService.

(** [re.findall(r'\b\w+\b', s)]: a match starts where a word character
    follows a boundary and runs to the next boundary, so the matches are
    the maximal runs of word characters, from left to right. *)
Definition findall_words (s : string) : list string :=
  filter non_empty (fields_of (fun c => negb (is_word c)) s).

(** [counts[w] += 1]; a new key goes to the end of the dict. *)
Fixpoint count_word (w : string) (counts : list (string * nat)) : list (string * nat) :=
  match counts with
  | [] => [(w, 1%nat)]
  | (k, n) :: counts' =>
      if String.eqb k w then (k, S n) :: counts'
      else (k, n) :: count_word w counts'
  end.

(** [Counter(words)], its items in the order the keys were first seen. *)
Definition Counter (words : list string) : list (string * nat) :=
  fold_left (fun counts w => count_word w counts) words [].

(** [counter.most_common(n)]: the first [n] of the items sorted by
    decreasing count, the sort being stable; none for [n <= 0]. *)
Definition most_common (n : Z) (counts : list (string * nat)) : list (string * nat) :=
  firstn (Z.to_nat n) (sort_by (fun a b => (snd b <? snd a)%nat) counts).

(** The result is the ordered mapping [dict(word_freq.most_common(limit))],
    given by its items. *)
Definition get_word_frequency (limit : Z) : M (list (string * nat)) :=
  (entries <- objects_filter (Qf (is_active_ true)) ;;
   let all_text := String.concat " " (map CulturalEntry.isiZulu_text entries) in
   let words := findall_words (lower all_text) in
   let word_freq := Counter words in
   ret (most_common limit word_freq))%db.

(** [get_corpus_statistics]: the aggregates over the active rows, then the
    word counts over the queryset [entries]. *)
Definition get_corpus_statistics : M (list (string * stat)) :=
  (rows <- objects_filter (Qf (is_active_ true)) ;;
   let genre_is (g : string) (e : CulturalEntry.t) := String.eqb (CulturalEntry.genre e) g in
   let total_entries := Z.of_nat (List.length rows) in
   let stats :=
     [("total_entries", SInt total_entries);
      ("total_proverbs", Count_filter (genre_is "proverb") rows);
      ("total_idioms", Count_filter (genre_is "idiom") rows);
      ("total_narratives", Count_filter (genre_is "narrative") rows);
      ("total_songs", Count_filter (genre_is "song") rows);
      ("avg_frequency", Avg CulturalEntry.frequency rows);
      ("max_frequency", Max CulturalEntry.frequency rows)] in
   entries <- objects_filter (Qf (is_active_ true)) ;;
   let total_words :=
     fold_right Z.add 0
       (map (fun entry =>
               Z.of_nat (List.length (split_whitespace (CulturalEntry.isiZulu_text entry))))
            entries) in
   let unique_words :=
     Z.of_nat (List.length
                 (nodup string_dec
                    (flat_map (fun entry =>
                                 split_whitespace (lower (CulturalEntry.isiZulu_text entry)))
                              entries))) in
   ret (stats ++ [("total_words", SInt total_words);
                  ("unique_words", SInt unique_words);
                  ("average_word_length",
                   SQuotient total_words (Z.max total_entries 1))])%list)%db.

(** [ActivityLog.objects.filter(...).count()]. *)
Definition count_logs (p : ActivityLog.t -> bool) : M Z :=
  fun c => (Ok (Z.of_nat (List.length (filter p (activity_logs (tables c))))), c).

Definition get_usage_statistics : M (list (string * Z)) :=
  (recent_activities <-
     count_logs (fun l => existsb (String.eqb (ActivityLog.action l)) ["search"; "view"]) ;;
   total_searches <- count_logs (fun l => String.eqb (ActivityLog.action l) "search") ;;
   total_views <- count_logs (fun l => String.eqb (ActivityLog.action l) "view") ;;
   ret [("recent_activities", recent_activities);
        ("total_searches", total_searches);
        ("total_views", total_views)])%db.

End AnalyticsService.

(** ** Notions used in the statements *)

Definition entry_ids (t : Tables) : list Z :=
  map CulturalEntry.id (cultural_entries t).

(** The primary key of [cultural_entries] identifies a row. *)
Definition ids_unique (t : Tables) : Prop := NoDup (entry_ids t).

Definition empty_tables : Tables := mkTables [] [] [] [] [].

(** A fresh database on a connection with the given fault schedule. *)
Definition fresh (faults : list bool) : Conn :=
  mkConn empty_tables 1 1 1 1 0 faults false false.

(** A query that carries [is_active=True] in a conjunction only yields
    active rows. *)
Fixpoint requires_active (q : Q) : bool :=
  match q with
  | Qf (is_active_ true) => true
  | Qf _ => false
  | Qand a b => (requires_active a || requires_active b)%bool
  | Qor a b => (requires_active a && requires_active b)%bool
  end.

(** The condition [search_entries] hands to the manager. *)
Definition search_condition (query : string) (filters : option SearchService.filters_dict)
  : result Q :=
  let search_query := Qf (is_active_ true) in
  let search_query :=
    if truthy (Some query) then search_query &&& SearchService.text_query query
    else search_query in
  match filters with
  | Some ((_ :: _) as filters) => SearchService._apply_filters search_query filters
  | _ => Ok search_query
  end.

(** The rows a condition selects, before any counter is touched. *)
Definition matches (q : Q) (t : Tables) : list CulturalEntry.t :=
  order_entries (distinct (where_ q t)).

Definition incremented (e : CulturalEntry.t) : CulturalEntry.t :=
  CulturalEntry.set_frequency (CulturalEntry.frequency e + 1) e.

(** The keys of the entries an API response lists. *)
Definition item_id (item : json) : option Z :=
  match item with
  | JObj d => match dict_get "id" d with
              | Some (JNum n) => Some n
              | _ => None
              end
  | _ => None
  end.

Definition response_items (r : Response) : list json :=
  match body r with
  | JArr l => l
  | JObj d => match dict_get "results" d with
              | Some (JArr l) => l
              | _ => []
              end
  | _ => []
  end.

Definition response_ids (r : Response) : list Z :=
  flat_map (fun item => match item_id item with
                        | Some n => [n]
                        | None => []
                        end)
           (response_items r).

(** The arguments the [search] action passes to the service. *)
Definition request_query (request : Request) : string :=
  match dict_get "q" (GET request) with Some q => q | None => "" end.

Definition request_filters (request : Request) : SearchService.filters_dict :=
  [("part_of_speech", dict_get "part_of_speech" (GET request));
   ("genre", dict_get "genre" (GET request));
   ("language", dict_get "language" (GET request));
   ("query", Some (request_query request))].

(** *** Sample data *)

Definition ubuntu : CulturalEntry.t :=
  CulturalEntry.mk 1 "Ubuntu" "Humanity, human kindness" "noun" "cultural"
                   "Philosophical concept" "Traditional philosophy" 0 true 0 0.

Definition indlela : CulturalEntry.t :=
  CulturalEntry.mk 2 "Indlela ibuzwa kwabaphambili"
                   "The way is asked from those who have gone before"
                   "proverb" "proverb" "Learning from elders" "Traditional proverb"
                   5 true 1 1.

(** An entry with two usage examples that both contain the word
    searched for. *)
Definition two_examples : Tables :=
  mkTables [ubuntu; indlela]
           [UsageExample.mk 1 1 "Ubuntu ngumuntu ngabantu"
                            "A person is a person through other people" 2 2;
            UsageExample.mk 2 1 "Umuntu unobuntu" "The person has ubuntu" 3 3]
           [] [] [].

Definition conn_of (t : Tables) (faults : list bool) : Conn :=
  mkConn t 3 3 1 1 4 faults false false.

(** Is the row [e] among those the condition selects in [t]? *)
Definition hit (q : Q) (t : Tables) (e : CulturalEntry.t) : bool :=
  existsb (fun r => CulturalEntry.id r =? CulturalEntry.id e) (where_ q t).

Definition add_frequency (n : Z) (e : CulturalEntry.t) : CulturalEntry.t :=
  CulturalEntry.set_frequency (CulturalEntry.frequency e + n) e.

(** The same search, [n] times in a row. *)
Fixpoint search_times (n : nat) (query : string)
         (filters : option SearchService.filters_dict) : M unit :=
  match n with
  | O => ret tt
  | S n' => bind (SearchService.search_entries query filters)
                 (fun _ => search_times n' query filters)
  end.

Definition fault_free (c : Conn) : Prop := Forall (fun b => b = false) (faults c).

(** No row of [t] has lost on its counter in [t']. *)
Definition frequencies_kept (t t' : Tables) : Prop :=
  forall e, In e (cultural_entries t) ->
            exists e', In e' (cultural_entries t')
                       /\ CulturalEntry.id e' = CulturalEntry.id e
                       /\ CulturalEntry.frequency e <= CulturalEntry.frequency e'.

(** The counter of a selected row goes up by [n]; other rows stay. *)
Definition bump (q : Q) (t : Tables) (n : Z) (e : CulturalEntry.t) : CulturalEntry.t :=
  if hit q t e then add_frequency n e else e.

(** A computation keeps a relation between the tables it starts from and
    the tables it leaves, whatever its outcome. *)
Definition keeps (R : Tables -> Tables -> Prop) {A} (m : M A) : Prop :=
  forall c r c', m c = (r, c') -> R (tables c) (tables c').

(** Every row of [t] is still there in [t'], under its key, with a counter
    that is no lower, and inactive if it was inactive. *)
Definition rows_kept (t t' : Tables) : Prop :=
  forall e, In e (cultural_entries t) ->
            exists e', In e' (cultural_entries t')
                       /\ CulturalEntry.id e' = CulturalEntry.id e
                       /\ CulturalEntry.frequency e <= CulturalEntry.frequency e'
                       /\ (CulturalEntry.is_active e = false ->
                           CulturalEntry.is_active e' = false).

(** What every request of the API maintains: keys stay unique, and the rows
    are kept. *)
Definition maintained (t t' : Tables) : Prop :=
  ids_unique t -> ids_unique t' /\ rows_kept t t'.

(** The columns a request can write: the writable fields of the serializer
    without the two nested collections. *)
Definition scalar_fields : list string :=
  ["isiZulu_text"; "english_translation"; "part_of_speech"; "genre";
   "cultural_context"; "source"; "is_active"].

(** Every row with the key [pk] is inactive. *)
Definition hidden (pk : Z) (t : Tables) : Prop :=
  forall e, In e (cultural_entries t) -> CulturalEntry.id e = pk ->
            CulturalEntry.is_active e = false.

(** The row a soft delete writes for [instance] at time [t]. *)
Definition deactivated (t : Z) (instance : CulturalEntry.t) : CulturalEntry.t :=
  CulturalEntry.set_updated_at t (CulturalEntry.set_is_active false instance).

(** A sequence of requests, served one after the other. *)
Fixpoint serve (requests : list (action * Request)) (c : Conn) : Conn :=
  match requests with
  | [] => c
  | (a, request) :: rest => serve rest (snd (dispatch a request c))
  end.

(** *** Notions about import batches *)

(** The record has both required keys. *)
Definition accepted (entry_data : json) : bool :=
  match DataImportService.has_required_fields entry_data with
  | Ok b => b
  | Raise _ => false
  end.

Definition get_or (d : list (string * json)) (key : string) (default : json) : json :=
  match dict_get key d with Some x => x | None => default end.

(** The keyword arguments [import_from_json] creates the entry with. *)
Definition entry_kwargs (d : list (string * json)) : kwargs :=
  [("isiZulu_text", PJson (get_or d "isiZulu_text" JNull));
   ("english_translation", PJson (get_or d "english_translation" JNull));
   ("part_of_speech", PJson (get_or d "part_of_speech" (JStr "cultural")));
   ("genre", PJson (get_or d "genre" (JStr "cultural")));
   ("cultural_context", PJson (get_or d "cultural_context" (JStr EmptyString)));
   ("source", PJson (get_or d "source" (JStr EmptyString)))].

(** The row such a creation stores under key [pk] at time [t], when its
    values convert. *)
Definition row_of_record (d : list (string * json)) (pk t : Z) : result CulturalEntry.t :=
  and_then (text_value (Some (PJson (get_or d "isiZulu_text" JNull)))) (fun a =>
  and_then (text_value (Some (PJson (get_or d "english_translation" JNull)))) (fun b =>
  and_then (text_value (Some (PJson (get_or d "part_of_speech" (JStr "cultural"))))) (fun p =>
  and_then (text_value (Some (PJson (get_or d "genre" (JStr "cultural"))))) (fun g =>
  and_then (text_value (Some (PJson (get_or d "cultural_context" (JStr EmptyString))))) (fun cc =>
  and_then (text_value (Some (PJson (get_or d "source" (JStr EmptyString))))) (fun s =>
  Ok (CulturalEntry.mk pk a b p g cc s 0 true t t))))))).

(** The nested payloads of a record, as the import loops over them. *)
Definition examples_payload (entry_data : json) : result (list json) :=
  match entry_data with
  | JObj d => py_iter (get_or d "examples" (JArr []))
  | _ => Raise AttributeError
  end.

Definition translations_payload (entry_data : json) : result (list (string * json)) :=
  match entry_data with
  | JObj d => py_items (get_or d "additional_translations" (JObj []))
  | _ => Raise AttributeError
  end.

(** The record carries a usage example or an additional translation. *)
Definition carries_children (entry_data : json) : bool :=
  match examples_payload entry_data, translations_payload entry_data with
  | Ok (_ :: _), _ => true
  | _, Ok (_ :: _) => true
  | _, _ => false
  end.

(** The part of the fault schedule consumed between two states. *)
Definition drawn (c c' : Conn) : list bool :=
  firstn (List.length (faults c) - List.length (faults c')) (faults c).

(** ** corpus/management/commands/seed_data.py *)

Module seed_data.

Definition initial_data : list json :=
  [JObj [("isiZulu_text", JStr "Ubuntu");
         ("english_translation", JStr "Humanity, human kindness");
         ("part_of_speech", JStr "noun");
         ("genre", JStr "cultural");
         ("cultural_context",
          JStr "Philosophical concept emphasizing shared humanity and interconnectedness");
         ("source", JStr "Traditional philosophy");
         ("examples",
          JArr [JObj [("isizulu", JStr "Ubuntu ngumuntu ngabantu");
                      ("english", JStr "A person is a person through other people")]]);
         ("additional_translations",
          JObj [("isixhosa", JStr "Ubuntu"); ("sesotho", JStr "Botho")])];
   JObj [("isiZulu_text", JStr "Indlela ibuzwa kwabaphambili");
         ("english_translation",
          JStr "The way is asked from those who have gone before");
         ("part_of_speech", JStr "proverb");
         ("genre", JStr "proverb");
         ("cultural_context",
          JStr "Emphasizes learning from elders and experienced people");
         ("source", JStr "Traditional proverb");
         ("examples",
          JArr [JObj [("isizulu", JStr "Umuntu omusha kufanele azwe izinkulumo zabadala");
                      ("english",
                       JStr "A young person should listen to the elders' wisdom")]])]].

(** What the command writes to its output. *)
Inductive output : Type :=
| SUCCESS (message : string)
| ERROR (e : exn).

Definition handle : M output :=
  try_except
    (imported_count <- DataImportService.import_from_json initial_data None ;;
     ret (SUCCESS ("Successfully seeded " ++ str_of_Z imported_count ++ " entries")))%db
    (fun e => ret (ERROR e)).

End seed_data.

(** What the two loops over the nested payloads of a record come to: they
    end normally only when there is nothing to loop over. *)
Definition children_outcome (entry_data : json) : result bool :=
  match examples_payload entry_data with
  | Raise e => Raise e
  | Ok (JObj _ :: _) => Raise TypeError
  | Ok (_ :: _) => Raise AttributeError
  | Ok [] =>
      match translations_payload entry_data with
      | Raise e => Raise e
      | Ok (_ :: _) => Raise TypeError
      | Ok [] => Ok true
      end
  end.

(** The creation of the entry row of an accepted record, as one step. *)
Definition create_entry_row (d : list (string * json)) (c : Conn)
  : result CulturalEntry.t * Conn :=
  match row_of_record d (entry_seq c) (clock c) with
  | Raise e => (Raise e, mark_for_rollback_on_error c)
  | Ok row =>
      let c1 := snd (next_entry_id c) in
      if next_fault c then (Raise DatabaseError, mark_for_rollback_on_error (tick c1))
      else match insert_entry row c1 with
           | Ok t => (Ok row, with_tables t (tick c1))
           | Raise e => (Raise e, mark_for_rollback_on_error (tick c1))
           end
  end.

(** The row [row] is what the creation step stores for the record: the
    record's values, converted, with the defaults of the import. *)
Definition stored (row : CulturalEntry.t) (entry_data : json) : Prop :=
  exists d, entry_data = JObj d
            /\ row_of_record d (CulturalEntry.id row) (CulturalEntry.created_at row)
               = Ok row.

(** The sequences are ahead of the keys in the tables. *)
Definition sequences_fresh (c : Conn) : Prop :=
  (forall e, In e (cultural_entries (tables c)) -> CulturalEntry.id e < entry_seq c)
  /\ (forall l, In l (activity_logs (tables c)) -> ActivityLog.id l < log_seq c).

(** A record the import can store whole: a JSON object that either lacks
    a required key, or has values that convert and nothing nested to loop
    over. *)
Definition importable (entry_data : json) : Prop :=
  exists d, entry_data = JObj d
            /\ (accepted entry_data = true ->
                (forall pk t, is_ok (row_of_record d pk t) = true)
                /\ children_outcome entry_data = Ok true).

(** The state after [rows] have been stored one by one from [c]. *)
Definition after_rows (rows : list CulturalEntry.t) (c : Conn) : Conn :=
  mkConn (set_entries (cultural_entries (tables c) ++ rows) (tables c))
         (entry_seq c + Z.of_nat (List.length rows)) (example_seq c)
         (translation_seq c) (log_seq c)
         (clock c + Z.of_nat (List.length rows))
         (skipn (List.length rows) (faults c))
         (in_atomic_block c) (needs_rollback c).

(** Inside an atomic block, a computation consumes a prefix of the fault
    schedule, and a fault in that prefix leaves the transaction marked for
    rollback; a mark is never taken back. *)
Definition tracks {A} (m : M A) : Prop :=
  forall c r c1,
    in_atomic_block c = true -> m c = (r, c1) ->
    in_atomic_block c1 = true
    /\ (needs_rollback c = true -> needs_rollback c1 = true)
    /\ exists k, faults c1 = skipn k (faults c)
                 /\ (In true (firstn k (faults c)) -> needs_rollback c1 = true).

(** The log row [log_activity] writes on a connection in state [c]. *)
Definition log_row (c : Conn) (user : option Z) (action description : string)
           (ip_address : option string) : ActivityLog.t :=
  ActivityLog.mk (log_seq c) user action description ip_address (clock c) (clock c).

(** The tables of a batch that went through: the rows of its accepted
    records and the 'import' log row, on top of what was there. *)
Definition committed (json_data : list json) (user : option Z) (c : Conn)
           (r : result Z) (c' : Conn) : Prop :=
  exists rows log,
    r = Ok (Z.of_nat (List.length rows))
    /\ List.length rows = List.length (filter accepted json_data)
    /\ Forall2 stored rows (filter accepted json_data)
    /\ Forall (fun entry_data => children_outcome entry_data = Ok true)
              (filter accepted json_data)
    /\ ActivityLog.user log = user
    /\ ActivityLog.action log = "import"
    /\ ActivityLog.description log
       = "Imported " ++ str_of_Z (Z.of_nat (List.length rows)) ++ " entries from JSON"
    /\ tables c'
       = set_logs (activity_logs (tables c) ++ [log])
                  (set_entries (cultural_entries (tables c) ++ rows) (tables c)).

(** Two payloads for the import: a record with both required keys, and a
    record without [english_translation]. *)
Definition valid_record : json :=
  JObj [("isiZulu_text", JStr "Ubuntu"); ("english_translation", JStr "Humanity")].

Definition incomplete_record : json :=
  JObj [("isiZulu_text", JStr "Sawubona")].

Definition second_record : json :=
  JObj [("isiZulu_text", JStr "Sawubona"); ("english_translation", JStr "Hello");
        ("part_of_speech", JStr "greeting"); ("genre", JStr "greeting")].

(** An accepted record with empty required texts. *)
Definition empty_texts_record : json :=
  JObj [("isiZulu_text", JStr EmptyString); ("english_translation", JStr EmptyString)].

(** The payload of a create request with one usage example. *)
Definition create_payload : list (string * json) :=
  [("isiZulu_text", JStr "Ubuntu");
   ("english_translation", JStr "Humanity");
   ("part_of_speech", JStr "noun");
   ("genre", JStr "cultural");
   ("cultural_context", JStr "Philosophical concept");
   ("examples",
    JArr [JObj [("isiZulu_example", JStr "Ubuntu ngumuntu ngabantu");
                ("english_example", JStr "A person is a person through other people")]])].

(** *** Export, then import *)

(** The list the [export_data] action answers with. *)
Definition exported (request : Request) (c : Conn) : list json :=
  response_items (fst (dispatch ExportData request c)).

(** Equal text and metadata. *)
Definition same_content (e e' : CulturalEntry.t) : Prop :=
  CulturalEntry.isiZulu_text e = CulturalEntry.isiZulu_text e'
  /\ CulturalEntry.english_translation e = CulturalEntry.english_translation e'
  /\ CulturalEntry.part_of_speech e = CulturalEntry.part_of_speech e'
  /\ CulturalEntry.genre e = CulturalEntry.genre e'
  /\ CulturalEntry.cultural_context e = CulturalEntry.cultural_context e'
  /\ CulturalEntry.source e = CulturalEntry.source e'.

Definition example_texts (t : Tables) (e : CulturalEntry.t) : list (string * string) :=
  map (fun u => (UsageExample.isiZulu_example u, UsageExample.english_example u))
      (order_examples (examples_of t e)).

Definition translation_texts (t : Tables) (e : CulturalEntry.t) : list (string * string) :=
  map (fun a => (AdditionalTranslation.language a, AdditionalTranslation.translation a))
      (order_translations (translations_of t e)).

Definition active_entries (t : Tables) : list CulturalEntry.t :=
  order_entries (where_ (Qf (is_active_ true)) t).

(** The round trip, as the specification words it: the export of the [N]
    active entries of [c], imported into an empty store, gives [N] entries
    with the text, the metadata and the children of the originals. *)
Definition round_trips (request : Request) (c : Conn) : Prop :=
  let outcome := DataImportService.import_from_json (exported request c) None (fresh []) in
  let t' := tables (snd outcome) in
  fst outcome = Ok (Z.of_nat (List.length (active_entries (tables c))))
  /\ Forall2 (fun e e' => same_content e e'
                          /\ example_texts (tables c) e = example_texts t' e'
                          /\ translation_texts (tables c) e = translation_texts t' e')
             (active_entries (tables c)) (cultural_entries t').

(** A store with one active entry and no child rows. *)
Definition one_entry : Tables := mkTables [ubuntu] [] [] [] [].

(** *** Notions about the word counts *)

(** The words of the corpus, in the order in which the analytics service
    meets them. *)
Definition corpus_text (t : Tables) : string :=
  String.concat " " (map CulturalEntry.isiZulu_text (active_entries t)).

Definition corpus_words (t : Tables) : list string :=
  AnalyticsService.findall_words (lower (corpus_text t)).

(** The position at which [w] is first met in [words]. *)
Fixpoint first_index (w : string) (words : list string) : nat :=
  match words with
  | [] => O
  | x :: words' => if String.eqb x w then O else S (first_index w words')
  end.

(** [a] ranks before [b]: a greater count, or the same count and an
    earlier first occurrence. *)
Definition ranks_before (words : list string) (a b : string * nat) : Prop :=
  (snd b < snd a)%nat
  \/ (snd a = snd b /\ (first_index (fst a) words < first_index (fst b) words)%nat).

Fixpoint all_chars (p : ascii -> bool) (s : string) : bool :=
  match s with
  | EmptyString => true
  | String c s' => (p c && all_chars p s')%bool
  end.

(** The string made of the fields [fs] with the characters [seps] between
    them. *)
Fixpoint weave (fs : list string) (seps : list ascii) : string :=
  match fs, seps with
  | f :: fs', c :: seps' => f ++ String c (weave fs' seps')
  | f :: _, [] => f
  | [], _ => EmptyString
  end.

(** Following the specification's words: the tokens are the runs of
    alphanumeric characters. *)
Definition alphanumeric_runs (s : string) : list string :=
  filter non_empty (fields_of (fun c => negb (is_alnum c)) s).

Definition word_frequency_as_specified (limit : Z) (t : Tables) : list (string * nat) :=
  AnalyticsService.most_common limit
    (AnalyticsService.Counter (alphanumeric_runs (lower (corpus_text t)))).

(** A store whose one entry has an underscore in its text. *)
Definition underscore_entry : Tables :=
  mkTables [CulturalEntry.mk 1 "izwi_elisha" "new word" "noun" "cultural"
                             EmptyString EmptyString 0 true 0 0]
           [] [] [] [].

(** A corpus in which "Ubuntu" occurs three times and no other word more
    than twice. *)
Definition ubuntu_corpus : Tables :=
  mkTables [CulturalEntry.mk 1 "Umuntu ngumuntu ngabantu" "A person is a person"
                             "proverb" "proverb" EmptyString EmptyString 0 true 0 0;
            CulturalEntry.mk 2 "Ubuntu ngumuntu, UBUNTU!" "Humanity" "noun" "cultural"
                             EmptyString EmptyString 0 true 1 1;
            CulturalEntry.mk 3 "ubuntu abantu" "humanity, people" "noun" "cultural"
                             EmptyString EmptyString 0 true 2 2;
            CulturalEntry.mk 4 "Ubuntu ubuntu ubuntu" "deleted" "noun" "cultural"
                             EmptyString EmptyString 0 false 3 3]
           [] [] [] [].

(** What [Counter] holds for a list of words. *)
Record counted (ws : list string) (cs : list (string * nat)) : Prop := {
  counted_nodup : NoDup (map fst cs);
  counted_keys : forall x, In x (map fst cs) <-> In x ws;
  counted_count : forall x n, In (x, n) cs -> n = count_occ string_dec ws x;
  counted_order :
    StronglySorted (fun a b => (first_index a ws < first_index b ws)%nat) (map fst cs)
}.

(** [full] is the complete ranking of the words: every distinct word once,
    with the number of its occurrences, in rank order. *)
Definition ranked (words : list string) (full : list (string * nat)) : Prop :=
  NoDup (map fst full)
  /\ (forall w, In w (map fst full) <-> In w words)
  /\ (forall w n, In (w, n) full -> n = count_occ string_dec words w)
  /\ StronglySorted (ranks_before words) full.

(** *** Notions about what a search finds *)

(** The text of [e], or of one of its usage examples, contains [query],
    whatever the case of the letters. *)
Definition text_matches (query : string) (t : Tables) (e : CulturalEntry.t) : bool :=
  (icontains (CulturalEntry.isiZulu_text e) query
   || icontains (CulturalEntry.english_translation e) query
   || icontains (CulturalEntry.cultural_context e) query
   || existsb (fun u => icontains (UsageExample.isiZulu_example u) query
                        || icontains (UsageExample.english_example u) query)
              (examples_of t e))%bool.

(** What the filters of a search ask of an entry: a non-empty
    [part_of_speech] or [genre] is the entry's, and with the language
    'isizulu' or 'english' the text in that language contains the
    [query] of the filters. *)
Definition passes_filters (filters : option SearchService.filters_dict)
           (e : CulturalEntry.t) : Prop :=
  forall f, filters = Some f ->
    (forall v, SearchService.filters_get f "part_of_speech" = Some v -> v <> "" ->
               CulturalEntry.part_of_speech e = v)
    /\ (forall v, SearchService.filters_get f "genre" = Some v -> v <> "" ->
                  CulturalEntry.genre e = v)
    /\ (SearchService.filters_get f "language" = Some "isizulu" ->
        forall s, SearchService.filters_query f = Ok s ->
                  icontains (CulturalEntry.isiZulu_text e) s = true)
    /\ (SearchService.filters_get f "language" = Some "english" ->
        forall s, SearchService.filters_query f = Ok s ->
                  icontains (CulturalEntry.english_translation e) s = true).

(** *** Notions about the activity log *)

(** The log has only grown: its rows are still there, in place, and each
    new row carries one of the [actions]. *)
Definition log_grown (actions : list string) (t t' : Tables) : Prop :=
  exists rows,
    activity_logs t' = (activity_logs t ++ rows)%list
    /\ Forall (fun l => In (ActivityLog.action l) actions) rows.

(** The actions under which the API is seen to write to the log. *)
Definition logged_actions : list string := ["search"; "import"; "export"].

(** *** Notions about nested rows *)

(** The usage example [u] holds the texts of [item], an item of the
    [examples] of a validated payload. *)
Definition example_of_payload (item : json) (u : UsageExample.t) : Prop :=
  exists d,
    item = JObj d
    /\ text_value (option_map PJson (dict_get "isiZulu_example" d))
       = Ok (UsageExample.isiZulu_example u)
    /\ text_value (option_map PJson (dict_get "english_example" d))
       = Ok (UsageExample.english_example u).

(** The same for an item of the [additional_translations]. *)
Definition translation_of_payload (item : json) (a : AdditionalTranslation.t) : Prop :=
  exists d,
    item = JObj d
    /\ text_value (option_map PJson (dict_get "language" d))
       = Ok (AdditionalTranslation.language a)
    /\ text_value (option_map PJson (dict_get "translation" d))
       = Ok (AdditionalTranslation.translation a).

(** The list a nested field of [validated_data] holds; [default] when the
    field was not supplied. *)
Definition nested (field : string) (validated_data : list (string * json))
           (default : json) : json :=
  match dict_get field validated_data with Some v => v | None => default end.

(** The keyword arguments from which [create] makes the entry: the
    validated data without the two nested fields. *)
Definition entry_fields (validated_data : list (string * json)) : kwargs :=
  map (fun kv => (fst kv, PJson (snd kv)))
      (CulturalEntrySerializer.dict_remove "additional_translations"
         (CulturalEntrySerializer.dict_remove "examples" validated_data)).

(** Between [t] and [t'] only child rows of the entry [pk] have been
    added. *)
Definition children_added (pk : Z) (t t' : Tables) : Prop :=
  cultural_entries t' = cultural_entries t
  /\ collocations t' = collocations t
  /\ activity_logs t' = activity_logs t
  /\ exists examples translations,
       usage_examples t' = (usage_examples t ++ examples)%list
       /\ additional_translations t' = (additional_translations t ++ translations)%list
       /\ Forall (fun u => UsageExample.entry u = pk) examples
       /\ Forall (fun a => AdditionalTranslation.entry a = pk) translations.

(** A payload with two translations into the same language. *)
Definition twice_isixhosa : list (string * json) :=
  [("isiZulu_text", JStr "Ubuntu");
   ("english_translation", JStr "Humanity");
   ("part_of_speech", JStr "noun");
   ("genre", JStr "cultural");
   ("cultural_context", JStr "Philosophical concept");
   ("additional_translations",
    JArr [JObj [("language", JStr "isixhosa"); ("translation", JStr "Ubuntu")];
          JObj [("language", JStr "isixhosa"); ("translation", JStr "Ubuntu")]])].

(** The validated data of an update that rewrites the translation and
    replaces the usage examples. *)
Definition update_payload : list (string * json) :=
  [("english_translation", JStr "Humaneness");
   ("examples",
    JArr [JObj [("isiZulu_example", JStr "Umuntu ngumuntu ngabantu");
                ("english_example", JStr "A person is a person through people")]])].

(** *** Notions about the client address *)

(** The string holds no comma. *)
Definition comma_free (s : string) : Prop :=
  forallb (fun c => negb (is_comma c)) (list_ascii_of_string s) = true.

(** The request metadata of a client behind a proxy chain. *)
Definition proxied : Request :=
  mkRequest None [] [("HTTP_X_FORWARDED_FOR", "203.0.113.7, 10.0.0.1");
                     ("REMOTE_ADDR", "10.0.0.2")] JNull None.

(** *** Notions about statistics *)

(** The number of log rows with the given action. *)
Definition count_action (action : string) (logs : list ActivityLog.t) : Z :=
  Z.of_nat (List.length (filter (fun l => String.eqb (ActivityLog.action l) action) logs)).

(** The usage statistics of a log. *)
Definition usage_of (logs : list ActivityLog.t) : list (string * Z) :=
  [("recent_activities", count_action "search" logs + count_action "view" logs);
   ("total_searches", count_action "search" logs);
   ("total_views", count_action "view" logs)].

(** The filters of a search for nouns, as the [search] action builds them. *)
Definition noun_filters : SearchService.filters_dict :=
  [("part_of_speech", Some "noun"); ("genre", None); ("language", None);
   ("query", Some "ubuntu")].

(** The rows that count as the corpus: the active ones. *)
Definition active_rows (t : Tables) : list CulturalEntry.t :=
  filter CulturalEntry.is_active (cultural_entries t).

(** [two_examples] with a third, soft-deleted entry. *)
Definition with_deleted_entry : Tables :=
  set_entries
    (cultural_entries two_examples ++
     [CulturalEntry.mk 3 "Isaga elidala" "An old proverb" "proverb" "proverb"
                       EmptyString EmptyString 7 false 5 6])
    two_examples.

(** * Properties *)

(** ** Sorting *)

Lemma insert_by_perm {A} (before : A -> A -> bool) (x : A) (l : list A) :
  Permutation (insert_by before x l) (x :: l).
Proof.
  induction l as [|y l IH]; simpl.
  - apply Permutation_refl.
  - destruct (before y x).
    + eapply perm_trans; [apply perm_skip, IH | apply perm_swap].
    + apply Permutation_refl.
Qed.

Lemma sort_by_perm {A} (before : A -> A -> bool) (l : list A) :
  Permutation (sort_by before l) l.
Proof.
  induction l as [|x l IH]; simpl.
  - constructor.
  - eapply perm_trans; [apply insert_by_perm | apply perm_skip, IH].
Qed.

Lemma sort_by_In {A} (before : A -> A -> bool) (l : list A) (x : A) :
  In x (sort_by before l) <-> In x l.
Proof.
  split; apply Permutation_in; [|apply Permutation_sym]; apply sort_by_perm.
Qed.

Lemma insert_by_map {A} (f : A -> A) (before : A -> A -> bool) :
  (forall a b, before (f a) (f b) = before a b) ->
  forall x l, insert_by before (f x) (map f l) = map f (insert_by before x l).
Proof.
  intros Hf x l. induction l as [|y l IH]; simpl; [reflexivity|].
  rewrite Hf. destruct (before y x); simpl; [now rewrite IH | reflexivity].
Qed.

Lemma sort_by_map {A} (f : A -> A) (before : A -> A -> bool) :
  (forall a b, before (f a) (f b) = before a b) ->
  forall l, sort_by before (map f l) = map f (sort_by before l).
Proof.
  intros Hf l. induction l as [|x l IH]; [reflexivity|].
  change (insert_by before (f x) (sort_by before (map f l))
          = map f (insert_by before x (sort_by before l))).
  rewrite IH. now apply insert_by_map.
Qed.

(** ** The query *)

Lemma joined_rows_In q t e x :
  In (e, x) (joined_rows q t) -> In e (cultural_entries t).
Proof.
  unfold joined_rows. rewrite in_flat_map. intros [e' [He' Hin]].
  destruct (spans_examples q).
  - destruct (examples_of t e') as [|u us].
    + destruct Hin as [Heq|[]]. now inversion Heq; subst.
    + apply in_map_iff in Hin. destruct Hin as [u' [Heq _]].
      now inversion Heq; subst.
  - destruct Hin as [Heq|[]]. now inversion Heq; subst.
Qed.

Lemma where_In q t e :
  In e (where_ q t) -> In e (cultural_entries t).
Proof.
  unfold where_. rewrite in_map_iff. intros [[e' x] [Heq Hin]].
  simpl in Heq. subst e'. apply filter_In in Hin.
  now apply joined_rows_In with (q := q) (x := x).
Qed.

Lemma requires_active_sound q e x :
  requires_active q = true -> eval_Q q e x = true -> CulturalEntry.is_active e = true.
Proof.
  induction q as [l|a IHa b IHb|a IHa b IHb]; simpl.
  - destruct l as [[|]| | | | | | |]; try discriminate.
    intros _ H. now apply Bool.eqb_prop in H.
  - intros Hr He. apply andb_prop in He. destruct He as [Ha Hb].
    apply orb_prop in Hr. destruct Hr; auto.
  - intros Hr He. apply andb_prop in Hr. destruct Hr as [Ha Hb].
    apply orb_prop in He. destruct He; auto.
Qed.

Lemma where_active q t e :
  requires_active q = true -> In e (where_ q t) -> CulturalEntry.is_active e = true.
Proof.
  intros Hr. unfold where_. rewrite in_map_iff. intros [[e' x] [Heq Hin]].
  simpl in Heq. subst e'. apply filter_In in Hin. destruct Hin as [_ Hev].
  now apply requires_active_sound with (q := q) (x := x).
Qed.

(** ** Keys *)

Lemma NoDup_map_on {A B} (f : A -> B) (l : list A) :
  NoDup l ->
  (forall x y, In x l -> In y l -> f x = f y -> x = y) ->
  NoDup (map f l).
Proof.
  induction 1 as [|x l Hx Hl IH]; intros Hinj; simpl; constructor.
  - rewrite in_map_iff. intros [y [Hxy Hy]].
    assert (y = x) by (apply Hinj; simpl; auto).
    subst y. contradiction.
  - apply IH. intros a b Ha Hb. apply Hinj; simpl; auto.
Qed.

Lemma NoDup_map_inj_on {A B} (f : A -> B) (l : list A) :
  NoDup (map f l) ->
  forall x y, In x l -> In y l -> f x = f y -> x = y.
Proof.
  induction l as [|a l IH]; simpl; intros Hnd x y Hx Hy Hf; [contradiction|].
  inversion Hnd as [|? ? Hna Hnd']; subst.
  destruct Hx as [->|Hx], Hy as [->|Hy]; auto.
  - exfalso. apply Hna. rewrite Hf. now apply in_map.
  - exfalso. apply Hna. rewrite <- Hf. now apply in_map.
Qed.

Lemma ids_unique_inj t x y :
  ids_unique t -> In x (cultural_entries t) -> In y (cultural_entries t) ->
  CulturalEntry.id x = CulturalEntry.id y -> x = y.
Proof. intros H. now apply NoDup_map_inj_on. Qed.

Lemma matches_In q t e : In e (matches q t) <-> In e (where_ q t).
Proof.
  unfold matches, order_entries, distinct.
  rewrite sort_by_In. apply nodup_In.
Qed.

Lemma matches_NoDup_ids q t :
  ids_unique t -> NoDup (map CulturalEntry.id (matches q t)).
Proof.
  intros Hu. unfold matches, order_entries.
  eapply Permutation_NoDup.
  - apply Permutation_map, Permutation_sym, sort_by_perm.
  - apply NoDup_map_on; [apply NoDup_nodup|].
    intros x y Hx Hy. apply nodup_In in Hx, Hy.
    apply (ids_unique_inj t); eauto using where_In.
Qed.

Lemma incremented_id e : CulturalEntry.id (incremented e) = CulturalEntry.id e.
Proof. reflexivity. Qed.

Lemma map_id_incremented l :
  map CulturalEntry.id (map incremented l) = map CulturalEntry.id l.
Proof. rewrite map_map. apply map_ext. intros; apply incremented_id. Qed.

(** ** What [search_entries] does *)

Lemma search_entries_eq query filters c :
  SearchService.search_entries query filters c =
  match search_condition query filters with
  | Raise e => (Raise e, c)
  | Ok q =>
      let results := map incremented (matches q (tables c)) in
      match results with
      | [] => (Ok [], c)
      | _ =>
          if next_fault c
          then (Raise DatabaseError, mark_for_rollback_on_error (tick c))
          else (Ok results,
                with_tables (set_entries (map (frequency_case results)
                                              (cultural_entries (tables c)))
                                         (tables c))
                            (tick c))
      end
  end.
Proof.
  unfold SearchService.search_entries, search_condition, try_except, bind, lift.
  match goal with
  | |- context [match ?f with Some _ => _ | None => _ end] => idtac
  | _ => idtac
  end.
  set (base := if truthy (Some query) then _ else _).
  destruct (match filters with
            | Some ((_ :: _) as f) => SearchService._apply_filters base f
            | _ => Ok base
            end) as [q|e] eqn:Hq.
  - unfold objects_filter_distinct, SearchService._update_frequencies, bind, ret.
    fold (matches q (tables c)). fold incremented.
    destruct (map incremented (matches q (tables c))) as [|r rs] eqn:Hr.
    + reflexivity.
    + unfold objects_bulk_update_frequency, execute.
      destruct (next_fault c); reflexivity.
  - reflexivity.
Qed.

(** ** Responses *)

Lemma response_ids_list l :
  response_ids (mkResponse 200
                  (JArr (map CulturalEntrySerializer.CulturalEntryList_representation l)))
  = map CulturalEntry.id l.
Proof.
  unfold response_ids, response_items. simpl.
  induction l as [|e l IH]; simpl; [reflexivity | now rewrite IH].
Qed.

Lemma response_ids_paginated n l :
  response_ids (get_paginated_response n
                  (map CulturalEntrySerializer.CulturalEntryList_representation l))
  = map CulturalEntry.id l.
Proof.
  unfold response_ids, response_items. simpl.
  induction l as [|e l IH]; simpl; [reflexivity | now rewrite IH].
Qed.

Lemma response_ids_full t l :
  response_ids (mkResponse 200
                  (JArr (map (CulturalEntrySerializer.CulturalEntry_representation t) l)))
  = map CulturalEntry.id l.
Proof.
  unfold response_ids, response_items. simpl.
  induction l as [|e l IH]; simpl; [reflexivity | now rewrite IH].
Qed.

Lemma In_firstn_incl {A} n (l : list A) x : In x (firstn n l) -> In x l.
Proof.
  revert n. induction l as [|y l IH]; intros [|n]; simpl; try tauto.
  intros [H|H]; eauto.
Qed.

Lemma In_skipn_incl {A} n (l : list A) x : In x (skipn n l) -> In x l.
Proof.
  revert n. induction l as [|y l IH]; intros [|n]; simpl; try tauto.
  intros H; eauto.
Qed.

Lemma NoDup_firstn_of {A} n (l : list A) : NoDup l -> NoDup (firstn n l).
Proof.
  intros H. revert n. induction H as [|x l Hx Hl IH]; intros [|n]; simpl;
    try constructor; auto.
  intros Hin. apply Hx. eapply In_firstn_incl; eauto.
Qed.

Lemma NoDup_skipn_of {A} n (l : list A) : NoDup l -> NoDup (skipn n l).
Proof.
  intros H. revert n. induction H as [|x l Hx Hl IH]; intros [|n]; simpl;
    try constructor; auto.
Qed.

Lemma page_NoDup {A B} (f : A -> B) request (l page : list A) :
  paginate_queryset request l = Some page ->
  NoDup (map f l) -> NoDup (map f page).
Proof.
  unfold paginate_queryset. destruct (pagination request) as [[offset limit]|];
    [|discriminate].
  intros H; inversion H; subst. intros Hnd.
  rewrite <- firstn_map, <- skipn_map.
  now apply NoDup_firstn_of, NoDup_skipn_of.
Qed.

Lemma page_incl {A} request (l page : list A) x :
  paginate_queryset request l = Some page -> In x page -> In x l.
Proof.
  unfold paginate_queryset. destruct (pagination request) as [[offset limit]|];
    [|discriminate].
  intros H; inversion H; subst. intros Hin.
  eapply In_skipn_incl, In_firstn_incl; eauto.
Qed.

(** ** The activity log *)

Lemma log_activity_ok user action description ip c :
  fst (ActivityLogService.log_activity user action description ip c) = Ok tt.
Proof.
  unfold ActivityLogService.log_activity, try_except, ActivityLog_objects_create,
    bind, next_log_id, now, execute, ret.
  simpl. destruct (next_fault _); simpl; [reflexivity|].
  destruct (insert_log _ _); reflexivity.
Qed.

Lemma authenticated_user request :
  (if CulturalEntryViewSet.is_authenticated request then user request else None)
  = user request.
Proof.
  unfold CulturalEntryViewSet.is_authenticated. now destruct (user request).
Qed.

(** ** The [search] action *)

Lemma search_view_eq request c :
  CulturalEntryViewSet.search request c =
  match SearchService.search_entries (request_query request)
          (Some (request_filters request)) c with
  | (Raise _, c1) => (Ok (mkResponse 500 (JObj [("error", JStr "Search failed")])), c1)
  | (Ok results, c1) =>
      match paginate_queryset request results with
      | Some page =>
          (Ok (get_paginated_response (List.length results)
                 (map CulturalEntrySerializer.CulturalEntryList_representation page)),
           c1)
      | None =>
          (Ok (mkResponse 200
                 (JArr (map CulturalEntrySerializer.CulturalEntryList_representation
                            results))),
           snd (ActivityLogService.log_activity (user request) "search"
                  ("Searched for: " ++ request_query request)
                  (CulturalEntryViewSet.get_client_ip request) c1))
      end
  end.
Proof.
  unfold CulturalEntryViewSet.search, try_except, bind.
  fold (request_query request). fold (request_filters request).
  destruct (SearchService.search_entries _ _ c) as [[results|e] c1]; [|reflexivity].
  destruct (paginate_queryset request results) as [page|]; [reflexivity|].
  unfold lift, CulturalEntryViewSet.call_get_client_ip.
  rewrite authenticated_user.
  pose proof (log_activity_ok (user request) "search"
                ("Searched for: " ++ request_query request)
                (CulturalEntryViewSet.get_client_ip request) c1) as Hlog.
  destruct (ActivityLogService.log_activity _ _ _ _ c1) as [r c2].
  simpl in Hlog. subst r. reflexivity.
Qed.

Lemma search_entries_results query filters c results c' :
  SearchService.search_entries query filters c = (Ok results, c') ->
  exists q, search_condition query filters = Ok q
            /\ results = map incremented (matches q (tables c)).
Proof.
  rewrite search_entries_eq.
  destruct (search_condition query filters) as [q|e]; [|discriminate].
  intros H. exists q. split; [reflexivity|].
  cbv zeta in H.
  destruct (map incremented (matches q (tables c))) as [|r rs] eqn:Hr.
  - now inversion H.
  - destruct (next_fault c); [discriminate|]. now inversion H.
Qed.

(** C8: for every query and filter combination the result set of a search
    holds no entry twice, at the API (the ids listed in the response of the
    [search] action) and at the service (the instances [search_entries]
    returns), however many usage examples of an entry match. *)
Theorem search_returns_no_duplicates :
  forall (request : Request) (c : Conn),
    ids_unique (tables c) ->
    NoDup (response_ids (fst (dispatch Search request c)))
    /\ (forall query filters results c',
           SearchService.search_entries query filters c = (Ok results, c') ->
           NoDup (map CulturalEntry.id results)).
Proof.
  intros request c Hu.
  assert (Hservice : forall query filters results c',
             SearchService.search_entries query filters c = (Ok results, c') ->
             NoDup (map CulturalEntry.id results)).
  { intros query filters results c' H.
    apply search_entries_results in H. destruct H as [q [_ ->]].
    rewrite map_id_incremented. now apply matches_NoDup_ids. }
  split; [|exact Hservice].
  unfold dispatch. simpl. rewrite search_view_eq.
  destruct (SearchService.search_entries _ _ c) as [[results|e] c1] eqn:Hs.
  - specialize (Hservice _ _ _ _ Hs).
    destruct (paginate_queryset request results) as [page|] eqn:Hp; simpl.
    + rewrite response_ids_paginated. eapply page_NoDup; eauto.
    + now rewrite response_ids_list.
  - simpl. constructor.
Qed.

Lemma search_returns_no_duplicates_witness :
  ids_unique two_examples
  /\ List.length (where_ (Qf (is_active_ true) &&& SearchService.text_query "ubuntu")
                         two_examples) = 2%nat
  /\ response_ids (fst (dispatch Search
                          (mkRequest None [("q", "ubuntu")] [] JNull None)
                          (conn_of two_examples []))) = [1]
  /\ NoDup (response_ids (fst (dispatch Search
                                 (mkRequest None [("q", "ubuntu")] [] JNull None)
                                 (conn_of two_examples [])))).
Proof.
  assert (Hu : ids_unique (tables (conn_of two_examples []))).
  { unfold ids_unique, entry_ids. simpl.
    repeat constructor; simpl; intuition discriminate. }
  split; [exact Hu|].
  split; [reflexivity|].
  split; [reflexivity|].
  exact (proj1 (search_returns_no_duplicates
                  (mkRequest None [("q", "ubuntu")] [] JNull None)
                  (conn_of two_examples []) Hu)).
Defined.

(** ** The frequency counters *)

Lemma hit_spec q t e :
  hit q t e = true <->
  exists r, In r (where_ q t) /\ CulturalEntry.id r = CulturalEntry.id e.
Proof.
  unfold hit. rewrite existsb_exists. split; intros [r [Hr Hid]]; exists r; split; auto.
  - now apply Z.eqb_eq.
  - now apply Z.eqb_eq.
Qed.

Lemma frequency_case_hit q t e :
  ids_unique t -> In e (cultural_entries t) ->
  frequency_case (map incremented (matches q t)) e
  = if hit q t e then add_frequency 1 e else e.
Proof.
  intros Hu He. unfold frequency_case.
  destruct (find _ _) as [o|] eqn:Hf.
  - apply find_some in Hf. destruct Hf as [Ho Hid].
    apply Z.eqb_eq in Hid. apply in_map_iff in Ho. destruct Ho as [r [<- Hr]].
    apply matches_In in Hr. rewrite incremented_id in Hid.
    assert (r = e) by (apply (ids_unique_inj t); eauto using where_In).
    subst r.
    replace (hit q t e) with true; [reflexivity|].
    symmetry. apply hit_spec. eauto.
  - destruct (hit q t e) eqn:Hh; [|reflexivity].
    apply hit_spec in Hh. destruct Hh as [r [Hr Hid]].
    assert (Hin : In (incremented r) (map incremented (matches q t)))
      by (apply in_map; now apply matches_In).
    pose proof (find_none _ _ Hf _ Hin) as Hne. cbv beta in Hne.
    change (CulturalEntry.id (incremented r)) with (CulturalEntry.id r) in Hne.
    apply Z.eqb_neq in Hne. contradiction.
Qed.

Lemma not_hit_when_empty q t e : matches q t = [] -> hit q t e = false.
Proof.
  intros Hm. destruct (hit q t e) eqn:Hh; [|reflexivity].
  apply hit_spec in Hh. destruct Hh as [r [Hr _]].
  apply matches_In in Hr. rewrite Hm in Hr. contradiction.
Qed.

(** One successful search, in full: the counters of the matched rows go up
    by one, nothing else changes in the table, and at most one statement
    reaches the database. *)
Lemma search_entries_effect query filters c results c' :
  ids_unique (tables c) ->
  SearchService.search_entries query filters c = (Ok results, c') ->
  exists q,
    search_condition query filters = Ok q
    /\ results = map incremented (matches q (tables c))
    /\ tables c' =
       set_entries (map (fun e => if hit q (tables c) e then add_frequency 1 e else e)
                        (cultural_entries (tables c)))
                   (tables c)
    /\ (c' = c \/ (faults c' = tl (faults c) /\ clock c' = clock c + 1)).
Proof.
  intros Hu. rewrite search_entries_eq.
  destruct (search_condition query filters) as [q|e]; [|discriminate].
  cbv zeta. intros H. exists q. split; [reflexivity|].
  destruct (map incremented (matches q (tables c))) as [|r rs] eqn:Hr.
  - inversion H; subst. split; [reflexivity|]. split; [|now left].
    apply map_eq_nil in Hr.
    replace (map _ (cultural_entries (tables c'))) with (cultural_entries (tables c')).
    + now destruct (tables c').
    + rewrite <- (map_id (cultural_entries (tables c'))) at 1.
      apply map_ext. intros e. now rewrite not_hit_when_empty.
  - destruct (next_fault c); [discriminate|]. inversion H; subst.
    split; [reflexivity|]. split; [|right; split; reflexivity].
    simpl. f_equal. apply map_ext_in. intros e He.
    rewrite <- Hr. now apply frequency_case_hit.
Qed.

Lemma eval_Q_frequency q n e x :
  eval_Q q (CulturalEntry.set_frequency n e) x = eval_Q q e x.
Proof.
  induction q as [l|a IHa b IHb|a IHa b IHb]; simpl.
  - destruct l; reflexivity.
  - now rewrite IHa, IHb.
  - now rewrite IHa, IHb.
Qed.

Lemma where_frequency_only q t f :
  (forall e, exists n, f e = CulturalEntry.set_frequency n e) ->
  where_ q (set_entries (map f (cultural_entries t)) t) = map f (where_ q t).
Proof.
  intros Hf. unfold where_, joined_rows, examples_of. simpl.
  induction (cultural_entries t) as [|e l IH]; simpl; [reflexivity|].
  rewrite !filter_app, !map_app, IH. f_equal.
  destruct (Hf e) as [n Hn]. rewrite Hn. simpl.
  destruct (spans_examples q).
  - destruct (filter _ (usage_examples t)) as [|u us]; simpl.
    + rewrite eval_Q_frequency. destruct (eval_Q q e None); simpl; now rewrite ?Hn.
    + rewrite eval_Q_frequency.
      assert (Hrest :
        map fst (filter (fun r => eval_Q q (fst r) (snd r))
                   (map (fun u0 => (CulturalEntry.set_frequency n e, Some u0)) us))
        = map f (map fst (filter (fun r => eval_Q q (fst r) (snd r))
                            (map (fun u0 => (e, Some u0)) us)))).
      { clear -Hn. induction us as [|v us IH]; simpl; [reflexivity|].
        rewrite eval_Q_frequency. destruct (eval_Q q e (Some v)); simpl.
        - now rewrite IH, Hn.
        - exact IH. }
      destruct (eval_Q q e (Some u)); simpl.
      * now rewrite Hrest, Hn.
      * exact Hrest.
  - simpl. rewrite eval_Q_frequency. destruct (eval_Q q e None); simpl; now rewrite ?Hn.
Qed.

Lemma bump_frequency_only q t n e :
  exists m, bump q t n e = CulturalEntry.set_frequency m e.
Proof.
  unfold bump. destruct (hit q t e).
  - eexists. reflexivity.
  - exists (CulturalEntry.frequency e). now destruct e.
Qed.

Lemma bump_id q t n e : CulturalEntry.id (bump q t n e) = CulturalEntry.id e.
Proof. unfold bump. now destruct (hit q t e). Qed.

Lemma existsb_over_map {A B} (f : A -> B) (p : B -> bool) (l : list A) :
  existsb p (map f l) = existsb (fun x => p (f x)) l.
Proof. induction l as [|x l IH]; simpl; [reflexivity | now rewrite IH]. Qed.

Lemma existsb_same {A} (p p' : A -> bool) (l : list A) :
  (forall x, p x = p' x) -> existsb p l = existsb p' l.
Proof.
  intros H. induction l as [|x l IH]; simpl; [reflexivity | now rewrite H, IH].
Qed.

Lemma hit_bump q t n e :
  hit q (set_entries (map (bump q t n) (cultural_entries t)) t) (bump q t n e)
  = hit q t e.
Proof.
  unfold hit at 1. rewrite where_frequency_only by apply bump_frequency_only.
  rewrite existsb_over_map. unfold hit. apply existsb_same. intros r.
  now rewrite !bump_id.
Qed.

Lemma ids_unique_bump q t n :
  ids_unique t -> ids_unique (set_entries (map (bump q t n) (cultural_entries t)) t).
Proof.
  unfold ids_unique, entry_ids. simpl. rewrite map_map.
  erewrite map_ext; [intros H; exact H|]. intros e. cbv beta. symmetry. apply bump_id.
Qed.

Lemma bump_bump q t n m e :
  bump q (set_entries (map (bump q t n) (cultural_entries t)) t) m (bump q t n e)
  = bump q t (n + m) e.
Proof.
  unfold bump at 1. rewrite hit_bump. unfold bump.
  destruct (hit q t e); [|reflexivity].
  unfold add_frequency, CulturalEntry.set_frequency. destruct e; simpl.
  f_equal; lia.
Qed.

Lemma bump_zero q t e : bump q t 0 e = e.
Proof.
  unfold bump, add_frequency, CulturalEntry.set_frequency.
  destruct (hit q t e); [|reflexivity].
  destruct e; simpl. f_equal; lia.
Qed.

Lemma set_entries_same t : set_entries (cultural_entries t) t = t.
Proof. now destruct t. Qed.

Lemma search_times_effect n :
  forall query filters c c' q,
    ids_unique (tables c) ->
    search_condition query filters = Ok q ->
    search_times n query filters c = (Ok tt, c') ->
    tables c' = set_entries (map (bump q (tables c) (Z.of_nat n))
                                 (cultural_entries (tables c)))
                            (tables c).
Proof.
  induction n as [|n IH]; intros query filters c c' q Hu Hq H.
  - simpl in H. inversion H; subst. simpl.
    erewrite map_ext; [|intros; apply bump_zero]. rewrite map_id.
    now rewrite set_entries_same.
  - simpl in H. unfold bind in H.
    destruct (SearchService.search_entries query filters c) as [[results|e] c1] eqn:Hs;
      [|discriminate].
    destruct (search_entries_effect _ _ _ _ _ Hu Hs) as [q' [Hq' [_ [Ht _]]]].
    rewrite Hq in Hq'. inversion Hq'; subst q'.
    fold (bump q (tables c) 1) in Ht.
    specialize (IH query filters c1 c' q).
    rewrite Ht in IH. specialize (IH (ids_unique_bump _ _ _ Hu) Hq H).
    rewrite IH. change (set_entries ?l (set_entries ?l' ?t)) with (set_entries l t).
    change (cultural_entries (set_entries ?l ?t)) with l.
    f_equal. rewrite map_map. apply map_ext. intros e.
    rewrite bump_bump. f_equal. lia.
Qed.

Lemma fault_free_tick c : fault_free c -> fault_free (tick c).
Proof.
  unfold fault_free. simpl. intros H. destruct (faults c); [constructor|].
  now inversion H.
Qed.

Lemma fault_free_next c : fault_free c -> next_fault c = false.
Proof.
  unfold fault_free, next_fault. destruct (faults c); [reflexivity|].
  intros H. now inversion H.
Qed.

Lemma search_times_runs n :
  forall query filters c q,
    fault_free c ->
    search_condition query filters = Ok q ->
    exists c', search_times n query filters c = (Ok tt, c') /\ fault_free c'.
Proof.
  induction n as [|n IH]; intros query filters c q Hff Hq.
  - exists c. split; [reflexivity | assumption].
  - simpl. unfold bind. rewrite search_entries_eq, Hq. cbv zeta.
    destruct (map incremented (matches q (tables c))) as [|r rs].
    + now apply IH with (q := q).
    + rewrite (fault_free_next c Hff).
      apply IH with (q := q); [|assumption].
      apply fault_free_tick in Hff. exact Hff.
Qed.

(** ** Relations every step of a computation keeps *)

Section Frame.

Variable R : Tables -> Tables -> Prop.
Hypothesis R_refl : forall t, R t t.
Hypothesis R_trans : forall a b c, R a b -> R b c -> R a c.

Lemma keeps_ret {A} (a : A) : keeps R (ret a).
Proof. intros c r c' H. inversion H; subst. apply R_refl. Qed.

Lemma keeps_raise {A} (e : exn) : keeps R (@raise A e).
Proof. intros c r c' H. inversion H; subst. apply R_refl. Qed.

Lemma keeps_lift {A} (x : result A) : keeps R (lift x).
Proof. intros c r c' H. inversion H; subst. apply R_refl. Qed.

Lemma tables_mark c : tables (mark_for_rollback_on_error c) = tables c.
Proof. unfold mark_for_rollback_on_error. now destruct (in_atomic_block c). Qed.

Lemma keeps_prepare {A} (x : result A) : keeps R (prepare x).
Proof.
  intros c r c' H. unfold prepare in H. destruct x; inversion H; subst.
  - apply R_refl.
  - rewrite tables_mark. apply R_refl.
Qed.

Lemma keeps_now : keeps R now.
Proof. intros c r c' H. inversion H; subst. apply R_refl. Qed.

Lemma keeps_current_tables : keeps R CulturalEntryViewSet.current_tables.
Proof. intros c r c' H. inversion H; subst. apply R_refl. Qed.

Lemma keeps_next_entry_id : keeps R next_entry_id.
Proof. intros c r c' H. inversion H; subst. apply R_refl. Qed.

Lemma keeps_next_example_id : keeps R next_example_id.
Proof. intros c r c' H. inversion H; subst. apply R_refl. Qed.

Lemma keeps_next_translation_id : keeps R next_translation_id.
Proof. intros c r c' H. inversion H; subst. apply R_refl. Qed.

Lemma keeps_next_log_id : keeps R next_log_id.
Proof. intros c r c' H. inversion H; subst. apply R_refl. Qed.

Lemma keeps_objects_filter q : keeps R (objects_filter q).
Proof. intros c r c' H. inversion H; subst. apply R_refl. Qed.

Lemma keeps_bind {A B} (m : M A) (k : A -> M B) :
  keeps R m -> (forall a, keeps R (k a)) -> keeps R (bind m k).
Proof.
  intros Hm Hk c r c' H. unfold bind in H.
  destruct (m c) as [[a|e] c1] eqn:Hmc.
  - eapply R_trans; [eapply Hm; eauto | eapply Hk; eauto].
  - inversion H; subst. eapply Hm; eauto.
Qed.

Lemma keeps_try_except {A} (m : M A) (h : exn -> M A) :
  keeps R m -> (forall e, keeps R (h e)) -> keeps R (try_except m h).
Proof.
  intros Hm Hh c r c' H. unfold try_except in H.
  destruct (m c) as [[a|e] c1] eqn:Hmc.
  - inversion H; subst. eapply Hm; eauto.
  - eapply R_trans; [eapply Hm; eauto | eapply Hh; eauto].
Qed.

Lemma keeps_for_each {A} (l : list A) (body : A -> M unit) :
  (forall x, keeps R (body x)) -> keeps R (for_each l body).
Proof.
  intros Hb. induction l as [|x l IH]; simpl.
  - apply keeps_ret.
  - apply keeps_bind; auto.
Qed.

Lemma keeps_execute (stmt : Conn -> result Tables) :
  (forall c t, stmt c = Ok t -> R (tables c) t) -> keeps R (execute stmt).
Proof.
  intros Hs c r c' H. unfold execute in H.
  destruct (next_fault c).
  - inversion H; subst. rewrite tables_mark. apply R_refl.
  - destruct (stmt c) as [t|e] eqn:Hst; inversion H; subst.
    + simpl. now apply Hs.
    + rewrite tables_mark. apply R_refl.
Qed.

Lemma keeps_atomic {A} (body : M A) : keeps R body -> keeps R (atomic body).
Proof.
  intros Hb c r c' H. unfold atomic in H.
  destruct (body (with_flags true false c)) as [[a|e] c1] eqn:Hbody.
  - destruct (needs_rollback c1).
    + inversion H; subst. apply R_refl.
    + destruct (next_fault c1); inversion H; subst.
      * apply R_refl.
      * apply Hb in Hbody. exact Hbody.
  - inversion H; subst. apply R_refl.
Qed.

Lemma keeps_pk_value v (next : M Z) : keeps R next -> keeps R (pk_value v next).
Proof.
  intros Hn. unfold pk_value.
  destruct v as [[j|e]|]; auto using keeps_prepare.
  destruct j; auto using keeps_prepare, keeps_ret.
Qed.

End Frame.

(** Decomposes a goal [keeps R m] along the structure of [m]. *)
Ltac frame Hrefl Htrans :=
  repeat (intros;
    match goal with
    | |- keeps _ (bind _ _) => apply (keeps_bind _ Htrans)
    | |- keeps _ (try_except _ _) => apply (keeps_try_except _ Htrans)
    | |- keeps _ (for_each _ _) => apply (keeps_for_each _ Hrefl Htrans)
    | |- keeps _ (atomic _) => apply (keeps_atomic _ Hrefl)
    | |- keeps _ (ret _) => apply (keeps_ret _ Hrefl)
    | |- keeps _ (raise _) => apply (keeps_raise _ Hrefl)
    | |- keeps _ (lift _) => apply (keeps_lift _ Hrefl)
    | |- keeps _ (prepare _) => apply (keeps_prepare _ Hrefl)
    | |- keeps _ now => apply (keeps_now _ Hrefl)
    | |- keeps _ CulturalEntryViewSet.current_tables =>
        apply (keeps_current_tables _ Hrefl)
    | |- keeps _ (objects_filter _) => apply (keeps_objects_filter _ Hrefl)
    | |- keeps _ (pk_value _ _) => apply (keeps_pk_value _ Hrefl)
    | |- keeps _ next_entry_id => apply (keeps_next_entry_id _ Hrefl)
    | |- keeps _ next_example_id => apply (keeps_next_example_id _ Hrefl)
    | |- keeps _ next_translation_id => apply (keeps_next_translation_id _ Hrefl)
    | |- keeps _ next_log_id => apply (keeps_next_log_id _ Hrefl)
    | |- keeps _ (match ?x with _ => _ end) => destruct x
    | |- keeps _ (if ?x then _ else _) => destruct x
    end).

(** ** Keys stay unique and counters do not go down *)

Lemma rows_kept_refl t : rows_kept t t.
Proof. intros e He. exists e. repeat split; auto. lia. Qed.

Lemma rows_kept_trans a b c : rows_kept a b -> rows_kept b c -> rows_kept a c.
Proof.
  intros Hab Hbc e He.
  destruct (Hab e He) as [e1 [He1 [Hid1 [Hf1 Ha1]]]].
  destruct (Hbc e1 He1) as [e2 [He2 [Hid2 [Hf2 Ha2]]]].
  exists e2. repeat split; auto; [congruence | lia].
Qed.

Lemma rows_kept_frequencies t t' : rows_kept t t' -> frequencies_kept t t'.
Proof.
  intros H e He. destruct (H e He) as [e' [He' [Hid [Hf _]]]].
  exists e'. auto.
Qed.

Lemma rows_kept_hidden pk t t' :
  ids_unique t' -> rows_kept t t' ->
  In pk (entry_ids t) -> hidden pk t -> hidden pk t'.
Proof.
  intros Hu Hk Hpk Hh r Hr Hid.
  apply in_map_iff in Hpk. destruct Hpk as [e [He Hin]].
  destruct (Hk e Hin) as [e' [He' [Hid' [_ Hact]]]].
  assert (r = e') by (apply (ids_unique_inj t'); auto; congruence).
  subst r. apply Hact. now apply Hh.
Qed.

Lemma maintained_refl t : maintained t t.
Proof. intros Hu. split; [assumption | apply rows_kept_refl]. Qed.

Lemma maintained_trans a b c : maintained a b -> maintained b c -> maintained a c.
Proof.
  intros Hab Hbc Hu. destruct (Hab Hu) as [Hub Hfb].
  destruct (Hbc Hub) as [Huc Hfc]. split; [assumption|].
  eapply rows_kept_trans; eauto.
Qed.

Lemma maintained_same_entries t t' :
  cultural_entries t' = cultural_entries t -> maintained t t'.
Proof.
  intros Heq Hu. split.
  - unfold ids_unique, entry_ids. now rewrite Heq.
  - intros e He. exists e. rewrite Heq. repeat split; auto. lia.
Qed.

Ltac maintain := frame maintained_refl maintained_trans.

Lemma maintained_insert_entry row c t :
  insert_entry row c = Ok t -> maintained (tables c) t.
Proof.
  unfold insert_entry. destruct (existsb _ _) eqn:Hex; [discriminate|].
  intros H; inversion H; subst. intros Hu. split.
  - unfold ids_unique, entry_ids in *. simpl. rewrite map_app. simpl.
    apply NoDup_app; [assumption | repeat constructor; simpl; tauto | ].
    intros k Hk [<-|[]]. apply in_map_iff in Hk. destruct Hk as [r [Hid Hr]].
    assert (Hcontra : existsb (fun r => CulturalEntry.id r =? CulturalEntry.id row)
                              (cultural_entries (tables c)) = true).
    { apply existsb_exists. exists r. split; [assumption | now apply Z.eqb_eq]. }
    congruence.
  - intros e He. exists e. simpl. rewrite in_app_iff. repeat split; auto. lia.
Qed.

Lemma keeps_CulturalEntry_objects_create kw :
  keeps maintained (CulturalEntry_objects_create kw).
Proof.
  unfold CulturalEntry_objects_create. maintain.
  apply (keeps_execute _ maintained_refl). intros; eapply maintained_insert_entry; eauto.
Qed.

Lemma keeps_UsageExample_objects_create kw :
  keeps maintained (UsageExample_objects_create kw).
Proof.
  unfold UsageExample_objects_create. maintain.
  apply (keeps_execute _ maintained_refl). intros c t.
  unfold insert_example. destruct (_ || _)%bool; [discriminate|].
  intros H; inversion H; subst. now apply maintained_same_entries.
Qed.

Lemma keeps_AdditionalTranslation_objects_create kw :
  keeps maintained (AdditionalTranslation_objects_create kw).
Proof.
  unfold AdditionalTranslation_objects_create. maintain.
  apply (keeps_execute _ maintained_refl). intros c t.
  unfold insert_translation. destruct (_ || _)%bool; [discriminate|].
  intros H; inversion H; subst. now apply maintained_same_entries.
Qed.

Lemma keeps_log_activity user action description ip :
  keeps maintained (ActivityLogService.log_activity user action description ip).
Proof.
  unfold ActivityLogService.log_activity, ActivityLog_objects_create. maintain.
  apply (keeps_execute _ maintained_refl). intros c t.
  unfold insert_log. destruct (existsb _ _); [discriminate|].
  intros H; inversion H; subst. now apply maintained_same_entries.
Qed.

Lemma keeps_delete_examples_of instance : keeps maintained (delete_examples_of instance).
Proof.
  apply (keeps_execute _ maintained_refl). intros c t H. inversion H; subst.
  now apply maintained_same_entries.
Qed.

Lemma keeps_delete_translations_of instance :
  keeps maintained (delete_translations_of instance).
Proof.
  apply (keeps_execute _ maintained_refl). intros c t H. inversion H; subst.
  now apply maintained_same_entries.
Qed.

Lemma keeps_create_examples entry l :
  keeps maintained (CulturalEntrySerializer.create_examples entry l).
Proof.
  unfold CulturalEntrySerializer.create_examples. maintain.
  apply keeps_UsageExample_objects_create.
Qed.

Lemma keeps_create_translations entry l :
  keeps maintained (CulturalEntrySerializer.create_translations entry l).
Proof.
  unfold CulturalEntrySerializer.create_translations. maintain.
  apply keeps_AdditionalTranslation_objects_create.
Qed.

Lemma keeps_serializer_create validated_data :
  keeps maintained (CulturalEntrySerializer.create validated_data).
Proof.
  unfold CulturalEntrySerializer.create. maintain;
    auto using keeps_CulturalEntry_objects_create, keeps_create_examples,
      keeps_create_translations.
Qed.

Lemma keeps_import_record entry_data :
  keeps maintained (DataImportService.import_record entry_data).
Proof.
  unfold DataImportService.import_record. maintain;
    auto using keeps_CulturalEntry_objects_create.
Qed.

Lemma keeps_import_loop json_data :
  forall n, keeps maintained (DataImportService.import_loop json_data n).
Proof.
  induction json_data as [|entry_data l IH]; intros n; simpl.
  - maintain.
  - maintain; auto using keeps_import_record.
Qed.

Lemma keeps_import_from_json json_data user :
  keeps maintained (DataImportService.import_from_json json_data user).
Proof.
  unfold DataImportService.import_from_json. maintain;
    auto using keeps_import_loop, keeps_log_activity.
Qed.

Lemma keeps_search_entries query filters :
  keeps maintained (SearchService.search_entries query filters).
Proof.
  intros c r c' H Hu. destruct r as [results|e].
  - destruct (search_entries_effect _ _ _ _ _ Hu H) as [q [_ [_ [Ht _]]]].
    rewrite Ht. fold (bump q (tables c) 1). split.
    + now apply ids_unique_bump.
    + intros e He. exists (bump q (tables c) 1 e). simpl. split.
      * now apply in_map.
      * split; [apply bump_id|].
        unfold bump, add_frequency.
        destruct (hit q (tables c) e); simpl; split; auto; lia.
  - rewrite search_entries_eq in H.
    destruct (search_condition query filters) as [q|e'].
    + cbv zeta in H.
      destruct (map incremented (matches q (tables c))); [discriminate|].
      destruct (next_fault c); [|discriminate].
      inversion H; subst. rewrite tables_mark. simpl.
      split; [assumption | apply rows_kept_refl].
    + inversion H; subst. split; [assumption | apply rows_kept_refl].
Qed.

Lemma keeps_search_view request : keeps maintained (CulturalEntryViewSet.search request).
Proof.
  unfold CulturalEntryViewSet.search. maintain;
    auto using keeps_search_entries, keeps_log_activity.
Qed.

Lemma keeps_import_data request :
  keeps maintained (CulturalEntryViewSet.import_data request).
Proof.
  unfold CulturalEntryViewSet.import_data. maintain;
    auto using keeps_import_from_json.
Qed.

Lemma keeps_export_data request :
  keeps maintained (CulturalEntryViewSet.export_data request).
Proof.
  unfold CulturalEntryViewSet.export_data, CulturalEntryViewSet.get_queryset.
  maintain; auto using keeps_log_activity.
Qed.

Lemma keeps_list request : keeps maintained (CulturalEntryViewSet.list_ request).
Proof.
  unfold CulturalEntryViewSet.list_, CulturalEntryViewSet.get_queryset. maintain.
Qed.

Lemma filter_incl_In {A} (p : A -> bool) l x : In x (filter p l) -> In x l.
Proof. intros H. now apply filter_In in H. Qed.

Lemma char_filter_incl GET param test qs qs' e :
  char_filter GET param test qs = Ok qs' -> In e qs' -> In e qs.
Proof.
  unfold char_filter. destruct (dict_get param GET) as [v|].
  - cbv zeta. destruct (has_null (strip v)); [discriminate|].
    destruct (non_empty (strip v)); intros H; inversion H; subst;
      eauto using filter_incl_In.
  - intros H; inversion H; subst; auto.
Qed.

Lemma choice_filter_incl GET param choices column qs qs' e :
  choice_filter GET param choices column qs = Ok qs' -> In e qs' -> In e qs.
Proof.
  unfold choice_filter. destruct (dict_get param GET) as [v|].
  - destruct (non_empty v).
    + destruct (dict_has v choices); intros H; inversion H; subst;
        eauto using filter_incl_In.
    + intros H; inversion H; subst; auto.
  - intros H; inversion H; subst; auto.
Qed.

Lemma number_filter_incl GET param test qs qs' e :
  number_filter GET param test qs = Ok qs' -> In e qs' -> In e qs.
Proof.
  unfold number_filter. destruct (dict_get param GET) as [v|].
  - destruct (non_empty v).
    + destruct (parse_Z v); intros H; inversion H; subst; eauto using filter_incl_In.
    + intros H; inversion H; subst; auto.
  - intros H; inversion H; subst; auto.
Qed.

Lemma CulturalEntryFilter_incl GET qs qs' e :
  CulturalEntryFilter GET qs = Ok qs' -> In e qs' -> In e qs.
Proof.
  unfold CulturalEntryFilter, and_then.
  repeat match goal with
         | |- context [match ?x with Ok _ => _ | Raise _ => _ end] =>
             let H := fresh "H" in
             destruct x eqn:H; [|discriminate]
         end.
  intros H6 Hin.
  eauto 10 using char_filter_incl, choice_filter_incl, number_filter_incl.
Qed.

Lemma SearchFilter_incl GET qs e : In e (SearchFilter GET qs) -> In e qs.
Proof.
  unfold SearchFilter. destruct (dict_get "search" GET); eauto using filter_incl_In.
Qed.

Lemma OrderingFilter_incl GET qs e : In e (OrderingFilter GET qs) -> In e qs.
Proof.
  unfold OrderingFilter. destruct (dict_get "ordering" GET) as [s|]; auto.
  induction (fields_of is_comma s) as [|term terms IH]; simpl; auto.
  destruct (ordering_key term); auto. rewrite sort_by_In. auto.
Qed.

Lemma filter_queryset_incl request qs qs' e :
  filter_queryset request qs = Ok qs' -> In e qs' -> In e qs.
Proof.
  unfold filter_queryset, and_then.
  destruct (CulturalEntryFilter (GET request) qs) as [qs1|] eqn:H1; [|discriminate].
  intros H; inversion H; subst. intros Hin.
  apply OrderingFilter_incl, SearchFilter_incl in Hin.
  eapply CulturalEntryFilter_incl; eauto.
Qed.

Lemma keeps_get_object request pk :
  keeps maintained (CulturalEntryViewSet.get_object request pk).
Proof.
  unfold CulturalEntryViewSet.get_object, CulturalEntryViewSet.get_queryset. maintain.
Qed.

Lemma keeps_retrieve request pk :
  keeps maintained (CulturalEntryViewSet.retrieve request pk).
Proof.
  unfold CulturalEntryViewSet.retrieve. maintain. apply keeps_get_object.
Qed.

Lemma keeps_create_view request : keeps maintained (CulturalEntryViewSet.create request).
Proof.
  unfold CulturalEntryViewSet.create, CulturalEntryViewSet.perform_create.
  maintain; auto using keeps_serializer_create, keeps_log_activity.
Qed.

(** *** Updates through the serializer *)

Lemma bind_from (R : Tables -> Tables -> Prop) {A B} (m : M A) (k : A -> M B) c r c' :
  (forall a b d, R a b -> R b d -> R a d) ->
  (forall r1 c1, m c = (r1, c1) -> R (tables c) (tables c1)) ->
  (forall a c1, m c = (Ok a, c1) -> forall r2 c2, k a c1 = (r2, c2) ->
                R (tables c1) (tables c2)) ->
  bind m k c = (r, c') -> R (tables c) (tables c').
Proof.
  intros Htrans Hm Hk H. unfold bind in H.
  destruct (m c) as [[a|e] c1] eqn:Hmc.
  - eapply Htrans; [eapply Hm; eauto | eapply Hk; eauto].
  - inversion H; subst. eapply Hm; eauto.
Qed.

Lemma get_object_found request pk c r c' :
  CulturalEntryViewSet.get_object request pk c = (r, c') ->
  c' = c /\ forall instance, r = Ok instance ->
            In instance (cultural_entries (tables c))
            /\ CulturalEntry.id instance = pk
            /\ CulturalEntry.is_active instance = true.
Proof.
  unfold CulturalEntryViewSet.get_object, CulturalEntryViewSet.get_queryset,
    objects_filter, bind, lift.
  destruct (filter_queryset request _) as [qs|e0] eqn:Hq;
    [|intros H; inversion H; subst; split; [reflexivity | discriminate]].
  destruct (find _ _) as [e|] eqn:Hf; intros H; inversion H; subst.
  - split; [reflexivity|]. intros instance Hi. inversion Hi; subst.
    apply find_some in Hf. destruct Hf as [Hin Hid].
    apply (filter_queryset_incl _ _ _ _ Hq) in Hin.
    unfold order_entries in Hin. apply sort_by_In in Hin. repeat split.
    + exact (where_In _ _ _ Hin).
    + now apply Z.eqb_eq.
    + exact (where_active (Qf (is_active_ true)) _ _ eq_refl Hin).
  - split; [reflexivity|]. intros instance Hi. discriminate.
Qed.

Lemma maintained_save_entry orig inst c t :
  In orig (cultural_entries (tables c)) ->
  CulturalEntry.id inst = CulturalEntry.id orig ->
  CulturalEntry.frequency orig <= CulturalEntry.frequency inst ->
  (CulturalEntry.is_active orig = false -> CulturalEntry.is_active inst = false) ->
  save_entry inst c = Ok t -> maintained (tables c) t.
Proof.
  intros Hin Hid Hfreq Hact. unfold save_entry.
  destruct (existsb _ _) eqn:Hex.
  - intros H; inversion H; subst. intros Hu. split.
    + unfold ids_unique, entry_ids in *. simpl. rewrite map_map.
      rewrite (map_ext _ CulturalEntry.id); [exact Hu|]. intros r.
      destruct (CulturalEntry.id r =? CulturalEntry.id inst) eqn:E; [|reflexivity].
      apply Z.eqb_eq in E. now symmetry.
    + intros e He.
      exists (if CulturalEntry.id e =? CulturalEntry.id inst then inst else e).
      simpl. split; [apply in_map_iff; exists e; auto|].
      destruct (CulturalEntry.id e =? CulturalEntry.id inst) eqn:E.
      * apply Z.eqb_eq in E. split; [congruence|].
        assert (e = orig) by (apply (ids_unique_inj (tables c)); auto; congruence).
        subst e. split; [exact Hfreq | exact Hact].
      * split; [reflexivity|]. split; [lia | auto].
  - exfalso. rewrite <- not_true_iff_false in Hex. apply Hex.
    apply existsb_exists. exists orig. split; [assumption|]. now apply Z.eqb_eq.
Qed.

Lemma maintained_CulturalEntry_save orig inst c r c' :
  In orig (cultural_entries (tables c)) ->
  CulturalEntry.id inst = CulturalEntry.id orig ->
  CulturalEntry.frequency orig <= CulturalEntry.frequency inst ->
  (CulturalEntry.is_active orig = false -> CulturalEntry.is_active inst = false) ->
  CulturalEntry_save inst c = (r, c') -> maintained (tables c) (tables c').
Proof.
  intros Hin Hid Hfreq Hact. unfold CulturalEntry_save, bind, now, execute, ret.
  destruct (next_fault c).
  - intros H; inversion H; subst. rewrite tables_mark. apply maintained_refl.
  - destruct (save_entry _ c) as [t|e] eqn:Hs; intros H; inversion H; subst.
    + simpl. eapply (maintained_save_entry orig); [exact Hin | | | | exact Hs].
      * exact Hid.
      * exact Hfreq.
      * exact Hact.
    + rewrite tables_mark. apply maintained_refl.
Qed.

Lemma validate_fields_keys specs partial d :
  forall vd, CulturalEntrySerializer.validate_fields specs partial d = Ok vd ->
             forall k, In k (map fst vd) -> In k (map fst specs).
Proof.
  induction specs as [|[name [required validate]] specs IH]; simpl; intros vd H k Hk.
  - inversion H; subst. contradiction.
  - destruct (dict_get name d) as [v|].
    + destruct (validate v) as [v'|e];
        destruct (CulturalEntrySerializer.validate_fields specs partial d) as [rest|e'];
        try discriminate.
      inversion H; subst. simpl in Hk. destruct Hk as [Hk|Hk]; [now left|].
      right. eapply IH; eauto.
    + destruct (required && negb partial)%bool; [discriminate|].
      right. eapply IH; eauto.
Qed.

Lemma run_validation_keys partial data vd :
  CulturalEntrySerializer.run_validation partial data = Ok vd ->
  forall k, In k (map fst vd) -> In k CulturalEntrySerializer.writable_fields.
Proof.
  unfold CulturalEntrySerializer.run_validation. destruct data; try discriminate.
  intros H k Hk. exact (validate_fields_keys _ _ _ _ H k Hk).
Qed.

Lemma dict_remove_keys {V} x (d : list (string * V)) k :
  In k (map fst (CulturalEntrySerializer.dict_remove x d)) ->
  In k (map fst d) /\ k <> x.
Proof.
  unfold CulturalEntrySerializer.dict_remove. rewrite in_map_iff.
  intros [[k' v] [Hk Hin]]. simpl in Hk; subst k'.
  apply filter_In in Hin. destruct Hin as [Hin Hne]. simpl in Hne. split.
  - apply in_map_iff. now exists (k, v).
  - intros ->. now rewrite String.eqb_refl in Hne.
Qed.

Lemma setattr_scalar e attr v e' :
  In attr scalar_fields ->
  CulturalEntrySerializer.setattr e attr v = Ok e' ->
  CulturalEntry.id e' = CulturalEntry.id e
  /\ CulturalEntry.frequency e' = CulturalEntry.frequency e.
Proof.
  intros Hin. destruct e. unfold scalar_fields in Hin. simpl in Hin.
  assert (Hfin : forall r : result CulturalEntry.t,
             (forall x, r = Ok x ->
                        CulturalEntry.id x = id /\ CulturalEntry.frequency x = frequency) ->
             r = Ok e' ->
             CulturalEntry.id e' = id /\ CulturalEntry.frequency e' = frequency)
    by (intros r Hr Hx; now apply Hr).
  repeat (destruct Hin as [<-|Hin];
          [unfold CulturalEntrySerializer.setattr; simpl; apply Hfin; intros x;
           destruct v as [|b|n|s|l|d]; simpl;
           try (intros H; first [discriminate H | inversion H; subst; now split]);
           destruct n as [|[p|p|]|p]; simpl;
           intros H; first [discriminate H | inversion H; subst; now split] |]).
  contradiction.
Qed.

Lemma setattrs_scalar items :
  forall e e',
    (forall k, In k (map fst items) -> In k scalar_fields) ->
    CulturalEntrySerializer.setattrs e items = Ok e' ->
    CulturalEntry.id e' = CulturalEntry.id e
    /\ CulturalEntry.frequency e' = CulturalEntry.frequency e.
Proof.
  induction items as [|[attr value] items IH]; simpl; intros e e' Hk H.
  - inversion H; subst. now split.
  - destruct (CulturalEntrySerializer.setattr e attr value) as [e1|x] eqn:Hs;
      [|discriminate].
    apply setattr_scalar in Hs; [|apply Hk; now left].
    destruct (IH e1 e' (fun k Hin => Hk k (or_intror Hin)) H) as [Hid Hf].
    destruct Hs as [Hid1 Hf1]. split; congruence.
Qed.

Lemma scalar_after_pops (vd : list (string * json)) :
  (forall k, In k (map fst vd) -> In k CulturalEntrySerializer.writable_fields) ->
  forall k,
    In k (map fst (CulturalEntrySerializer.dict_remove "additional_translations"
                     (CulturalEntrySerializer.dict_remove "examples" vd))) ->
    In k scalar_fields.
Proof.
  intros Hw k Hk.
  apply dict_remove_keys in Hk. destruct Hk as [Hk Hne1].
  apply dict_remove_keys in Hk. destruct Hk as [Hk Hne2].
  specialize (Hw k Hk). unfold CulturalEntrySerializer.writable_fields in Hw.
  simpl in Hw. unfold scalar_fields. simpl.
  intuition congruence.
Qed.

Lemma maintained_serializer_update instance vd c r c' :
  In instance (cultural_entries (tables c)) ->
  CulturalEntry.is_active instance = true ->
  (forall k, In k (map fst vd) -> In k CulturalEntrySerializer.writable_fields) ->
  CulturalEntrySerializer.update instance vd c = (r, c') ->
  maintained (tables c) (tables c').
Proof.
  intros Hin Hactive Hkeys. unfold CulturalEntrySerializer.update.
  apply (bind_from maintained _ _ c r c' maintained_trans).
  - apply (keeps_prepare _ maintained_refl).
  - intros inst c1 Hprep r2 c2.
    unfold prepare in Hprep.
    destruct (CulturalEntrySerializer.setattrs instance _) as [inst'|x] eqn:Hset;
      inversion Hprep; subst inst' c1.
    apply setattrs_scalar in Hset; [|now apply scalar_after_pops].
    destruct Hset as [Hid Hfreq].
    apply (bind_from maintained _ _ c r2 c2 maintained_trans).
    + intros r1 c1. apply (maintained_CulturalEntry_save instance); auto; [lia|].
      intros Hoff. congruence.
    + intros inst2 c1 _. revert inst2 c1.
      change (forall inst2, keeps maintained
                (fun c1 => (bind
                   match dict_get "examples" vd with
                   | Some JNull | None => ret tt
                   | Some examples_data =>
                       bind (delete_examples_of inst2) (fun _ =>
                       bind (lift (py_iter examples_data)) (fun examples_data0 =>
                       CulturalEntrySerializer.create_examples inst2 examples_data0))
                   end
                   (fun _ => bind
                      match dict_get "additional_translations"
                              (CulturalEntrySerializer.dict_remove "examples" vd) with
                      | Some JNull | None => ret tt
                      | Some translations_data =>
                          bind (delete_translations_of inst2) (fun _ =>
                          bind (lift (py_iter translations_data)) (fun translations_data0 =>
                          CulturalEntrySerializer.create_translations inst2
                            translations_data0))
                      end
                      (fun _ => ret inst2))) c1)).
      intros inst2.
      apply (keeps_bind _ maintained_trans).
      * destruct (dict_get "examples" vd) as [[| | | | |]|]; maintain;
          auto using keeps_delete_examples_of, keeps_create_examples.
      * intros _. apply (keeps_bind _ maintained_trans).
        -- destruct (dict_get "additional_translations" _) as [[| | | | |]|]; maintain;
             auto using keeps_delete_translations_of, keeps_create_translations.
        -- intros _. maintain.
Qed.

Lemma maintained_update_view request pk partial c r c' :
  CulturalEntryViewSet.update request pk partial c = (r, c') ->
  maintained (tables c) (tables c').
Proof.
  unfold CulturalEntryViewSet.update.
  apply (bind_from maintained _ _ c r c' maintained_trans).
  - apply keeps_get_object.
  - intros instance c1 Hget r2 c2.
    apply get_object_found in Hget. destruct Hget as [-> Hfound].
    destruct (Hfound instance eq_refl) as [Hin [_ Hactive]].
    apply (bind_from maintained _ _ c r2 c2 maintained_trans).
    + apply (keeps_lift _ maintained_refl).
    + intros vd c1 Hval r3 c3. unfold lift in Hval.
      inversion Hval as [[Hvd Hc1]]. subst c1.
      apply (bind_from maintained _ _ c r3 c3 maintained_trans).
      * intros r1 c1. unfold CulturalEntryViewSet.perform_update.
        apply (bind_from maintained _ _ c r1 c1 maintained_trans).
        -- intros r4 c4. apply maintained_serializer_update; auto.
           now apply run_validation_keys with (partial := partial) (data := data request).
        -- intros inst c4 _. revert c4.
           change (keeps maintained
                     (bind (lift (CulturalEntryViewSet.call_get_client_ip []))
                        (fun ip_address =>
                           bind (ActivityLogService.log_activity (user request) "update"
                                   ("Updated entry: " ++ CulturalEntry.isiZulu_text inst)
                                   ip_address)
                                (fun _ => ret inst)))).
           maintain. apply keeps_log_activity.
      * intros inst c1 _. revert c1.
        change (keeps maintained
                  (bind CulturalEntryViewSet.current_tables
                     (fun t => ret (mkResponse 200
                        (CulturalEntrySerializer.CulturalEntry_representation t inst))))).
        maintain.
Qed.

Lemma maintained_destroy_view request pk c r c' :
  CulturalEntryViewSet.destroy request pk c = (r, c') ->
  maintained (tables c) (tables c').
Proof.
  unfold CulturalEntryViewSet.destroy.
  apply (bind_from maintained _ _ c r c' maintained_trans).
  - apply keeps_get_object.
  - intros instance c1 Hget r2 c2.
    apply get_object_found in Hget. destruct Hget as [-> Hfound].
    destruct (Hfound instance eq_refl) as [Hin _].
    apply (bind_from maintained _ _ c r2 c2 maintained_trans).
    + intros r1 c1. unfold CulturalEntryViewSet.perform_destroy.
      apply (bind_from maintained _ _ c r1 c1 maintained_trans).
      * intros r4 c4. apply (maintained_CulturalEntry_save instance); auto.
        simpl. lia.
      * intros inst c4 _. revert c4.
        change (keeps maintained
                  (bind (lift (CulturalEntryViewSet.call_get_client_ip []))
                     (fun ip_address =>
                        ActivityLogService.log_activity (user request) "delete"
                          ("Deleted entry: " ++ CulturalEntry.isiZulu_text inst)
                          ip_address))).
        maintain. apply keeps_log_activity.
    + intros u c1 _. revert c1.
      change (keeps maintained (ret (mkResponse 204 JNull))). maintain.
Qed.

(** Every request of the API keeps the keys unique, lets no counter go down
    and brings no inactive row back, whatever its outcome. *)
Lemma dispatch_maintained a request c :
  maintained (tables c) (tables (snd (dispatch a request c))).
Proof.
  unfold dispatch.
  destruct (is_safe a || CulturalEntryViewSet.is_authenticated request)%bool;
    [|apply maintained_refl].
  assert (H : forall r c', view a request c = (r, c') ->
                           maintained (tables c) (tables c')).
  { destruct a; simpl; intros r c'.
    - apply keeps_list.
    - apply keeps_retrieve.
    - apply keeps_create_view.
    - apply maintained_update_view.
    - apply maintained_update_view.
    - apply maintained_destroy_view.
    - apply keeps_search_view.
    - apply keeps_import_data.
    - apply keeps_export_data. }
  destruct (view a request c) as [[response|e] c'] eqn:Hv.
  - simpl. eapply H; eauto.
  - specialize (H _ _ eq_refl). destruct e; exact H.
Qed.

Lemma keeps_seed_data_handle : keeps maintained seed_data.handle.
Proof.
  unfold seed_data.handle. maintain. apply keeps_import_from_json.
Qed.

Lemma serve_maintained requests :
  forall c, maintained (tables c) (tables (serve requests c)).
Proof.
  induction requests as [|[a request] rest IH]; intros c; simpl.
  - apply maintained_refl.
  - eapply maintained_trans; [apply dispatch_maintained | apply IH].
Qed.

Lemma hit_iff_results q t e :
  hit q t e = true <->
  In (CulturalEntry.id e) (map CulturalEntry.id (map incremented (matches q t))).
Proof.
  rewrite map_id_incremented, hit_spec, in_map_iff.
  split; intros [r [H1 H2]]; exists r.
  - split; [assumption | now apply matches_In].
  - split; [now apply matches_In | assumption].
Qed.

Lemma entries_after_log user action description ip c :
  cultural_entries (tables (snd (ActivityLogService.log_activity user action
                                   description ip c)))
  = cultural_entries (tables c).
Proof.
  unfold ActivityLogService.log_activity, try_except, ActivityLog_objects_create,
    bind, next_log_id, now, execute, ret.
  simpl. destruct (next_fault _); simpl.
  - unfold mark_for_rollback_on_error. simpl. now destruct (in_atomic_block c).
  - destruct (insert_log _ _) as [t|e] eqn:Hi; simpl.
    + unfold insert_log in Hi. destruct (existsb _ _); [discriminate|].
      now inversion Hi.
    + unfold mark_for_rollback_on_error. simpl. now destruct (in_atomic_block c).
Qed.

Lemma search_view_effect request c :
  ids_unique (tables c) ->
  status (fst (dispatch Search request c)) = 200 ->
  exists q,
    search_condition (request_query request) (Some (request_filters request)) = Ok q
    /\ cultural_entries (tables (snd (dispatch Search request c)))
       = map (bump q (tables c) 1) (cultural_entries (tables c))
    /\ forall k, In k (response_ids (fst (dispatch Search request c))) ->
                 exists e, In e (cultural_entries (tables c))
                           /\ CulturalEntry.id e = k /\ hit q (tables c) e = true.
Proof.
  intros Hu. unfold dispatch. simpl. rewrite search_view_eq.
  destruct (SearchService.search_entries _ _ c) as [[results|e] c1] eqn:Hs;
    [|simpl; discriminate].
  destruct (search_entries_effect _ _ _ _ _ Hu Hs) as [q [Hq [Hres [Ht _]]]].
  assert (Hids : forall k page,
             (forall x, In x page -> In x results) ->
             In k (map CulturalEntry.id page) ->
             exists e, In e (cultural_entries (tables c))
                       /\ CulturalEntry.id e = k /\ hit q (tables c) e = true).
  { intros k page Hsub Hk. apply in_map_iff in Hk. destruct Hk as [x [Hx Hin]].
    apply Hsub in Hin. rewrite Hres in Hin. apply in_map_iff in Hin.
    destruct Hin as [r [Hr Hm]]. apply matches_In in Hm.
    exists r. split; [eapply where_In; eauto|]. split.
    - subst. reflexivity.
    - apply hit_spec. exists r. split; auto. }
  destruct (paginate_queryset request results) as [page|] eqn:Hp; simpl; intros _;
    exists q; (split; [exact Hq|]).
  - split; [now rewrite Ht|]. intros k. rewrite response_ids_paginated.
    apply Hids. intros x. eapply page_incl; eauto.
  - split.
    + rewrite entries_after_log. now rewrite Ht.
    + intros k. rewrite response_ids_list. apply Hids. auto.
Qed.

(** C5: a search that succeeds returns the matched entries with their
    counters raised by exactly one, writes exactly these counters and nothing
    else into the table, and sends at most one statement (the batch update);
    the same holds for a search through the API.  The same search made [n]
    times raises the counters of the matched entries by exactly [n].  No
    sequence of requests of the API ever lowers a counter, and neither does
    the seed command. *)
Theorem search_increments_frequencies :
  (forall query filters c results c',
      ids_unique (tables c) ->
      SearchService.search_entries query filters c = (Ok results, c') ->
      exists q,
        search_condition query filters = Ok q
        /\ results = map incremented (matches q (tables c))
        /\ (forall e, hit q (tables c) e = true <->
                      In (CulturalEntry.id e) (map CulturalEntry.id results))
        /\ tables c' = set_entries (map (bump q (tables c) 1)
                                        (cultural_entries (tables c)))
                                   (tables c)
        /\ (c' = c \/ (faults c' = tl (faults c) /\ clock c' = clock c + 1)))
  /\ (forall request c,
         ids_unique (tables c) ->
         status (fst (dispatch Search request c)) = 200 ->
         exists q,
           search_condition (request_query request) (Some (request_filters request))
           = Ok q
           /\ cultural_entries (tables (snd (dispatch Search request c)))
              = map (bump q (tables c) 1) (cultural_entries (tables c))
           /\ forall k, In k (response_ids (fst (dispatch Search request c))) ->
                        exists e, In e (cultural_entries (tables c))
                                  /\ CulturalEntry.id e = k
                                  /\ hit q (tables c) e = true)
  /\ (forall n query filters c q,
         ids_unique (tables c) ->
         fault_free c ->
         search_condition query filters = Ok q ->
         exists c',
           search_times n query filters c = (Ok tt, c')
           /\ tables c' = set_entries (map (bump q (tables c) (Z.of_nat n))
                                           (cultural_entries (tables c)))
                                      (tables c))
  /\ (forall requests c,
         ids_unique (tables c) ->
         ids_unique (tables (serve requests c))
         /\ frequencies_kept (tables c) (tables (serve requests c)))
  /\ (forall c,
         ids_unique (tables c) ->
         ids_unique (tables (snd (seed_data.handle c)))
         /\ frequencies_kept (tables c) (tables (snd (seed_data.handle c)))).
Proof.
  split; [|split; [|split; [|split]]].
  - intros query filters c results c' Hu Hs.
    destruct (search_entries_effect _ _ _ _ _ Hu Hs) as [q [Hq [Hres [Ht Hone]]]].
    exists q. split; [exact Hq|]. split; [exact Hres|].
    split; [|split; [exact Ht | exact Hone]].
    intros e. rewrite Hres. apply hit_iff_results.
  - intros request c Hu Hs. now apply search_view_effect.
  - intros n query filters c q Hu Hff Hq.
    destruct (search_times_runs n query filters c q Hff Hq) as [c' [Hrun _]].
    exists c'. split; [exact Hrun|].
    eapply search_times_effect; eauto.
  - intros requests c Hu.
    destruct (serve_maintained requests c Hu) as [Hu' Hk].
    split; [assumption | now apply rows_kept_frequencies].
  - intros c Hu.
    destruct (seed_data.handle c) as [r c'] eqn:Hrun.
    destruct (keeps_seed_data_handle c r c' Hrun Hu) as [Hu' Hk].
    split; [assumption | now apply rows_kept_frequencies].
Qed.

Lemma two_examples_unique : ids_unique two_examples.
Proof.
  unfold ids_unique, entry_ids. simpl.
  repeat constructor; simpl; intuition discriminate.
Qed.

Lemma search_increments_frequencies_witness :
  ids_unique (tables (conn_of two_examples []))
  /\ fault_free (conn_of two_examples [])
  /\ search_condition "Ubuntu" None
     = Ok (Qf (is_active_ true) &&& SearchService.text_query "Ubuntu")
  /\ exists c',
       search_times 2 "Ubuntu" None (conn_of two_examples []) = (Ok tt, c')
       /\ map CulturalEntry.frequency (cultural_entries (tables c')) = [2; 5].
Proof.
  split; [exact two_examples_unique|].
  split; [constructor|].
  split; [reflexivity|].
  destruct (proj1 (proj2 (proj2 search_increments_frequencies))
              2%nat "Ubuntu" None (conn_of two_examples [])
              (Qf (is_active_ true) &&& SearchService.text_query "Ubuntu")
              two_examples_unique (Forall_nil _) eq_refl) as [c' [Hrun Ht]].
  exists c'. split; [exact Hrun|].
  rewrite Ht. reflexivity.
Defined.

(** ** Soft delete *)

Lemma apply_filters_active base f q :
  requires_active base = true ->
  SearchService._apply_filters base f = Ok q -> requires_active q = true.
Proof.
  intros Hb. unfold SearchService._apply_filters.
  repeat match goal with
         | |- context [match ?x with Some _ => _ | None => _ end] => destruct x
         | |- context [if ?x then _ else _] => destruct x
         | |- context [match ?x with Ok _ => _ | Raise _ => _ end] => destruct x
         end;
    intros H; inversion H; subst; simpl; rewrite ?Hb; reflexivity.
Qed.

Lemma search_condition_active query filters q :
  search_condition query filters = Ok q -> requires_active q = true.
Proof.
  unfold search_condition.
  set (base := if truthy (Some query) then _ else _).
  assert (Hb : requires_active base = true) by (subst base; now destruct (truthy _)).
  clearbody base.
  destruct filters as [[|kv filters]|]; try (intros H; inversion H; subst; exact Hb).
  now apply apply_filters_active.
Qed.

Lemma active_queryset_In c e :
  In e (order_entries (where_ (Qf (is_active_ true)) (tables c))) ->
  In e (cultural_entries (tables c)) /\ CulturalEntry.is_active e = true.
Proof.
  unfold order_entries. rewrite sort_by_In. intros H. split.
  - exact (where_In _ _ _ H).
  - exact (where_active (Qf (is_active_ true)) _ _ eq_refl H).
Qed.

Lemma hidden_not_active pk t e :
  hidden pk t -> In e (cultural_entries t) -> CulturalEntry.is_active e = true ->
  CulturalEntry.id e <> pk.
Proof. intros Hh He Ha Hid. rewrite (Hh e He Hid) in Ha. discriminate. Qed.

Lemma list_response_active request c k :
  In k (response_ids (fst (dispatch List request c))) ->
  exists e, In e (cultural_entries (tables c))
            /\ CulturalEntry.id e = k /\ CulturalEntry.is_active e = true.
Proof.
  unfold dispatch. simpl.
  unfold CulturalEntryViewSet.list_, CulturalEntryViewSet.get_queryset,
    objects_filter, bind, lift.
  destruct (filter_queryset request _) as [qs|e] eqn:Hf.
  - assert (Hsub : forall page, (forall x, In x page -> In x qs) ->
                                In k (map CulturalEntry.id page) ->
                                exists e, In e (cultural_entries (tables c))
                                          /\ CulturalEntry.id e = k
                                          /\ CulturalEntry.is_active e = true).
    { intros page Hp Hk. apply in_map_iff in Hk. destruct Hk as [x [Hx Hin]].
      apply Hp in Hin. eapply filter_queryset_incl in Hin; eauto.
      apply active_queryset_In in Hin. exists x. tauto. }
    destruct (paginate_queryset request qs) as [page|] eqn:Hp; simpl.
    + rewrite response_ids_paginated. apply Hsub. intros x. eapply page_incl; eauto.
    + rewrite response_ids_list. apply Hsub. auto.
  - destruct e; simpl; contradiction.
Qed.

Lemma search_response_active request c k :
  In k (response_ids (fst (dispatch Search request c))) ->
  exists e, In e (cultural_entries (tables c))
            /\ CulturalEntry.id e = k /\ CulturalEntry.is_active e = true.
Proof.
  unfold dispatch. simpl. rewrite search_view_eq.
  destruct (SearchService.search_entries _ _ c) as [[results|e] c1] eqn:Hs;
    [|simpl; contradiction].
  apply search_entries_results in Hs. destruct Hs as [q [Hq Hres]].
  assert (Hsub : forall page, (forall x, In x page -> In x results) ->
                              In k (map CulturalEntry.id page) ->
                              exists e, In e (cultural_entries (tables c))
                                        /\ CulturalEntry.id e = k
                                        /\ CulturalEntry.is_active e = true).
  { intros page Hp Hk. apply in_map_iff in Hk. destruct Hk as [x [Hx Hin]].
    apply Hp in Hin. rewrite Hres in Hin. apply in_map_iff in Hin.
    destruct Hin as [r [Hr Hm]]. apply matches_In in Hm. exists r.
    split; [exact (where_In _ _ _ Hm)|]. split.
    - subst. reflexivity.
    - exact (where_active q _ _ (search_condition_active _ _ _ Hq) Hm). }
  destruct (paginate_queryset request results) as [page|] eqn:Hp; simpl.
  - rewrite response_ids_paginated. apply Hsub. intros x. eapply page_incl; eauto.
  - rewrite response_ids_list. apply Hsub. auto.
Qed.

Lemma log_activity_pair user action description ip c :
  ActivityLogService.log_activity user action description ip c
  = (Ok tt, snd (ActivityLogService.log_activity user action description ip c)).
Proof.
  pose proof (log_activity_ok user action description ip c) as H.
  destruct (ActivityLogService.log_activity user action description ip c) as [r c'].
  simpl in *. now subst.
Qed.

Lemma export_response_active request c k :
  In k (response_ids (fst (dispatch ExportData request c))) ->
  exists e, In e (cultural_entries (tables c))
            /\ CulturalEntry.id e = k /\ CulturalEntry.is_active e = true.
Proof.
  unfold dispatch. simpl.
  unfold CulturalEntryViewSet.export_data, bind, lift,
    CulturalEntryViewSet.call_get_client_ip.
  rewrite log_activity_pair.
  set (c1 := snd (ActivityLogService.log_activity _ _ _ _ c)).
  assert (He : cultural_entries (tables c1) = cultural_entries (tables c))
    by apply entries_after_log.
  unfold CulturalEntryViewSet.get_queryset, objects_filter,
    CulturalEntryViewSet.current_tables. simpl.
  rewrite response_ids_full. intros Hk. apply in_map_iff in Hk.
  destruct Hk as [x [Hx Hin]]. apply active_queryset_In in Hin.
  rewrite He in Hin. exists x. tauto.
Qed.

Lemma filter_queryset_no_params request qs :
  GET request = [] -> filter_queryset request qs = Ok qs.
Proof.
  intros H. unfold filter_queryset, CulturalEntryFilter, SearchFilter, OrderingFilter,
    char_filter, choice_filter, number_filter.
  rewrite H. reflexivity.
Qed.

Lemma filter_queryset_raises request qs e :
  filter_queryset request qs = Raise e -> e = ValidationError.
Proof.
  unfold filter_queryset, CulturalEntryFilter, and_then, char_filter, choice_filter,
    number_filter.
  repeat match goal with
         | |- context [match dict_get ?k ?d with _ => _ end] =>
             destruct (dict_get k d)
         | |- context [if ?b then _ else _] => destruct b
         | |- context [match parse_Z ?v with _ => _ end] => destruct (parse_Z v)
         end;
    intros H; inversion H; reflexivity.
Qed.

Lemma retrieve_hidden request pk c :
  hidden pk (tables c) ->
  (status (fst (dispatch (Retrieve pk) request c)) = 404
   \/ status (fst (dispatch (Retrieve pk) request c)) = 400)
  /\ (GET request = [] -> status (fst (dispatch (Retrieve pk) request c)) = 404).
Proof.
  intros Hh. unfold dispatch. simpl. unfold CulturalEntryViewSet.retrieve, bind.
  destruct (CulturalEntryViewSet.get_object request pk c) as [[instance|e] c1] eqn:Hg.
  - apply get_object_found in Hg. destruct Hg as [_ Hf].
    destruct (Hf instance eq_refl) as [Hin [Hid Hact]].
    exfalso. exact (hidden_not_active pk _ _ Hh Hin Hact Hid).
  - unfold CulturalEntryViewSet.get_object, CulturalEntryViewSet.get_queryset,
      objects_filter, bind, lift in Hg.
    destruct (filter_queryset request _) as [qs|e0] eqn:Hq.
    + destruct (find _ _); inversion Hg; subst. simpl. auto.
    + inversion Hg; subst. pose proof (filter_queryset_raises _ _ _ Hq) as He.
      subst e. simpl. split; [now right|]. intros HGET.
      rewrite (filter_queryset_no_params _ _ HGET) in Hq. discriminate.
Qed.

Lemma destroy_effect request pk c instance :
  CulturalEntryViewSet.is_authenticated request = true ->
  CulturalEntryViewSet.get_object request pk c = (Ok instance, c) ->
  next_fault c = false ->
  dispatch (Destroy pk) request c
  = (mkResponse 500 JNull,
     with_tables
       (set_entries
          (map (fun r => if CulturalEntry.id r =? pk
                         then deactivated (clock c) instance else r)
               (cultural_entries (tables c)))
          (tables c))
       (tick c)).
Proof.
  intros Hauth Hget Hnf.
  destruct (get_object_found _ _ _ _ _ Hget) as [_ Hf].
  destruct (Hf instance eq_refl) as [Hin [Hid _]].
  unfold dispatch. simpl. rewrite Hauth. simpl.
  unfold CulturalEntryViewSet.destroy, bind. rewrite Hget.
  unfold CulturalEntryViewSet.perform_destroy, CulturalEntry_save, bind, now, execute.
  rewrite Hnf. unfold save_entry.
  change (CulturalEntry.id (CulturalEntry.set_updated_at (clock c)
                              (CulturalEntry.set_is_active false instance)))
    with (CulturalEntry.id instance).
  rewrite Hid.
  replace (existsb (fun r => CulturalEntry.id r =? pk) (cultural_entries (tables c)))
    with true.
  - reflexivity.
  - symmetry. apply existsb_exists. exists instance. split; [assumption|].
    now apply Z.eqb_eq.
Qed.

(** C6: a delete through the API of an entry that is there (a request
    without query parameters for an active row with the key, whose update
    reaches the database) leaves the row in storage, with [is_active] false
    and its other columns and its children as they were; the entry is then
    absent from the answers of list, search and export, which only ever show
    active rows, and a retrieve of it is refused: with 404, or with 400 when
    the filters refuse the query parameters of the retrieve; and it stays
    absent whatever requests are served in between, since no request of the
    API brings an inactive row back. *)
Theorem soft_delete_hides_entry :
  (forall request pk c instance,
      CulturalEntryViewSet.is_authenticated request = true ->
      GET request = [] ->
      CulturalEntryViewSet.get_object request pk c = (Ok instance, c) ->
      next_fault c = false ->
      let c' := snd (dispatch (Destroy pk) request c) in
      cultural_entries (tables c')
      = map (fun r => if CulturalEntry.id r =? pk
                      then deactivated (clock c) instance else r)
            (cultural_entries (tables c))
      /\ In (deactivated (clock c) instance) (cultural_entries (tables c'))
      /\ CulturalEntry.id (deactivated (clock c) instance) = pk
      /\ CulturalEntry.is_active (deactivated (clock c) instance) = false
      /\ usage_examples (tables c') = usage_examples (tables c)
      /\ additional_translations (tables c') = additional_translations (tables c)
      /\ hidden pk (tables c')
      /\ forall request',
           ~ In pk (response_ids (fst (dispatch List request' c')))
           /\ (status (fst (dispatch (Retrieve pk) request' c')) = 404
               \/ status (fst (dispatch (Retrieve pk) request' c')) = 400)
           /\ (GET request' = [] ->
               status (fst (dispatch (Retrieve pk) request' c')) = 404)
           /\ ~ In pk (response_ids (fst (dispatch Search request' c')))
           /\ ~ In pk (response_ids (fst (dispatch ExportData request' c'))))
  /\ (forall a request c k,
         a = List \/ a = Search \/ a = ExportData ->
         In k (response_ids (fst (dispatch a request c))) ->
         exists e, In e (cultural_entries (tables c))
                   /\ CulturalEntry.id e = k /\ CulturalEntry.is_active e = true)
  /\ (forall request pk c instance requests,
         CulturalEntryViewSet.is_authenticated request = true ->
         GET request = [] ->
         CulturalEntryViewSet.get_object request pk c = (Ok instance, c) ->
         next_fault c = false ->
         ids_unique (tables c) ->
         let c' := serve requests (snd (dispatch (Destroy pk) request c)) in
         hidden pk (tables c')
         /\ forall request',
              ~ In pk (response_ids (fst (dispatch List request' c')))
              /\ (status (fst (dispatch (Retrieve pk) request' c')) = 404
                  \/ status (fst (dispatch (Retrieve pk) request' c')) = 400)
              /\ (GET request' = [] ->
                  status (fst (dispatch (Retrieve pk) request' c')) = 404)
              /\ ~ In pk (response_ids (fst (dispatch Search request' c')))
              /\ ~ In pk (response_ids (fst (dispatch ExportData request' c')))).
Proof.
  assert (Hreads : forall a request c k,
             a = List \/ a = Search \/ a = ExportData ->
             In k (response_ids (fst (dispatch a request c))) ->
             exists e, In e (cultural_entries (tables c))
                       /\ CulturalEntry.id e = k /\ CulturalEntry.is_active e = true).
  { intros a request c k [ -> | [ -> | -> ] ].
    - apply list_response_active.
    - apply search_response_active.
    - apply export_response_active. }
  assert (Habsent : forall pk c1, hidden pk (tables c1) ->
             forall request',
               ~ In pk (response_ids (fst (dispatch List request' c1)))
               /\ (status (fst (dispatch (Retrieve pk) request' c1)) = 404
                   \/ status (fst (dispatch (Retrieve pk) request' c1)) = 400)
               /\ (GET request' = [] ->
                   status (fst (dispatch (Retrieve pk) request' c1)) = 404)
               /\ ~ In pk (response_ids (fst (dispatch Search request' c1)))
               /\ ~ In pk (response_ids (fst (dispatch ExportData request' c1)))).
  { intros pk c1 Hhidden request'.
    assert (Hno : forall a, a = List \/ a = Search \/ a = ExportData ->
                            ~ In pk (response_ids (fst (dispatch a request' c1)))).
    { intros a Ha Hk.
      destruct (Hreads a request' c1 pk Ha Hk) as [e [He [Hide Hact]]].
      exact (hidden_not_active pk _ _ Hhidden He Hact Hide). }
    split; [apply Hno; auto|].
    split; [exact (proj1 (retrieve_hidden request' pk c1 Hhidden))|].
    split; [exact (proj2 (retrieve_hidden request' pk c1 Hhidden))|].
    split; apply Hno; auto. }
  assert (Hdeleted : forall request pk c instance,
             CulturalEntryViewSet.is_authenticated request = true ->
             CulturalEntryViewSet.get_object request pk c = (Ok instance, c) ->
             next_fault c = false ->
             In pk (entry_ids (tables (snd (dispatch (Destroy pk) request c))))
             /\ hidden pk (tables (snd (dispatch (Destroy pk) request c)))).
  { intros request pk c instance Hauth Hget Hnf.
    destruct (get_object_found _ _ _ _ _ Hget) as [_ Hf].
    destruct (Hf instance eq_refl) as [Hin [Hid _]].
    rewrite (destroy_effect _ _ _ _ Hauth Hget Hnf). simpl. split.
    - unfold entry_ids. simpl. rewrite map_map. apply in_map_iff.
      exists instance. split; [|assumption]. now rewrite Hid, Z.eqb_refl.
    - intros e He Hide. simpl in He. apply in_map_iff in He.
      destruct He as [r [Hr _]].
      destruct (CulturalEntry.id r =? pk) eqn:E.
      + subst e. reflexivity.
      + subst e. apply Z.eqb_neq in E. contradiction. }
  split; [|split; [exact Hreads|]].
  2: { intros request pk c instance requests Hauth _ Hget Hnf Hu c'.
       destruct (Hdeleted request pk c instance Hauth Hget Hnf) as [Hpk Hh].
       destruct (dispatch_maintained (Destroy pk) request c Hu) as [Hu1 _].
       destruct (serve_maintained requests _ Hu1) as [Hu2 Hk].
       assert (Hh' : hidden pk (tables c'))
         by (exact (rows_kept_hidden pk _ _ Hu2 Hk Hpk Hh)).
       split; [exact Hh' | now apply Habsent]. }
  intros request pk c instance Hauth _ Hget Hnf c'.
  destruct (get_object_found _ _ _ _ _ Hget) as [_ Hf].
  destruct (Hf instance eq_refl) as [Hin [Hid _]].
  destruct (Hdeleted request pk c instance Hauth Hget Hnf) as [_ Hhidden].
  subst c'. revert Hhidden.
  rewrite (destroy_effect _ _ _ _ Hauth Hget Hnf). simpl. intros Hhidden.
  split; [reflexivity|].
  split.
  { apply in_map_iff. exists instance. split; [|assumption].
    rewrite Hid, Z.eqb_refl. reflexivity. }
  split; [exact Hid|].
  split; [reflexivity|].
  split; [reflexivity|].
  split; [reflexivity|].
  split; [exact Hhidden|].
  now apply Habsent.
Qed.

Lemma soft_delete_hides_entry_witness :
  CulturalEntryViewSet.is_authenticated (mkRequest (Some 7) [] [] JNull None) = true
  /\ GET (mkRequest (Some 7) [] [] JNull None) = []
  /\ CulturalEntryViewSet.get_object (mkRequest (Some 7) [] [] JNull None) 1
       (conn_of two_examples [])
     = (Ok ubuntu, conn_of two_examples [])
  /\ next_fault (conn_of two_examples []) = false
  /\ map CulturalEntry.is_active
         (cultural_entries
            (tables (snd (dispatch (Destroy 1) (mkRequest (Some 7) [] [] JNull None)
                            (conn_of two_examples [])))))
     = [false; true]
  /\ status (fst (dispatch (Retrieve 1) (mkRequest None [] [] JNull None)
                    (snd (dispatch (Destroy 1) (mkRequest (Some 7) [] [] JNull None)
                            (conn_of two_examples []))))) = 404
  /\ ids_unique (tables (conn_of two_examples []))
  /\ hidden 1
       (tables
          (serve [(PartialUpdate 1,
                   mkRequest (Some 7) [] [] (JObj [("is_active", JBool true)]) None);
                  (Search, mkRequest None [("q", "Ubuntu")] [] JNull None)]
                 (snd (dispatch (Destroy 1) (mkRequest (Some 7) [] [] JNull None)
                         (conn_of two_examples []))))).
Proof.
  split; [reflexivity|].
  split; [reflexivity|].
  split; [reflexivity|].
  split; [reflexivity|].
  pose proof (proj1 soft_delete_hides_entry
                (mkRequest (Some 7) [] [] JNull None) 1 (conn_of two_examples [])
                ubuntu eq_refl eq_refl eq_refl eq_refl) as H.
  cbv zeta in H.
  destruct H as [Hentries [_ [_ [_ [_ [_ [_ Habsent]]]]]]].
  split; [rewrite Hentries; reflexivity|].
  split; [exact (proj1 (proj2 (proj2 (Habsent (mkRequest None [] [] JNull None)))) eq_refl)|].
  split; [exact two_examples_unique|].
  exact (proj1 (proj2 (proj2 soft_delete_hides_entry)
                  (mkRequest (Some 7) [] [] JNull None) 1 (conn_of two_examples [])
                  ubuntu
                  [(PartialUpdate 1,
                    mkRequest (Some 7) [] [] (JObj [("is_active", JBool true)]) None);
                   (Search, mkRequest None [("q", "Ubuntu")] [] JNull None)]
                  eq_refl eq_refl eq_refl eq_refl two_examples_unique)).
Defined.

(** ** The search log *)

Lemma search_entries_logs query filters c r c' :
  SearchService.search_entries query filters c = (r, c') ->
  activity_logs (tables c') = activity_logs (tables c).
Proof.
  rewrite search_entries_eq.
  destruct (search_condition query filters) as [q|e].
  - cbv zeta. destruct (map incremented (matches q (tables c))).
    + intros H; inversion H; subst; reflexivity.
    + destruct (next_fault c); intros H; inversion H; subst.
      * now rewrite tables_mark.
      * reflexivity.
  - intros H; inversion H; subst; reflexivity.
Qed.

(** C3 (the code departs from it): when the paginator answers with a page,
    the [search] action returns before it reaches the call that logs the
    search, so the request leaves the activity log as it was; this is shown
    for every paginated request, and on a request for "Ubuntu" that returns
    one entry.  Only the unpaginated path appends the 'search' row. *)
Theorem paginated_search_is_not_logged :
  (forall user GET META data offset limit c,
      activity_logs
        (tables (snd (dispatch Search
                        (mkRequest user GET META data (Some (offset, limit))) c)))
      = activity_logs (tables c))
  /\ (let answer := dispatch Search
                      (mkRequest None [("q", "Ubuntu")] [] JNull (Some (0%nat, 20%nat)))
                      (conn_of two_examples []) in
      status (fst answer) = 200
      /\ response_ids (fst answer) = [1]
      /\ activity_logs (tables (snd answer)) = [])
  /\ (let answer := dispatch Search
                      (mkRequest None [("q", "Ubuntu")] [] JNull None)
                      (conn_of two_examples []) in
      status (fst answer) = 200
      /\ response_ids (fst answer) = [1]
      /\ map ActivityLog.action (activity_logs (tables (snd answer))) = ["search"]).
Proof.
  split; [|split; [repeat split | repeat split]].
  intros user GET META data offset limit c.
  unfold dispatch. simpl. rewrite search_view_eq.
  destruct (SearchService.search_entries _ _ c) as [[results|e] c1] eqn:Hs.
  - unfold paginate_queryset. simpl. eapply search_entries_logs; eauto.
  - simpl. eapply search_entries_logs; eauto.
Qed.

(** ** The import, record by record *)

Lemma has_required_obj d :
  DataImportService.has_required_fields (JObj d)
  = Ok (dict_has "isiZulu_text" d && dict_has "english_translation" d)%bool.
Proof.
  unfold DataImportService.has_required_fields. simpl.
  now destruct (dict_has "isiZulu_text" d).
Qed.

Lemma get_or_present d key default :
  dict_has key d = true ->
  py_getitem (JObj d) key = Ok (get_or d key default).
Proof.
  unfold dict_has, get_or. simpl. now destruct (dict_get key d).
Qed.

Lemma create_entry_eq d c :
  CulturalEntry_objects_create (entry_kwargs d) c = create_entry_row d c.
Proof.
  unfold CulturalEntry_objects_create, create_entry_row, row_of_record, and_then.
  change (unexpected CulturalEntry.fields (entry_kwargs d)) with (@nil string).
  cbv iota. unfold bind, prepare.
  change (dict_get "isiZulu_text" (entry_kwargs d))
    with (Some (PJson (get_or d "isiZulu_text" JNull))).
  change (dict_get "english_translation" (entry_kwargs d))
    with (Some (PJson (get_or d "english_translation" JNull))).
  change (dict_get "part_of_speech" (entry_kwargs d))
    with (Some (PJson (get_or d "part_of_speech" (JStr "cultural")))).
  change (dict_get "genre" (entry_kwargs d))
    with (Some (PJson (get_or d "genre" (JStr "cultural")))).
  change (dict_get "cultural_context" (entry_kwargs d))
    with (Some (PJson (get_or d "cultural_context" (JStr EmptyString)))).
  change (dict_get "source" (entry_kwargs d))
    with (Some (PJson (get_or d "source" (JStr EmptyString)))).
  change (dict_get "frequency" (entry_kwargs d)) with (@None pyval).
  change (dict_get "is_active" (entry_kwargs d)) with (@None pyval).
  change (dict_get "id" (entry_kwargs d)) with (@None pyval).
  destruct (text_value (Some (PJson (get_or d "isiZulu_text" JNull)))); [|reflexivity].
  destruct (text_value (Some (PJson (get_or d "english_translation" JNull))));
    [|reflexivity].
  destruct (text_value (Some (PJson (get_or d "part_of_speech" (JStr "cultural")))));
    [|reflexivity].
  destruct (text_value (Some (PJson (get_or d "genre" (JStr "cultural")))));
    [|reflexivity].
  destruct (text_value (Some (PJson (get_or d "cultural_context" (JStr "")))));
    [|reflexivity].
  destruct (text_value (Some (PJson (get_or d "source" (JStr ""))))); [|reflexivity].
  simpl. unfold execute. simpl.
  unfold next_fault. simpl.
  destruct (hd false (faults c)); [reflexivity|].
  destruct (insert_entry _ _); reflexivity.
Qed.

Lemma import_children_eq d entry c :
  (examples <- lift (py_get (JObj d) "examples" (JArr [])) ;;
   examples <- lift (py_iter examples) ;;
   for_each examples (fun example_data =>
     isizulu <- lift (py_get example_data "isizulu" (JStr "")) ;;
     english <- lift (py_get example_data "english" (JStr "")) ;;
     CulturalEntry_objects_create
       [("entry", PEntry entry);
        ("isiZulu_example", PJson isizulu);
        ("english_example", PJson english)] ;;;
     ret tt) ;;;
   translations <- lift (py_get (JObj d) "additional_translations" (JObj [])) ;;
   translations <- lift (py_items translations) ;;
   for_each translations (fun item =>
     CulturalEntry_objects_create
       [("entry", PEntry entry);
        ("language", PStr (fst item));
        ("translation", PJson (snd item))] ;;;
     ret tt) ;;;
   ret true)%db c
  = (children_outcome (JObj d), c).
Proof.
  unfold children_outcome, examples_payload, translations_payload, bind, lift.
  simpl py_get. cbv beta iota. fold (get_or d "examples" (JArr [])).
  fold (get_or d "additional_translations" (JObj [])).
  destruct (py_iter (get_or d "examples" (JArr []))) as [[|x xs]|e]; [| |reflexivity].
  - simpl. destruct (py_items (get_or d "additional_translations" (JObj [])))
      as [[|kv kvs]|e]; reflexivity.
  - simpl. unfold bind, lift. destruct x; reflexivity.
Qed.

Lemma import_record_eq entry_data c :
  DataImportService.import_record entry_data c =
  match DataImportService.has_required_fields entry_data with
  | Raise e => (Raise e, c)
  | Ok false => (Ok false, c)
  | Ok true =>
      match entry_data with
      | JObj d =>
          match create_entry_row d c with
          | (Ok entry, c1) => (children_outcome entry_data, c1)
          | (Raise e, c1) => (Raise e, c1)
          end
      | _ => (Raise TypeError, c)
      end
  end.
Proof.
  unfold DataImportService.import_record.
  unfold bind at 1. unfold lift at 1.
  destruct (DataImportService.has_required_fields entry_data) as [[|]|e] eqn:Hreq;
    [|reflexivity|reflexivity].
  cbv [negb].
  destruct entry_data as [| | | |l|d]; try reflexivity.
  rewrite has_required_obj in Hreq. injection Hreq as Hkeys.
  apply andb_prop in Hkeys. destruct Hkeys as [Hk1 Hk2].
  unfold bind at 1. unfold lift at 1.
  rewrite (get_or_present d "isiZulu_text" JNull Hk1).
  unfold bind at 1. unfold lift at 1.
  rewrite (get_or_present d "english_translation" JNull Hk2).
  unfold bind at 1. unfold lift at 1. simpl py_get.
  unfold bind at 1. unfold lift at 1.
  unfold bind at 1. unfold lift at 1.
  unfold bind at 1. unfold lift at 1.
  unfold bind at 1.
  fold (get_or d "part_of_speech" (JStr "cultural")).
  fold (get_or d "genre" (JStr "cultural")).
  fold (get_or d "cultural_context" (JStr "")).
  fold (get_or d "source" (JStr "")).
  fold (entry_kwargs d).
  rewrite create_entry_eq.
  destruct (create_entry_row d c) as [[entry|e] c1]; [|reflexivity].
  rewrite <- (import_children_eq d entry c1). reflexivity.
Qed.

Lemma children_outcome_ok entry_data b :
  children_outcome entry_data = Ok b ->
  b = true /\ examples_payload entry_data = Ok []
  /\ translations_payload entry_data = Ok [].
Proof.
  unfold children_outcome.
  destruct (examples_payload entry_data) as [[|[] ?]|]; try discriminate.
  destruct (translations_payload entry_data) as [[|? ?]|]; try discriminate.
  intros H; inversion H; auto.
Qed.

Lemma import_record_counted entry_data c b c1 :
  DataImportService.import_record entry_data c = (Ok b, c1) ->
  b = accepted entry_data.
Proof.
  rewrite import_record_eq. unfold accepted.
  destruct (DataImportService.has_required_fields entry_data) as [[|]|e];
    [| intros H; now inversion H | discriminate].
  destruct entry_data; try discriminate.
  destruct (create_entry_row items c) as [[entry|e] c2]; [|discriminate].
  destruct (children_outcome (JObj items)) as [b'|] eqn:Hch; [|discriminate].
  apply children_outcome_ok in Hch. destruct Hch as [-> _].
  intros H. now injection H as <- _.
Qed.

Lemma import_record_skipped entry_data c :
  DataImportService.has_required_fields entry_data = Ok false ->
  DataImportService.import_record entry_data c = (Ok false, c).
Proof. intros H. rewrite import_record_eq, H. reflexivity. Qed.

(** A record that is counted: one row went into [cultural_entries], by one
    statement that no fault hit, and nothing else changed. *)
Lemma import_record_stored entry_data c c1 :
  DataImportService.import_record entry_data c = (Ok true, c1) ->
  exists row,
    stored row entry_data
    /\ CulturalEntry.id row = entry_seq c
    /\ children_outcome entry_data = Ok true
    /\ next_fault c = false
    /\ c1 = mkConn (set_entries (cultural_entries (tables c) ++ [row]) (tables c))
                   (entry_seq c + 1) (example_seq c) (translation_seq c) (log_seq c)
                   (clock c + 1) (tl (faults c)) (in_atomic_block c) (needs_rollback c).
Proof.
  intros H. pose proof (import_record_counted _ _ _ _ H) as Hacc.
  rewrite import_record_eq in H. unfold accepted in Hacc.
  destruct (DataImportService.has_required_fields entry_data) as [[|]|e];
    try discriminate.
  destruct entry_data as [| | | |l|d]; try discriminate.
  unfold create_entry_row in H.
  destruct (row_of_record d (entry_seq c) (clock c)) as [row|e] eqn:Hrow;
    [|discriminate].
  cbv zeta in H. destruct (next_fault c) eqn:Hnf; [discriminate|].
  destruct (insert_entry row (snd (next_entry_id c))) as [t|e] eqn:Hins;
    [|discriminate].
  destruct (children_outcome (JObj d)) as [b|] eqn:Hch; [|discriminate].
  apply children_outcome_ok in Hch. destruct Hch as [-> _].
  injection H as H. subst c1.
  assert (Hid : CulturalEntry.id row = entry_seq c /\ CulturalEntry.created_at row = clock c).
  { unfold row_of_record, and_then in Hrow.
    repeat match type of Hrow with
           | match ?x with Ok _ => _ | Raise _ => _ end = _ =>
               destruct x; [|discriminate]
           end.
    injection Hrow as <-. split; reflexivity. }
  destruct Hid as [Hid Hcr].
  exists row. split.
  { exists d. split; [reflexivity|]. now rewrite Hid, Hcr. }
  split; [exact Hid|]. split; [reflexivity|]. split; [reflexivity|].
  unfold insert_entry in Hins. simpl in Hins.
  destruct (existsb _ _); [discriminate|]. injection Hins as <-.
  reflexivity.
Qed.

Lemma import_record_not_counted entry_data c c1 :
  DataImportService.import_record entry_data c = (Ok false, c1) -> c1 = c.
Proof.
  rewrite import_record_eq.
  destruct (DataImportService.has_required_fields entry_data) as [[|]|e];
    [| intros H; now inversion H | discriminate].
  destruct entry_data; try discriminate.
  destruct (create_entry_row items c) as [[entry|e] c2]; [|discriminate].
  destruct (children_outcome (JObj items)) as [b'|] eqn:Hch; [|discriminate].
  apply children_outcome_ok in Hch. destruct Hch as [-> _]. discriminate.
Qed.

Lemma skipn_S_tl {A} n (l : list A) : skipn (S n) l = skipn n (tl l).
Proof. destruct l; simpl; [now destruct n | reflexivity]. Qed.

Lemma firstn_S_tl n (l : list bool) :
  hd false l = false ->
  Forall (fun b => b = false) (firstn n (tl l)) ->
  Forall (fun b => b = false) (firstn (S n) l).
Proof.
  destruct l as [|b l]; simpl; intros Hh Ht; [constructor|].
  constructor; assumption.
Qed.

Lemma after_rows_nil c : after_rows [] c = c.
Proof.
  unfold after_rows. destruct c as [t ? ? ? ? ? ? ? ?]. destruct t. simpl.
  now rewrite app_nil_r, !Z.add_0_r.
Qed.

Lemma after_rows_cons row rows c :
  after_rows rows
    (mkConn (set_entries (cultural_entries (tables c) ++ [row]) (tables c))
            (entry_seq c + 1) (example_seq c) (translation_seq c) (log_seq c)
            (clock c + 1) (tl (faults c)) (in_atomic_block c) (needs_rollback c))
  = after_rows (row :: rows) c.
Proof.
  unfold after_rows. simpl tables. simpl cultural_entries.
  cbn [entry_seq example_seq translation_seq log_seq clock faults in_atomic_block
       needs_rollback].
  rewrite <- app_assoc. simpl app.
  change (List.length (row :: rows)) with (S (List.length rows)).
  rewrite skipn_S_tl, Nat2Z.inj_succ.
  f_equal; lia.
Qed.

Lemma import_loop_ok json_data :
  forall n c m c',
    DataImportService.import_loop json_data n c = (Ok m, c') ->
    m = n + Z.of_nat (List.length (filter accepted json_data))
    /\ exists rows,
         Forall2 stored rows (filter accepted json_data)
         /\ Forall (fun r => children_outcome r = Ok true) (filter accepted json_data)
         /\ Forall (fun b => b = false) (firstn (List.length rows) (faults c))
         /\ c' = after_rows rows c.
Proof.
  induction json_data as [|entry_data l IH]; intros n c m c' H.
  - simpl in H. inversion H; subst. split; [simpl; lia|].
    exists []. repeat split; try constructor. now rewrite after_rows_nil.
  - simpl in H. unfold bind in H.
    destruct (DataImportService.import_record entry_data c) as [[b|e] c1] eqn:Hrec;
      [|discriminate].
    pose proof (import_record_counted _ _ _ _ Hrec) as Hb.
    destruct (IH _ _ _ _ H) as [Hm [rows [Hst [Hch [Hff Hc']]]]].
    simpl filter. rewrite <- Hb. destruct b.
    + destruct (import_record_stored _ _ _ Hrec) as [row [Hrow [_ [Hco [Hnf Hc1]]]]].
      split; [simpl List.length; lia|].
      exists (row :: rows). subst c1. simpl faults in Hff.
      split; [constructor; assumption|].
      split; [constructor; assumption|].
      split; [now apply firstn_S_tl|].
      now rewrite <- after_rows_cons.
    + apply import_record_not_counted in Hrec. subst c1.
      split; [lia|]. exists rows. auto.
Qed.

(** ** Faults inside an atomic block *)

Lemma firstn_plus {A} a b (l : list A) :
  firstn (a + b) l = (firstn a l ++ firstn b (skipn a l))%list.
Proof.
  revert l. induction a as [|a IH]; intros l; simpl; [reflexivity|].
  destruct l as [|x l]; simpl.
  - now rewrite firstn_nil.
  - now rewrite IH.
Qed.

Lemma tracks_pure {A} (m : M A) :
  (forall c, exists r, m c = (r, c)) -> tracks m.
Proof.
  intros Hm c r c1 Hat H. destruct (Hm c) as [r' Hr']. rewrite Hr' in H.
  inversion H; subst. split; [assumption|]. split; [auto|].
  exists 0%nat. split; [reflexivity|]. simpl. contradiction.
Qed.

Lemma tracks_ret {A} (a : A) : tracks (ret a).
Proof. apply tracks_pure. intros c. now exists (Ok a). Qed.

Lemma tracks_raise {A} e : tracks (@raise A e).
Proof. apply tracks_pure. intros c. now exists (Raise e). Qed.

Lemma tracks_lift {A} (x : result A) : tracks (lift x).
Proof. apply tracks_pure. intros c. now exists x. Qed.

Lemma tracks_now : tracks now.
Proof. apply tracks_pure. intros c. now exists (Ok (clock c)). Qed.

Lemma tracks_seq {A} (m : M A) :
  (forall c r c1, m c = (r, c1) ->
                  in_atomic_block c1 = in_atomic_block c
                  /\ needs_rollback c1 = needs_rollback c
                  /\ faults c1 = faults c) ->
  tracks m.
Proof.
  intros Hm c r c1 Hat H. destruct (Hm c r c1 H) as [Ha [Hn Hf]].
  split; [congruence|]. split; [congruence|].
  exists 0%nat. split; [exact Hf|]. simpl. contradiction.
Qed.

Lemma tracks_next_entry_id : tracks next_entry_id.
Proof. apply tracks_seq. intros c r c1 H. inversion H; subst. auto. Qed.

Lemma tracks_next_example_id : tracks next_example_id.
Proof. apply tracks_seq. intros c r c1 H. inversion H; subst. auto. Qed.

Lemma tracks_next_translation_id : tracks next_translation_id.
Proof. apply tracks_seq. intros c r c1 H. inversion H; subst. auto. Qed.

Lemma tracks_next_log_id : tracks next_log_id.
Proof. apply tracks_seq. intros c r c1 H. inversion H; subst. auto. Qed.

Lemma mark_in_atomic c :
  in_atomic_block c = true ->
  in_atomic_block (mark_for_rollback_on_error c) = true
  /\ needs_rollback (mark_for_rollback_on_error c) = true
  /\ faults (mark_for_rollback_on_error c) = faults c.
Proof.
  intros H. unfold mark_for_rollback_on_error. rewrite H. simpl. auto.
Qed.

Lemma tracks_prepare {A} (x : result A) : tracks (prepare x).
Proof.
  intros c r c1 Hat H. unfold prepare in H. destruct x; inversion H; subst.
  - split; [assumption|]. split; [auto|]. exists 0%nat. split; [reflexivity|].
    simpl. contradiction.
  - destruct (mark_in_atomic c Hat) as [Ha [Hn Hf]].
    split; [assumption|]. split; [auto|]. exists 0%nat. split; [exact Hf|]. auto.
Qed.

Lemma tracks_bind {A B} (m : M A) (k : A -> M B) :
  tracks m -> (forall a, tracks (k a)) -> tracks (bind m k).
Proof.
  intros Hm Hk c r c2 Hat H. unfold bind in H.
  destruct (m c) as [[a|e] c1] eqn:Hmc.
  - destruct (Hm c _ _ Hat Hmc) as [Hat1 [Hn1 [k1 [Hf1 Hx1]]]].
    destruct (Hk a c1 _ _ Hat1 H) as [Hat2 [Hn2 [k2 [Hf2 Hx2]]]].
    split; [assumption|]. split; [auto|].
    exists (k1 + k2)%nat. split.
    + rewrite Hf2, Hf1, skipn_skipn. f_equal. lia.
    + rewrite firstn_plus, in_app_iff. rewrite <- Hf1. intros [Hin|Hin]; auto.
  - inversion H; subst. eapply Hm; eauto.
Qed.

Lemma tracks_try_except {A} (m : M A) (h : exn -> M A) :
  tracks m -> (forall e, tracks (h e)) -> tracks (try_except m h).
Proof.
  intros Hm Hh c r c2 Hat H. unfold try_except in H.
  destruct (m c) as [[a|e] c1] eqn:Hmc.
  - inversion H; subst. eapply Hm; eauto.
  - destruct (Hm c _ _ Hat Hmc) as [Hat1 [Hn1 [k1 [Hf1 Hx1]]]].
    destruct (Hh e c1 _ _ Hat1 H) as [Hat2 [Hn2 [k2 [Hf2 Hx2]]]].
    split; [assumption|]. split; [auto|].
    exists (k1 + k2)%nat. split.
    + rewrite Hf2, Hf1, skipn_skipn. f_equal. lia.
    + rewrite firstn_plus, in_app_iff. rewrite <- Hf1. intros [Hin|Hin]; auto.
Qed.

Lemma tracks_for_each {A} (l : list A) (body : A -> M unit) :
  (forall x, tracks (body x)) -> tracks (for_each l body).
Proof.
  intros Hb. induction l as [|x l IH]; simpl.
  - apply tracks_ret.
  - apply tracks_bind; auto.
Qed.

Lemma tracks_execute stmt : tracks (execute stmt).
Proof.
  intros c r c1 Hat H. unfold execute in H.
  assert (Htick : in_atomic_block (tick c) = true) by exact Hat.
  assert (Hone : forall b, In true (firstn 1 (faults c)) -> next_fault c = b -> b = true).
  { unfold next_fault. destruct (faults c) as [|x l]; simpl.
    - contradiction.
    - intros b [Hx|[]] Hb. congruence. }
  destruct (next_fault c) eqn:Hnf.
  - inversion H; subst. destruct (mark_in_atomic _ Htick) as [Ha [Hn Hf]].
    split; [assumption|]. split; [auto|]. exists 1%nat. split; [|auto].
    rewrite Hf. simpl. now destruct (faults c).
  - destruct (stmt c) as [t|e]; inversion H; subst.
    + split; [assumption|]. split; [auto|]. exists 1%nat. split.
      * simpl. now destruct (faults c).
      * intros Hin. specialize (Hone false Hin eq_refl). discriminate.
    + destruct (mark_in_atomic _ Htick) as [Ha [Hn Hf]].
      split; [assumption|]. split; [auto|]. exists 1%nat. split; [|auto].
      rewrite Hf. simpl. now destruct (faults c).
Qed.

Lemma tracks_pk_value v (next : M Z) : tracks next -> tracks (pk_value v next).
Proof.
  intros Hn. unfold pk_value.
  destruct v as [[j|e]|]; auto using tracks_prepare.
  destruct j; auto using tracks_prepare, tracks_ret.
Qed.

Ltac track :=
  repeat (intros;
    match goal with
    | |- tracks (bind _ _) => apply tracks_bind
    | |- tracks (try_except _ _) => apply tracks_try_except
    | |- tracks (for_each _ _) => apply tracks_for_each
    | |- tracks (ret _) => apply tracks_ret
    | |- tracks (raise _) => apply tracks_raise
    | |- tracks (lift _) => apply tracks_lift
    | |- tracks (prepare _) => apply tracks_prepare
    | |- tracks now => apply tracks_now
    | |- tracks (execute _) => apply tracks_execute
    | |- tracks (pk_value _ _) => apply tracks_pk_value
    | |- tracks next_entry_id => apply tracks_next_entry_id
    | |- tracks next_example_id => apply tracks_next_example_id
    | |- tracks next_translation_id => apply tracks_next_translation_id
    | |- tracks next_log_id => apply tracks_next_log_id
    | |- tracks (match ?x with _ => _ end) => destruct x
    | |- tracks (if ?x then _ else _) => destruct x
    end).

Lemma tracks_CulturalEntry_objects_create kw : tracks (CulturalEntry_objects_create kw).
Proof. unfold CulturalEntry_objects_create. track. Qed.

Lemma tracks_log_activity user action description ip :
  tracks (ActivityLogService.log_activity user action description ip).
Proof. unfold ActivityLogService.log_activity, ActivityLog_objects_create. track. Qed.

Lemma tracks_import_record entry_data : tracks (DataImportService.import_record entry_data).
Proof.
  unfold DataImportService.import_record. track;
    apply tracks_CulturalEntry_objects_create.
Qed.

Lemma tracks_import_loop json_data :
  forall n, tracks (DataImportService.import_loop json_data n).
Proof.
  induction json_data as [|entry_data l IH]; intros n; simpl.
  - track.
  - track; auto using tracks_import_record.
Qed.

Lemma tracks_import_body json_data user :
  tracks (try_except
            (bind (DataImportService.import_loop json_data 0) (fun imported_count =>
             bind (ActivityLogService.log_activity user "import"
                     ("Imported " ++ str_of_Z imported_count ++ " entries from JSON")
                     None)
                  (fun _ => ret imported_count)))
            (fun e => raise e)).
Proof. track; auto using tracks_import_loop, tracks_log_activity. Qed.

Lemma drawn_skipn c c' k :
  faults c' = skipn k (faults c) -> drawn c c' = firstn k (faults c).
Proof.
  intros H. unfold drawn. rewrite H, length_skipn.
  destruct (Nat.le_gt_cases k (List.length (faults c))) as [Hle|Hgt].
  - f_equal. lia.
  - rewrite (firstn_all2 (n := k)) by lia.
    apply firstn_all2. lia.
Qed.

Lemma tl_skipn {A} k (l : list A) : tl (skipn k l) = skipn (S k) l.
Proof.
  revert l. induction k as [|k IH]; intros l.
  - now destruct l.
  - destruct l as [|x l]; [reflexivity|]. simpl skipn at 1. rewrite IH. reflexivity.
Qed.

Lemma firstn_S_skipn k (l : list bool) :
  In true (firstn (S k) l) ->
  In true (firstn k l) \/ hd false (skipn k l) = true.
Proof.
  replace (S k) with (k + 1)%nat by lia.
  rewrite firstn_plus, in_app_iff. intros [H|H]; [now left|right].
  destruct (skipn k l) as [|x l']; simpl in *; [contradiction|].
  destruct H as [H|[]]. exact H.
Qed.

(** All or nothing: an atomic block either leaves the tables as they were,
    or its body ended normally, unmarked, and the commit went through; an
    exception, or any fault drawn meanwhile, means the former. *)
Lemma atomic_dichotomy {A} (body : M A) c r c' :
  tracks body ->
  atomic body c = (r, c') ->
  (tables c' = tables c
   \/ exists a c1,
        body (with_flags true false c) = (Ok a, c1)
        /\ r = Ok a /\ needs_rollback c1 = false /\ next_fault c1 = false
        /\ tables c' = tables c1 /\ ~ In true (drawn c c'))
  /\ (is_ok r = false -> tables c' = tables c)
  /\ (In true (drawn c c') -> tables c' = tables c).
Proof.
  intros Ht H. unfold atomic in H.
  destruct (body (with_flags true false c)) as [[a|e] c1] eqn:Hb.
  - destruct (Ht (with_flags true false c) _ _ eq_refl Hb) as [_ [_ [k [Hf Hx]]]].
    simpl in Hf, Hx.
    destruct (needs_rollback c1) eqn:Hn.
    + inversion H; subst. simpl. auto.
    + destruct (next_fault c1) eqn:Hnf; inversion H; subst; simpl.
      * auto.
      * assert (Hnone : ~ In true (drawn c (with_flags (in_atomic_block c)
                                             (needs_rollback c) (tick c1)))).
        { rewrite (drawn_skipn _ _ (S k)).
          - intros Hin. apply firstn_S_skipn in Hin. destruct Hin as [Hin|Hin].
            + specialize (Hx Hin). discriminate.
            + rewrite <- Hf in Hin. unfold next_fault in Hnf. congruence.
          - simpl. rewrite Hf. apply tl_skipn. }
        split; [|split].
        -- right. exists a, c1. repeat split; auto.
        -- discriminate.
        -- intros Hin. contradiction.
  - inversion H; subst. simpl. auto.
Qed.

Lemma log_activity_cases user action description ip c :
  let c1 := snd (ActivityLogService.log_activity user action description ip c) in
  (next_fault c = false
   /\ existsb (fun r => ActivityLog.id r =? log_seq c) (activity_logs (tables c)) = false
   /\ tables c1 = set_logs (activity_logs (tables c)
                            ++ [log_row c user action description ip]) (tables c)
   /\ needs_rollback c1 = needs_rollback c)
  \/ (tables c1 = tables c
      /\ (in_atomic_block c = true -> needs_rollback c1 = true)).
Proof.
  unfold ActivityLogService.log_activity, try_except, ActivityLog_objects_create,
    bind, next_log_id, now, execute, ret. simpl.
  change (next_fault (mkConn _ _ _ _ _ _ _ _ _)) with (next_fault c).
  destruct (next_fault c) eqn:Hnf; simpl.
  - right. unfold mark_for_rollback_on_error. simpl.
    destruct (in_atomic_block c); simpl; auto. split; [reflexivity | discriminate].
  - unfold insert_log. simpl.
    destruct (existsb _ _) eqn:Hex; simpl.
    + right. unfold mark_for_rollback_on_error. simpl.
      destruct (in_atomic_block c); simpl; auto. split; [reflexivity | discriminate].
    + left. auto.
Qed.

Lemma Forall2_length_eq {A B} (R : A -> B -> Prop) l l' :
  Forall2 R l l' -> List.length l = List.length l'.
Proof. induction 1; simpl; congruence. Qed.

(** What the body of the import comes to when it ends normally and
    unmarked. *)
Lemma import_body_committed json_data user c0 n c1 :
  in_atomic_block c0 = true ->
  needs_rollback c0 = false ->
  try_except
    (bind (DataImportService.import_loop json_data 0) (fun imported_count =>
     bind (ActivityLogService.log_activity user "import"
             ("Imported " ++ str_of_Z imported_count ++ " entries from JSON") None)
          (fun _ => ret imported_count)))
    (fun e => raise e) c0 = (Ok n, c1) ->
  needs_rollback c1 = false ->
  committed json_data user c0 (Ok n) c1.
Proof.
  intros Hat Hnr H Hnr1. unfold try_except, bind in H.
  destruct (DataImportService.import_loop json_data 0 c0) as [[m|e] cL] eqn:Hloop;
    [|discriminate].
  rewrite log_activity_pair in H. unfold ret in H. injection H as Hn Hc.
  subst n c1.
  destruct (import_loop_ok _ _ _ _ _ Hloop) as [Hm [rows [Hst [Hch [_ HcL]]]]].
  pose proof (Forall2_length_eq _ _ _ Hst) as Hlen.
  assert (Hm' : m = Z.of_nat (List.length rows)) by (rewrite Hlen; lia).
  destruct (log_activity_cases user "import"
              ("Imported " ++ str_of_Z m ++ " entries from JSON") None cL)
    as [[_ [_ [Ht _]]]|[_ Hmark]].
  - exists rows, (log_row cL user "import"
                    ("Imported " ++ str_of_Z m ++ " entries from JSON") None).
    split; [now rewrite Hm'|]. split; [exact Hlen|].
    split; [exact Hst|]. split; [exact Hch|].
    split; [reflexivity|]. split; [reflexivity|].
    split; [simpl; now rewrite Hm'|].
    refine (eq_trans Ht _). rewrite HcL. reflexivity.
  - assert (HatL : in_atomic_block cL = true) by now rewrite HcL.
    pose proof (eq_trans (eq_sym (Hmark HatL)) Hnr1) as Habs. discriminate.
Qed.

Lemma row_of_record_key d pk t row :
  row_of_record d pk t = Ok row ->
  CulturalEntry.id row = pk /\ CulturalEntry.created_at row = t
  /\ CulturalEntry.frequency row = 0 /\ CulturalEntry.is_active row = true.
Proof.
  unfold row_of_record, and_then. intros Hrow.
  repeat match type of Hrow with
         | match ?x with Ok _ => _ | Raise _ => _ end = _ =>
             destruct x; [|discriminate]
         end.
  injection Hrow as <-. auto.
Qed.

Lemma accepted_obj d :
  accepted (JObj d) = (dict_has "isiZulu_text" d && dict_has "english_translation" d)%bool.
Proof. unfold accepted. now rewrite has_required_obj. Qed.

Lemma fresh_not_exists c :
  sequences_fresh c ->
  existsb (fun r => CulturalEntry.id r =? entry_seq c) (cultural_entries (tables c))
  = false.
Proof.
  intros [Hf _]. apply not_true_iff_false. intros H.
  apply existsb_exists in H. destruct H as [r [Hr Hid]].
  apply Z.eqb_eq in Hid. specialize (Hf r Hr). lia.
Qed.

Lemma fresh_log_not_exists c :
  sequences_fresh c ->
  existsb (fun r => ActivityLog.id r =? log_seq c) (activity_logs (tables c)) = false.
Proof.
  intros [_ Hf]. apply not_true_iff_false. intros H.
  apply existsb_exists in H. destruct H as [r [Hr Hid]].
  apply Z.eqb_eq in Hid. specialize (Hf r Hr). lia.
Qed.

Lemma import_record_runs entry_data c :
  fault_free c -> sequences_fresh c -> importable entry_data ->
  exists b c1,
    DataImportService.import_record entry_data c = (Ok b, c1)
    /\ fault_free c1 /\ sequences_fresh c1.
Proof.
  intros Hff Hfresh [d [-> Himp]].
  rewrite import_record_eq, has_required_obj. rewrite accepted_obj in Himp.
  destruct (dict_has "isiZulu_text" d && dict_has "english_translation" d)%bool.
  - destruct (Himp eq_refl) as [Hconv Hch].
    unfold create_entry_row.
    specialize (Hconv (entry_seq c) (clock c)).
    destruct (row_of_record d (entry_seq c) (clock c)) as [row|] eqn:Hrow;
      [|discriminate].
    destruct (row_of_record_key _ _ _ _ Hrow) as [Hid _].
    cbv zeta. rewrite (fault_free_next c Hff).
    unfold insert_entry. simpl tables. rewrite Hid.
    rewrite (fresh_not_exists c Hfresh). rewrite Hch.
    eexists. eexists. split; [reflexivity|]. split.
    + apply fault_free_tick in Hff. exact Hff.
    + destruct Hfresh as [He Hl]. split; simpl.
      * intros e Hin. apply in_app_iff in Hin. destruct Hin as [Hin|[<-|[]]].
        -- specialize (He e Hin). lia.
        -- lia.
      * exact Hl.
  - exists false, c. auto.
Qed.

Lemma import_loop_runs json_data :
  forall n c,
    fault_free c -> sequences_fresh c -> Forall importable json_data ->
    exists m c',
      DataImportService.import_loop json_data n c = (Ok m, c')
      /\ fault_free c' /\ sequences_fresh c'.
Proof.
  induction json_data as [|entry_data l IH]; intros n c Hff Hfresh Hall.
  - exists n, c. simpl. auto.
  - inversion Hall as [|? ? Himp Hall']; subst.
    destruct (import_record_runs entry_data c Hff Hfresh Himp)
      as [b [c1 [Hrec [Hff1 Hfresh1]]]].
    simpl. unfold bind. rewrite Hrec. now apply IH.
Qed.

(** A batch of importable records on a connection without faults goes
    through. *)
Lemma import_runs json_data user c :
  fault_free c -> sequences_fresh c -> Forall importable json_data ->
  committed json_data user c
    (fst (DataImportService.import_from_json json_data user c))
    (snd (DataImportService.import_from_json json_data user c)).
Proof.
  intros Hff Hfresh Hall.
  set (c0 := with_flags true false c).
  assert (Hff0 : fault_free c0) by exact Hff.
  assert (Hfresh0 : sequences_fresh c0) by exact Hfresh.
  destruct (import_loop_runs json_data 0 c0 Hff0 Hfresh0 Hall)
    as [m [cL [Hloop [HffL HfreshL]]]].
  destruct (import_loop_ok _ _ _ _ _ Hloop) as [_ [rows [_ [_ [_ HcL]]]]].
  set (description := "Imported " ++ str_of_Z m ++ " entries from JSON").
  destruct (log_activity_cases user "import" description None cL)
    as [[_ [_ [Ht Hnr]]]|[_ Hmark]].
  - assert (Hbody :
      try_except
        (bind (DataImportService.import_loop json_data 0) (fun imported_count =>
         bind (ActivityLogService.log_activity user "import"
                 ("Imported " ++ str_of_Z imported_count ++ " entries from JSON") None)
              (fun _ => ret imported_count)))
        (fun e => raise e) c0
      = (Ok m, snd (ActivityLogService.log_activity user "import" description None cL))).
    { unfold try_except, bind. rewrite Hloop.
      fold description. now rewrite log_activity_pair. }
    set (c1 := snd (ActivityLogService.log_activity user "import" description None cL))
      in *.
    assert (Hnr1 : needs_rollback c1 = false) by (rewrite Hnr, HcL; reflexivity).
    pose proof (import_body_committed json_data user c0 m c1 eq_refl eq_refl Hbody Hnr1)
      as Hcom.
    assert (Hnf1 : next_fault c1 = false).
    { apply fault_free_next. unfold fault_free, c1.
      unfold ActivityLogService.log_activity, try_except, ActivityLog_objects_create,
        bind, next_log_id, now, execute, ret. simpl.
      change (next_fault (mkConn _ _ _ _ _ _ _ _ _)) with (next_fault cL).
      rewrite (fault_free_next cL HffL). unfold insert_log. simpl.
      rewrite (fresh_log_not_exists cL HfreshL). simpl.
      apply fault_free_tick in HffL. exact HffL. }
    unfold DataImportService.import_from_json, atomic.
    fold c0. rewrite Hbody, Hnr1, Hnf1. simpl.
    destruct Hcom as [rows' [log Hc]]. exists rows', log. exact Hc.
  - exfalso.
    assert (Hok : next_fault cL = false) by now apply fault_free_next.
    assert (Hex : existsb (fun r => ActivityLog.id r =? log_seq cL)
                          (activity_logs (tables cL)) = false)
      by now apply fresh_log_not_exists.
    assert (HatL : in_atomic_block cL = true) by now rewrite HcL.
    specialize (Hmark HatL). revert Hmark.
    unfold ActivityLogService.log_activity, try_except, ActivityLog_objects_create,
      bind, next_log_id, now, execute, ret. simpl.
    change (next_fault (mkConn _ _ _ _ _ _ _ _ _)) with (next_fault cL).
    rewrite Hok. unfold insert_log. simpl. rewrite Hex. simpl.
    rewrite HcL. simpl. discriminate.
Qed.

(** C4: the import batch is atomic.  If [import_from_json] raises, or if
    any statement of the batch met a persistence fault (even one that was
    swallowed on the way), the tables are exactly what they were before the
    call.  Otherwise the batch is committed as a whole: one row per
    accepted record, in order, with that record's values, and the 'import'
    log row; such records carry no nested payloads, so nothing of them is
    missing.  A batch of importable records on a connection without faults
    is committed. *)
Theorem import_is_atomic :
  forall json_data user c,
    let r := fst (DataImportService.import_from_json json_data user c) in
    let c' := snd (DataImportService.import_from_json json_data user c) in
    (is_ok r = false -> tables c' = tables c)
    /\ (In true (drawn c c') -> tables c' = tables c)
    /\ (tables c' = tables c \/ committed json_data user c r c')
    /\ (fault_free c -> sequences_fresh c -> Forall importable json_data ->
        committed json_data user c r c').
Proof.
  intros json_data user c r c'.
  assert (Hrun : DataImportService.import_from_json json_data user c = (r, c'))
    by (subst r c'; now destruct (DataImportService.import_from_json json_data user c)).
  unfold DataImportService.import_from_json in Hrun.
  destruct (atomic_dichotomy _ _ _ _ (tracks_import_body json_data user) Hrun)
    as [Hcases [Hraise Hfault]].
  split; [exact Hraise|]. split; [exact Hfault|]. split.
  - destruct Hcases as [Hsame|[n [c1 [Hbody [Hr [Hnr [_ [Ht _]]]]]]]]; [now left|].
    right.
    pose proof (import_body_committed json_data user (with_flags true false c) n c1
                  eq_refl eq_refl Hbody Hnr) as [rows [log Hc]].
    exists rows, log. rewrite Hr, Ht. exact Hc.
  - intros Hff Hfresh Hall. subst r c'. now apply import_runs.
Qed.

Lemma importable_valid_record : importable valid_record.
Proof.
  exists [("isiZulu_text", JStr "Ubuntu"); ("english_translation", JStr "Humanity")].
  split; [reflexivity|]. intros _. split; [intros pk t|]; reflexivity.
Qed.

Lemma importable_incomplete_record : importable incomplete_record.
Proof.
  exists [("isiZulu_text", JStr "Sawubona")].
  split; [reflexivity|]. intros H. discriminate H.
Qed.

Lemma fresh_sequences_fresh faults : sequences_fresh (fresh faults).
Proof. split; intros x []. Qed.

Lemma import_is_atomic_witness :
  (fault_free (fresh [])
   /\ sequences_fresh (fresh [])
   /\ Forall importable [valid_record; incomplete_record]
   /\ committed [valid_record; incomplete_record] None (fresh [])
        (fst (DataImportService.import_from_json [valid_record; incomplete_record]
                None (fresh [])))
        (snd (DataImportService.import_from_json [valid_record; incomplete_record]
                None (fresh []))))
  /\ (is_ok (fst (DataImportService.import_from_json [valid_record; second_record]
                    None (fresh [false; true]))) = false
      /\ In true (drawn (fresh [false; true])
                    (snd (DataImportService.import_from_json
                            [valid_record; second_record] None (fresh [false; true]))))
      /\ tables (snd (DataImportService.import_from_json [valid_record; second_record]
                        None (fresh [false; true])))
         = tables (fresh [false; true])).
Proof.
  split.
  - assert (Hall : Forall importable [valid_record; incomplete_record])
      by (repeat constructor;
          [apply importable_valid_record | apply importable_incomplete_record]).
    split; [constructor|]. split; [apply fresh_sequences_fresh|]. split; [exact Hall|].
    exact (proj2 (proj2 (proj2 (import_is_atomic [valid_record; incomplete_record]
                                  None (fresh []))))
             (Forall_nil _) (fresh_sequences_fresh []) Hall).
  - split; [reflexivity|]. split; [vm_compute; tauto|].
    exact (proj1 (import_is_atomic [valid_record; second_record] None
                    (fresh [false; true])) eq_refl).
Defined.

(** ** Skipped records *)

Lemma import_loop_skip before entry_data after :
  DataImportService.has_required_fields entry_data = Ok false ->
  forall n c,
    DataImportService.import_loop (before ++ entry_data :: after) n c
    = DataImportService.import_loop (before ++ after) n c.
Proof.
  intros Hskip. induction before as [|x before IH]; intros n c; simpl.
  - unfold bind. now rewrite (import_record_skipped _ _ Hskip).
  - unfold bind. destruct (DataImportService.import_record x c) as [[b|e] c1];
      [apply IH | reflexivity].
Qed.

Lemma import_ok_count json_data user c n c' :
  DataImportService.import_from_json json_data user c = (Ok n, c') ->
  n = Z.of_nat (List.length (filter accepted json_data)).
Proof.
  unfold DataImportService.import_from_json, atomic, try_except, bind.
  destruct (DataImportService.import_loop json_data 0 (with_flags true false c))
    as [[m|e] cL] eqn:Hloop.
  - rewrite log_activity_pair. unfold ret.
    destruct (import_loop_ok _ _ _ _ _ Hloop) as [Hm _].
    destruct (needs_rollback _).
    + intros H. injection H as <- _. lia.
    + destruct (next_fault _); [discriminate|].
      intros H. injection H as <- _. lia.
  - unfold raise. discriminate.
Qed.

(** C7: a record that lacks a required key is passed over: the import of a
    batch is the import of the batch without that record (same result, same
    final state), so it is neither an error nor counted.  Being accepted is
    having both keys, and the count an import returns is the number of
    accepted records.  A valid record followed by one without
    [english_translation] gives [imported_count = 1] and exactly one row. *)
Theorem import_skips_incomplete_records :
  (forall before entry_data after user c,
      DataImportService.has_required_fields entry_data = Ok false ->
      DataImportService.import_from_json (before ++ entry_data :: after) user c
      = DataImportService.import_from_json (before ++ after) user c)
  /\ (forall d,
         DataImportService.has_required_fields (JObj d)
         = Ok (dict_has "isiZulu_text" d && dict_has "english_translation" d)%bool)
  /\ (forall json_data user c n c',
         DataImportService.import_from_json json_data user c = (Ok n, c') ->
         n = Z.of_nat (List.length (filter accepted json_data)))
  /\ (let outcome := DataImportService.import_from_json
                       [valid_record; incomplete_record] None (fresh []) in
      fst outcome = Ok 1
      /\ cultural_entries (tables (snd outcome))
         = [CulturalEntry.mk 1 "Ubuntu" "Humanity" "cultural" "cultural"
                             EmptyString EmptyString 0 true 0 0]
      /\ map ActivityLog.description (activity_logs (tables (snd outcome)))
         = ["Imported 1 entries from JSON"]).
Proof.
  split; [|split; [|split]].
  - intros before entry_data after user c Hskip.
    unfold DataImportService.import_from_json, atomic, try_except, bind.
    now rewrite (import_loop_skip before entry_data after Hskip).
  - exact has_required_obj.
  - exact import_ok_count.
  - repeat split.
Qed.

Lemma import_skips_incomplete_records_witness :
  DataImportService.has_required_fields incomplete_record = Ok false
  /\ DataImportService.import_from_json ([valid_record] ++ incomplete_record :: [])
       None (fresh [])
     = DataImportService.import_from_json ([valid_record] ++ []) None (fresh [])
  /\ 1 = Z.of_nat (List.length (filter accepted [valid_record; incomplete_record])).
Proof.
  split; [reflexivity|]. split.
  - exact (proj1 import_skips_incomplete_records [valid_record] incomplete_record []
             None (fresh []) eq_refl).
  - exact (proj1 (proj2 (proj2 import_skips_incomplete_records))
             [valid_record; incomplete_record] None (fresh []) 1 _ eq_refl).
Defined.

(** ** Nested payloads *)

Lemma carries_children_outcome entry_data :
  carries_children entry_data = true -> children_outcome entry_data <> Ok true.
Proof.
  unfold carries_children. intros H Hok.
  apply children_outcome_ok in Hok. destruct Hok as [_ [He Ht]].
  rewrite He, Ht in H. discriminate.
Qed.

Lemma import_fails_on json_data user c entry_data :
  In entry_data json_data -> accepted entry_data = true ->
  children_outcome entry_data <> Ok true ->
  is_ok (fst (DataImportService.import_from_json json_data user c)) = false
  /\ tables (snd (DataImportService.import_from_json json_data user c)) = tables c.
Proof.
  intros Hin Hacc Hch.
  assert (Hfail : is_ok (fst (DataImportService.import_from_json json_data user c))
                  = false).
  { destruct (DataImportService.import_from_json json_data user c) as [[n|e] c'] eqn:Hrun;
      [|reflexivity].
    exfalso. unfold DataImportService.import_from_json, atomic, try_except, bind in Hrun.
    destruct (DataImportService.import_loop json_data 0 (with_flags true false c))
      as [[m|e] cL] eqn:Hloop.
    - destruct (import_loop_ok _ _ _ _ _ Hloop) as [_ [rows [_ [Hall _]]]].
      rewrite Forall_forall in Hall. apply Hch, Hall.
      apply filter_In. auto.
    - unfold raise in Hrun. discriminate. }
  split; [exact Hfail|].
  destruct (DataImportService.import_from_json json_data user c) as [r c'] eqn:Hrun.
  unfold DataImportService.import_from_json in Hrun.
  exact (proj1 (proj2 (atomic_dichotomy _ _ _ _ (tracks_import_body json_data user)
                         Hrun)) Hfail).
Qed.

(** C2 (the code departs from it): the import builds the child rows with
    [CulturalEntry.objects.create], whose constructor knows none of the
    child fields; the call raises [TypeError], so a batch with an accepted
    record that carries a usage example or an additional translation fails
    as a whole and stores nothing.  The project's own seed data is such a
    batch.  [CulturalEntrySerializer.create], which goes through
    [UsageExample.objects.create], does attach the example. *)
Theorem import_children_raise :
  (forall entry isizulu english language translation c,
      CulturalEntry_objects_create
        [("entry", PEntry entry); ("isiZulu_example", PJson isizulu);
         ("english_example", PJson english)] c = (Raise TypeError, c)
      /\ CulturalEntry_objects_create
           [("entry", PEntry entry); ("language", PStr language);
            ("translation", PJson translation)] c = (Raise TypeError, c))
  /\ (forall json_data user c entry_data,
         In entry_data json_data -> accepted entry_data = true ->
         carries_children entry_data = true ->
         is_ok (fst (DataImportService.import_from_json json_data user c)) = false
         /\ tables (snd (DataImportService.import_from_json json_data user c))
            = tables c)
  /\ (fst (DataImportService.import_from_json seed_data.initial_data None (fresh []))
      = Raise TypeError
      /\ tables (snd (DataImportService.import_from_json seed_data.initial_data None
                        (fresh []))) = empty_tables
      /\ fst (seed_data.handle (fresh [])) = Ok (seed_data.ERROR TypeError))
  /\ (let outcome := CulturalEntrySerializer.create create_payload (fresh []) in
      is_ok (fst outcome) = true
      /\ map UsageExample.entry (usage_examples (tables (snd outcome))) = [1]
      /\ map CulturalEntry.id (cultural_entries (tables (snd outcome))) = [1]).
Proof.
  split; [|split; [|split]].
  - intros. split; reflexivity.
  - intros json_data user c entry_data Hin Hacc Hch.
    apply import_fails_on with (entry_data := entry_data); auto.
    now apply carries_children_outcome.
  - repeat split.
  - repeat split.
Qed.

Lemma import_children_raise_witness :
  In (hd JNull seed_data.initial_data) seed_data.initial_data
  /\ accepted (hd JNull seed_data.initial_data) = true
  /\ carries_children (hd JNull seed_data.initial_data) = true
  /\ is_ok (fst (DataImportService.import_from_json seed_data.initial_data None
                   (fresh []))) = false
  /\ tables (snd (DataImportService.import_from_json seed_data.initial_data None
                    (fresh []))) = tables (fresh []).
Proof.
  split; [left; reflexivity|]. split; [reflexivity|]. split; [reflexivity|].
  exact (proj1 (proj2 import_children_raise) seed_data.initial_data None (fresh [])
           (hd JNull seed_data.initial_data) (or_introl eq_refl) eq_refl eq_refl).
Defined.

(** C10: the acceptance test of the import looks at the keys only.  A record
    whose two required keys hold empty strings is accepted and counted, and
    a row with empty [isiZulu_text] and [english_translation] is stored;
    the same texts are refused by the validation of the create action. *)
Theorem import_accepts_empty_texts :
  (forall d,
      DataImportService.has_required_fields (JObj d)
      = Ok (dict_has "isiZulu_text" d && dict_has "english_translation" d)%bool)
  /\ accepted empty_texts_record = true
  /\ (let outcome := DataImportService.import_from_json [empty_texts_record] None
                       (fresh []) in
      fst outcome = Ok 1
      /\ cultural_entries (tables (snd outcome))
         = [CulturalEntry.mk 1 EmptyString EmptyString "cultural" "cultural"
                             EmptyString EmptyString 0 true 0 0])
  /\ CulturalEntrySerializer.run_validation false
       (JObj [("isiZulu_text", JStr EmptyString);
              ("english_translation", JStr EmptyString);
              ("part_of_speech", JStr "cultural"); ("genre", JStr "cultural");
              ("cultural_context", JStr "context")])
     = Raise ValidationError.
Proof.
  split; [exact has_required_obj|]. repeat split.
Qed.

(** ** Export, then import *)

Lemma log_activity_only_logs user action description ip c :
  exists l,
    tables (snd (ActivityLogService.log_activity user action description ip c))
    = set_logs l (tables c).
Proof.
  destruct (log_activity_cases user action description ip c)
    as [[_ [_ [Ht _]]]|[Ht _]].
  - eexists. exact Ht.
  - exists (activity_logs (tables c)). rewrite Ht. now destruct (tables c).
Qed.

Lemma exported_eq request c :
  exported request c
  = map (CulturalEntrySerializer.CulturalEntry_representation (tables c))
        (active_entries (tables c)).
Proof.
  unfold exported, dispatch. simpl.
  unfold CulturalEntryViewSet.export_data, bind, lift,
    CulturalEntryViewSet.call_get_client_ip.
  rewrite log_activity_pair.
  destruct (log_activity_only_logs
              (if CulturalEntryViewSet.is_authenticated request
               then user request else None)
              "export" "Exported corpus data"
              (CulturalEntryViewSet.get_client_ip request) c) as [l Hl].
  unfold CulturalEntryViewSet.get_queryset, objects_filter,
    CulturalEntryViewSet.current_tables. simpl.
  unfold response_items. simpl. rewrite Hl. reflexivity.
Qed.

Lemma representation_outcome t e :
  accepted (CulturalEntrySerializer.CulturalEntry_representation t e) = true
  /\ children_outcome (CulturalEntrySerializer.CulturalEntry_representation t e)
     <> Ok true
  /\ translations_payload (CulturalEntrySerializer.CulturalEntry_representation t e)
     = Raise AttributeError.
Proof.
  split; [reflexivity|]. split; [|reflexivity].
  unfold children_outcome, CulturalEntrySerializer.CulturalEntry_representation.
  simpl. destruct (map _ (order_examples (examples_of t e))) as [|x xs] eqn:Hx.
  - discriminate.
  - destruct (order_examples (examples_of t e)); simpl in Hx; [discriminate|].
    injection Hx as <- _. discriminate.
Qed.

(** C1, as the code has it: the export lists one record per active entry,
    with the text and the metadata under the keys the import reads, so that
    the creation step of the import rebuilds a row with the same text and
    metadata; but it lists [additional_translations] as an array, on which
    the import's loop over the items of a mapping raises.  The import of a
    non-empty export therefore fails and stores nothing; the empty export
    imports as zero entries. *)
Theorem export_then_import :
  (forall request c,
      exported request c
      = map (CulturalEntrySerializer.CulturalEntry_representation (tables c))
            (active_entries (tables c)))
  /\ (forall t e pk ts,
         exists d,
           CulturalEntrySerializer.CulturalEntry_representation t e = JObj d
           /\ accepted (JObj d) = true
           /\ (exists row, row_of_record d pk ts = Ok row /\ same_content e row)
           /\ translations_payload (JObj d) = Raise AttributeError
           /\ children_outcome (JObj d) <> Ok true)
  /\ (forall request c user c0,
         active_entries (tables c) <> [] ->
         is_ok (fst (DataImportService.import_from_json (exported request c) user c0))
         = false
         /\ tables (snd (DataImportService.import_from_json (exported request c)
                           user c0)) = tables c0)
  /\ (forall request c,
         active_entries (tables c) = [] ->
         fst (DataImportService.import_from_json (exported request c) None (fresh []))
         = Ok 0
         /\ cultural_entries
              (tables (snd (DataImportService.import_from_json (exported request c)
                              None (fresh [])))) = []).
Proof.
  split; [exact exported_eq|]. split; [|split].
  - intros t e pk ts. eexists. split; [reflexivity|].
    destruct (representation_outcome t e) as [Hacc [Hch Htr]].
    split; [exact Hacc|]. split; [|split; [exact Htr | exact Hch]].
    eexists. split; [reflexivity|]. repeat split.
  - intros request c user c0 Hne. rewrite exported_eq.
    destruct (active_entries (tables c)) as [|e l]; [contradiction|].
    destruct (representation_outcome (tables c) e) as [Hacc [Hch _]].
    eapply import_fails_on; [left; reflexivity | exact Hacc | exact Hch].
  - intros request c Hempty. rewrite exported_eq, Hempty. split; reflexivity.
Qed.

Lemma export_then_import_witness :
  (active_entries (tables (conn_of one_entry [])) <> []
   /\ is_ok (fst (DataImportService.import_from_json
                    (exported (mkRequest None [] [] JNull None) (conn_of one_entry []))
                    None (fresh []))) = false
   /\ tables (snd (DataImportService.import_from_json
                     (exported (mkRequest None [] [] JNull None) (conn_of one_entry []))
                     None (fresh []))) = tables (fresh []))
  /\ (active_entries (tables (fresh [])) = []
      /\ fst (DataImportService.import_from_json
                (exported (mkRequest None [] [] JNull None) (fresh [])) None (fresh []))
         = Ok 0).
Proof.
  split.
  - assert (Hne : active_entries (tables (conn_of one_entry [])) <> [])
      by (vm_compute; discriminate).
    split; [exact Hne|].
    exact (proj1 (proj2 (proj2 export_then_import))
             (mkRequest None [] [] JNull None) (conn_of one_entry []) None (fresh [])
             Hne).
  - split; [reflexivity|].
    exact (proj1 (proj2 (proj2 (proj2 export_then_import))
                    (mkRequest None [] [] JNull None) (fresh []) eq_refl)).
Defined.

(** The round trip the specification words fails on a store with one active
    entry and no children: the export has one record, and its import raises
    instead of returning 1. *)
Lemma round_trip_counterexample :
  List.length (exported (mkRequest None [] [] JNull None) (conn_of one_entry [])) = 1%nat
  /\ DataImportService.import_from_json
       (exported (mkRequest None [] [] JNull None) (conn_of one_entry []))
       None (fresh [])
     = (Raise AttributeError, mkConn empty_tables 2 1 1 1 1 [] false false)
  /\ ~ round_trips (mkRequest None [] [] JNull None) (conn_of one_entry []).
Proof.
  split; [reflexivity|]. split; [reflexivity|].
  unfold round_trips. intros [H _]. vm_compute in H. discriminate H.
Qed.

(** ** Word counts *)

Lemma Counter_snoc ws w :
  AnalyticsService.Counter (ws ++ [w])
  = AnalyticsService.count_word w (AnalyticsService.Counter ws).
Proof. unfold AnalyticsService.Counter. now rewrite fold_left_app. Qed.

Lemma count_word_new w cs :
  ~ In w (map fst cs) -> AnalyticsService.count_word w cs = (cs ++ [(w, 1%nat)])%list.
Proof.
  induction cs as [|[k n] cs IH]; simpl; intros Hn; [reflexivity|].
  destruct (String.eqb_spec k w) as [->|Hne]; [tauto|].
  rewrite IH; tauto.
Qed.

Lemma count_word_old w cs :
  In w (map fst cs) ->
  exists l1 n l2,
    cs = (l1 ++ (w, n) :: l2)%list
    /\ AnalyticsService.count_word w cs = (l1 ++ (w, S n) :: l2)%list
    /\ ~ In w (map fst l1).
Proof.
  induction cs as [|[k n] cs IH]; simpl; intros Hin; [contradiction|].
  destruct (String.eqb_spec k w) as [->|Hne].
  - exists [], n, cs. simpl. auto.
  - destruct Hin as [Hk|Hin]; [contradiction|].
    destruct (IH Hin) as [l1 [m [l2 [-> [Hc Hl1]]]]].
    exists ((k, n) :: l1), m, l2. simpl. rewrite Hc.
    repeat split; auto. intros [Hk|Hk]; auto.
Qed.

Lemma count_word_keys w cs :
  map fst (AnalyticsService.count_word w cs)
  = if in_dec string_dec w (map fst cs) then map fst cs else (map fst cs ++ [w])%list.
Proof.
  destruct (in_dec string_dec w (map fst cs)) as [Hin|Hn].
  - destruct (count_word_old w cs Hin) as [l1 [n [l2 [-> [-> _]]]]].
    now rewrite !map_app.
  - rewrite (count_word_new w cs Hn), map_app. reflexivity.
Qed.

Lemma count_occ_snoc ws w x :
  count_occ string_dec (ws ++ [w]) x
  = (count_occ string_dec ws x + if string_dec w x then 1 else 0)%nat.
Proof. rewrite count_occ_app. simpl. now destruct (string_dec w x). Qed.

Lemma first_index_bound w ws : In w ws -> (first_index w ws < List.length ws)%nat.
Proof.
  induction ws as [|x ws IH]; simpl; [contradiction|].
  intros Hin. destruct (String.eqb_spec x w) as [->|Hne]; [lia|].
  destruct Hin as [Hx|Hin]; [contradiction|]. specialize (IH Hin). lia.
Qed.

Lemma first_index_snoc_old x w ws :
  In x ws -> first_index x (ws ++ [w]) = first_index x ws.
Proof.
  induction ws as [|y ws IH]; simpl; [contradiction|].
  intros Hin. destruct (String.eqb_spec y x) as [->|Hne]; [reflexivity|].
  destruct Hin as [Hy|Hin]; [contradiction|]. now rewrite IH.
Qed.

Lemma first_index_snoc_new w ws :
  ~ In w ws -> first_index w (ws ++ [w]) = List.length ws.
Proof.
  induction ws as [|y ws IH]; simpl; intros Hn.
  - now rewrite String.eqb_refl.
  - destruct (String.eqb_spec y w) as [->|Hne]; [tauto|]. rewrite IH; tauto.
Qed.

Lemma StronglySorted_snoc {A} (R : A -> A -> Prop) l x :
  StronglySorted R l -> (forall y, In y l -> R y x) -> StronglySorted R (l ++ [x]).
Proof.
  induction 1 as [|a l Hl IH Ha]; intros Hx; simpl.
  - repeat constructor.
  - constructor.
    + apply IH. intros y Hy. apply Hx. now right.
    + apply Forall_app. split; [assumption|].
      constructor; [apply Hx; now left | constructor].
Qed.

Lemma StronglySorted_weaken {A} (R R' : A -> A -> Prop) l :
  (forall a b, In a l -> In b l -> R a b -> R' a b) ->
  StronglySorted R l -> StronglySorted R' l.
Proof.
  intros Hw H. induction H as [|a l Hl IH Ha]; [constructor|].
  constructor.
  - apply IH. intros x y Hx Hy. apply Hw; now right.
  - rewrite Forall_forall in *. intros y Hy. apply Hw; simpl; auto.
Qed.

Lemma counted_Counter ws : counted ws (AnalyticsService.Counter ws).
Proof.
  induction ws as [|w ws IH] using rev_ind.
  - split; simpl; [constructor | tauto | intros x n [] | constructor].
  - rewrite Counter_snoc. set (cs := AnalyticsService.Counter ws) in *.
    destruct IH as [Hnd Hkeys Hcount Horder].
    assert (Hk : map fst (AnalyticsService.count_word w cs)
                 = if in_dec string_dec w (map fst cs) then map fst cs
                   else (map fst cs ++ [w])%list) by apply count_word_keys.
    split.
    + rewrite Hk. destruct (in_dec string_dec w (map fst cs)) as [Hin|Hn]; [assumption|].
      apply NoDup_app; [assumption | repeat constructor; simpl; tauto|].
      intros x Hx [<-|[]]. contradiction.
    + intros x. rewrite Hk, in_app_iff. simpl.
      destruct (in_dec string_dec w (map fst cs)) as [Hin|Hn].
      * rewrite Hkeys. split; [tauto|]. intros [H|[<-|[]]]; [assumption|].
        now apply Hkeys.
      * rewrite in_app_iff, Hkeys. simpl. tauto.
    + intros x n Hin. rewrite count_occ_snoc.
      destruct (in_dec string_dec w (map fst cs)) as [Hw|Hn].
      * destruct (count_word_old w cs Hw) as [l1 [m [l2 [Hcs [Hcw Hl1]]]]].
        rewrite Hcw in Hin. apply in_app_iff in Hin.
        assert (Hwm : m = count_occ string_dec ws w)
          by (apply Hcount; rewrite Hcs; apply in_app_iff; right; now left).
        assert (Hnd' : NoDup (map fst cs)) by assumption.
        rewrite Hcs, map_app in Hnd'. simpl in Hnd'.
        apply NoDup_remove_2 in Hnd'. rewrite in_app_iff in Hnd'.
        destruct Hin as [Hin|[Hin|Hin]].
        -- assert (x <> w).
           { intros ->. apply Hl1. apply in_map_iff. now exists (w, n). }
           destruct (string_dec w x); [congruence|].
           rewrite Nat.add_0_r. apply Hcount. rewrite Hcs. apply in_app_iff. now left.
        -- injection Hin as <- <-. destruct (string_dec w w); [lia | congruence].
        -- assert (x <> w).
           { intros ->. apply Hnd'. right. apply in_map_iff. now exists (w, n). }
           destruct (string_dec w x); [congruence|].
           rewrite Nat.add_0_r. apply Hcount. rewrite Hcs. apply in_app_iff.
           right. now right.
      * rewrite (count_word_new w cs Hn) in Hin. apply in_app_iff in Hin.
        destruct Hin as [Hin|[Hin|[]]].
        -- assert (x <> w).
           { intros ->. apply Hn. apply in_map_iff. now exists (w, n). }
           destruct (string_dec w x); [congruence|].
           rewrite Nat.add_0_r. now apply Hcount.
        -- injection Hin as <- <-. destruct (string_dec w w); [|congruence].
           assert (Hz : count_occ string_dec ws w = 0%nat).
           { apply count_occ_not_In. intros Hw. apply Hn. now apply Hkeys. }
           lia.
    + rewrite Hk.
      assert (Hold : StronglySorted
                       (fun a b => (first_index a (ws ++ [w]) < first_index b (ws ++ [w]))%nat)
                       (map fst cs)).
      { eapply StronglySorted_weaken; [|exact Horder].
        intros a b Ha Hb Hab. cbv beta.
        rewrite !first_index_snoc_old by now apply Hkeys. exact Hab. }
      destruct (in_dec string_dec w (map fst cs)) as [Hin|Hn]; [exact Hold|].
      apply StronglySorted_snoc; [exact Hold|].
      intros y Hy. rewrite first_index_snoc_new by (intros Hw; apply Hn; now apply Hkeys).
      rewrite first_index_snoc_old by now apply Hkeys.
      apply first_index_bound. now apply Hkeys.
Qed.

(** ** The stable sort *)

Section StableSort.

Variable A : Type.
Variable before : A -> A -> bool.
Variable P : A -> A -> Prop.

Hypothesis before_asym : forall a b, before a b = true -> before b a = false.
Hypothesis before_neg_trans :
  forall a b c, before a c = true -> before a b = true \/ before b c = true.

(** [a] comes first: strictly before [b], or not after it and earlier in
    the input. *)
Let R (a b : A) : Prop := before a b = true \/ (before b a = false /\ P a b).

Lemma insert_by_In x (l : list A) y : In y (insert_by before x l) <-> y = x \/ In y l.
Proof.
  split.
  - intros H. apply (Permutation_in _ (insert_by_perm before x l)) in H.
    destruct H; auto.
  - intros H. apply (Permutation_in _ (Permutation_sym (insert_by_perm before x l))).
    destruct H; [left; auto | now right].
Qed.

Lemma insert_by_sorted x s :
  StronglySorted R s -> (forall y, In y s -> P x y) ->
  StronglySorted R (insert_by before x s).
Proof.
  induction 1 as [|y s Hs IH Hy]; intros Hx; simpl.
  - repeat constructor.
  - destruct (before y x) eqn:Hyx.
    + constructor.
      * apply IH. intros z Hz. apply Hx. now right.
      * rewrite Forall_forall in *. intros z Hz. apply insert_by_In in Hz.
        destruct Hz as [->|Hz]; [now left | now apply Hy].
    + constructor; [constructor; assumption|].
      constructor.
      * right. split; [assumption | apply Hx; now left].
      * rewrite Forall_forall in *. intros z Hz. right.
        split; [|apply Hx; now right].
        destruct (before z x) eqn:Hzx; [|reflexivity]. exfalso.
        destruct (before_neg_trans z y x Hzx) as [Hzy|Hyx']; [|congruence].
        destruct (Hy z Hz) as [Hyz|[Hzy' _]]; [|congruence].
        apply before_asym in Hyz. congruence.
Qed.

Lemma sort_by_sorted l :
  StronglySorted P l -> StronglySorted R (sort_by before l).
Proof.
  induction 1 as [|x l Hl IH Hx]; simpl.
  - constructor.
  - apply insert_by_sorted; [exact IH|].
    intros y Hy. apply sort_by_In in Hy. rewrite Forall_forall in Hx. now apply Hx.
Qed.

End StableSort.

Lemma StronglySorted_map {A B} (f : A -> B) (R : B -> B -> Prop) l :
  StronglySorted R (map f l) <-> StronglySorted (fun a b => R (f a) (f b)) l.
Proof.
  induction l as [|x l IH]; simpl; split; intros H; try constructor;
    inversion H; subst.
  - now apply IH.
  - rewrite Forall_forall in *. intros y Hy. match goal with
      | Hf : forall _, In _ (map f l) -> _ |- _ => apply Hf; now apply in_map
      end.
  - now apply IH.
  - rewrite Forall_forall in *. intros y Hy. apply in_map_iff in Hy.
    destruct Hy as [z [<- Hz]]. auto.
Qed.

Lemma StronglySorted_firstn {A} (R : A -> A -> Prop) n l :
  StronglySorted R l -> StronglySorted R (firstn n l).
Proof.
  intros H. revert n. induction H as [|x l Hl IH Hx]; intros [|n]; simpl;
    try constructor; auto.
  rewrite Forall_forall in *. intros y Hy. apply Hx. eapply In_firstn_incl; eauto.
Qed.

(** The complete ranking of the words of a list. *)
Lemma ranking_sorted words :
  StronglySorted (ranks_before words)
    (sort_by (fun a b : string * nat => (snd b <? snd a)%nat)
             (AnalyticsService.Counter words)).
Proof.
  pose proof (counted_Counter words) as [_ _ _ Horder0].
  pose proof (proj1 (StronglySorted_map fst
                       (fun a b => (first_index a words < first_index b words)%nat) _)
                Horder0) as Horder.
  eapply StronglySorted_weaken;
    [|apply (sort_by_sorted _ (fun a b : string * nat => (snd b <? snd a)%nat)
              (fun a b => (first_index (fst a) words < first_index (fst b) words)%nat));
      [| |exact Horder]].
  - intros a b _ _ [Hlt|[Hge Hidx]]; unfold ranks_before.
    + apply Nat.ltb_lt in Hlt. now left.
    + apply Nat.ltb_ge in Hge.
      destruct (Nat.eq_dec (snd a) (snd b)) as [Heq|Hne]; [right; auto | left; lia].
  - intros a b H. apply Nat.ltb_lt in H. apply Nat.ltb_ge. lia.
  - intros a b c H. apply Nat.ltb_lt in H.
    destruct (Nat.ltb_spec (snd b) (snd a)); [now left|].
    right. apply Nat.ltb_lt. lia.
Qed.

Lemma ranking_ranked words :
  ranked words (sort_by (fun a b : string * nat => (snd b <? snd a)%nat)
                        (AnalyticsService.Counter words)).
Proof.
  pose proof (counted_Counter words) as [Hnd Hkeys Hcount _].
  set (before := fun a b : string * nat => (snd b <? snd a)%nat).
  pose proof (sort_by_perm before (AnalyticsService.Counter words)) as Hperm.
  split; [|split; [|split]].
  - eapply Permutation_NoDup; [|exact Hnd].
    apply Permutation_map, Permutation_sym, Hperm.
  - intros w. rewrite <- Hkeys. split; apply Permutation_in, Permutation_map;
      [exact Hperm | apply Permutation_sym, Hperm].
  - intros w n Hin. apply Hcount. eapply Permutation_in; [exact Hperm | exact Hin].
  - apply ranking_sorted.
Qed.

Lemma most_common_prefix limit words :
  exists rest,
    ranked words (AnalyticsService.most_common limit (AnalyticsService.Counter words)
                  ++ rest)
    /\ List.length (AnalyticsService.most_common limit (AnalyticsService.Counter words))
       = Nat.min (Z.to_nat limit)
           (List.length (AnalyticsService.most_common limit
                           (AnalyticsService.Counter words) ++ rest)).
Proof.
  unfold AnalyticsService.most_common.
  set (full := sort_by _ (AnalyticsService.Counter words)).
  exists (skipn (Z.to_nat limit) full). rewrite firstn_skipn.
  split; [apply ranking_ranked | apply length_firstn].
Qed.

(** The word that occurs more often than every other comes out on top. *)
Lemma top_word words w n :
  count_occ string_dec words w = n -> (0 < n)%nat ->
  (forall x, x <> w -> (count_occ string_dec words x < n)%nat) ->
  AnalyticsService.most_common 1 (AnalyticsService.Counter words) = [(w, n)].
Proof.
  intros Hw Hpos Hothers. unfold AnalyticsService.most_common.
  destruct (ranking_ranked words) as [Hnd [Hkeys [Hcount Hsorted]]].
  set (full := sort_by _ (AnalyticsService.Counter words)) in *.
  assert (Hin : In w (map fst full)).
  { apply Hkeys. apply (count_occ_In string_dec). lia. }
  apply in_map_iff in Hin. destruct Hin as [[w' m] [Hfst Hin]]. simpl in Hfst. subst w'.
  assert (m = n) by (rewrite <- Hw; now apply Hcount). subst m.
  destruct full as [|[x k] rest]; [contradiction|].
  change (Z.to_nat 1) with 1%nat. simpl.
  destruct Hin as [Heq|Hin]; [now rewrite Heq|].
  exfalso. inversion Hsorted as [|? ? _ Hall]; subst.
  rewrite Forall_forall in Hall. specialize (Hall _ Hin).
  assert (Hk : k = count_occ string_dec words x) by (apply Hcount; now left).
  destruct (string_dec x w) as [->|Hne].
  - simpl in Hnd. apply NoDup_cons_iff in Hnd. destruct Hnd as [Hnot _].
    apply Hnot. apply in_map_iff. now exists (w, count_occ string_dec words w).
  - specialize (Hothers x Hne). unfold ranks_before in Hall. simpl in Hall. lia.
Qed.

(** ** Tokens *)

Lemma fields_of_weave is_sep s :
  exists seps,
    Forall (fun c => is_sep c = true) seps
    /\ List.length (fields_of is_sep s) = S (List.length seps)
    /\ weave (fields_of is_sep s) seps = s
    /\ Forall (fun f => all_chars (fun c => negb (is_sep c)) f = true)
              (fields_of is_sep s).
Proof.
  induction s as [|c s IH].
  - exists []. simpl. repeat split; repeat constructor.
  - destruct IH as [seps [Hseps [Hlen [Hweave Hfields]]]]. simpl.
    destruct (is_sep c) eqn:Hc.
    + exists (c :: seps). simpl. repeat split.
      * now constructor.
      * now rewrite Hlen.
      * now rewrite Hweave.
      * constructor; [reflexivity | assumption].
    + destruct (fields_of is_sep s) as [|f fs]; [discriminate|].
      exists seps. simpl in *. repeat split.
      * assumption.
      * assumption.
      * destruct seps as [|c' seps']; simpl in *; now rewrite Hweave.
      * inversion Hfields; subst. constructor; [|assumption].
        simpl. now rewrite Hc.
Qed.

Lemma all_chars_ext (p q : ascii -> bool) s :
  (forall c, p c = q c) -> all_chars p s = all_chars q s.
Proof. intros H. induction s as [|c s IH]; simpl; [reflexivity | now rewrite H, IH]. Qed.

Lemma findall_words_runs s :
  exists fields seps,
    weave fields seps = s
    /\ List.length fields = S (List.length seps)
    /\ Forall (fun c => is_word c = false) seps
    /\ Forall (fun f => all_chars is_word f = true) fields
    /\ AnalyticsService.findall_words s = filter non_empty fields.
Proof.
  destruct (fields_of_weave (fun c => negb (is_word c)) s)
    as [seps [Hseps [Hlen [Hweave Hfields]]]].
  exists (fields_of (fun c => negb (is_word c)) s), seps.
  split; [exact Hweave|]. split; [exact Hlen|]. split; [|split; [|reflexivity]].
  - eapply Forall_impl; [|exact Hseps]. intros c Hc. cbv beta in Hc.
    now apply negb_true_iff in Hc.
  - eapply Forall_impl; [|exact Hfields]. intros f Hf.
    rewrite <- Hf. apply all_chars_ext. intros c. now rewrite negb_involutive.
Qed.

(** C9, as the code has it: [get_word_frequency] joins the texts of the
    active entries with spaces, lower-cases the result, and takes as words
    the maximal runs of word characters, which are the alphanumeric
    characters and the underscore: the text is its fields woven with single
    non-word characters, and the words are the non-empty fields.  The
    result is the first [limit] items of the complete ranking of the words:
    every distinct word once, with the number of its occurrences, by
    decreasing count, and by first occurrence among equal counts.  When
    "ubuntu" occurs three times and every other word at most twice, the
    result for [limit = 1] is that word with 3. *)
Theorem word_frequency_ranks_words :
  (forall limit c,
      AnalyticsService.get_word_frequency limit c
      = (Ok (AnalyticsService.most_common limit
               (AnalyticsService.Counter (corpus_words (tables c)))), c))
  /\ (forall s,
         exists fields seps,
           weave fields seps = s
           /\ List.length fields = S (List.length seps)
           /\ Forall (fun c => is_word c = false) seps
           /\ Forall (fun f => all_chars is_word f = true) fields
           /\ AnalyticsService.findall_words s = filter non_empty fields)
  /\ (forall c, is_word c = (is_alnum c || Ascii.eqb c "_")%bool)
  /\ (forall limit words,
         exists rest,
           ranked words
             (AnalyticsService.most_common limit (AnalyticsService.Counter words) ++ rest)
           /\ List.length
                (AnalyticsService.most_common limit (AnalyticsService.Counter words))
              = Nat.min (Z.to_nat limit)
                  (List.length
                     (AnalyticsService.most_common limit
                        (AnalyticsService.Counter words) ++ rest)))
  /\ (forall c,
         count_occ string_dec (corpus_words (tables c)) "ubuntu" = 3%nat ->
         (forall w, w <> "ubuntu" ->
                    (count_occ string_dec (corpus_words (tables c)) w <= 2)%nat) ->
         fst (AnalyticsService.get_word_frequency 1 c) = Ok [("ubuntu", 3%nat)]).
Proof.
  split; [reflexivity|]. split; [exact findall_words_runs|]. split; [|split].
  - intros c. unfold is_word. f_equal.
    destruct c as [[] [] [] [] [] [] [] []]; reflexivity.
  - exact most_common_prefix.
  - intros c Hthree Hothers. simpl. f_equal.
    apply (top_word _ "ubuntu" 3%nat Hthree); [lia|].
    intros x Hx. specialize (Hothers x Hx). lia.
Qed.

Lemma word_frequency_ranks_words_witness :
  count_occ string_dec (corpus_words (tables (conn_of ubuntu_corpus []))) "ubuntu" = 3%nat
  /\ (forall w, w <> "ubuntu" ->
                (count_occ string_dec (corpus_words (tables (conn_of ubuntu_corpus []))) w
                 <= 2)%nat)
  /\ fst (AnalyticsService.get_word_frequency 1 (conn_of ubuntu_corpus []))
     = Ok [("ubuntu", 3%nat)].
Proof.
  assert (Hthree : count_occ string_dec (corpus_words (tables (conn_of ubuntu_corpus [])))
                     "ubuntu" = 3%nat) by reflexivity.
  assert (Hothers : forall w, w <> "ubuntu" ->
            (count_occ string_dec (corpus_words (tables (conn_of ubuntu_corpus []))) w
             <= 2)%nat).
  { intros w Hw.
    change (corpus_words (tables (conn_of ubuntu_corpus [])))
      with ["ubuntu"; "abantu"; "ubuntu"; "ngumuntu"; "ubuntu"; "umuntu";
            "ngumuntu"; "ngabantu"].
    cbv beta iota zeta delta [count_occ].
    repeat match goal with
           | |- context [string_dec ?a w] =>
               destruct (string_dec a w); cbv beta iota zeta
           end;
      first [lia | subst; congruence]. }
  split; [exact Hthree|]. split; [exact Hothers|].
  exact (proj2 (proj2 (proj2 (proj2 word_frequency_ranks_words)))
           (conn_of ubuntu_corpus []) Hthree Hothers).
Defined.

(** The words are not the runs of alphanumeric characters: an underscore
    joins what such runs would separate. *)
Lemma alphanumeric_runs_counterexample :
  fst (AnalyticsService.get_word_frequency 10 (conn_of underscore_entry []))
  = Ok [("izwi_elisha", 1%nat)]
  /\ word_frequency_as_specified 10 underscore_entry
     = [("izwi", 1%nat); ("elisha", 1%nat)]
  /\ fst (AnalyticsService.get_word_frequency 10 (conn_of underscore_entry []))
     <> Ok (word_frequency_as_specified 10 underscore_entry).
Proof.
  split; [reflexivity|]. split; [reflexivity|].
  vm_compute. discriminate.
Qed.

(** ** What a search finds *)

Lemma contains_empty hay : contains "" hay = true.
Proof. destruct hay; reflexivity. Qed.

Lemma icontains_empty column : icontains column "" = true.
Proof. unfold icontains. simpl lower. apply contains_empty. Qed.

Lemma truthy_spec v : truthy (Some v) = true <-> v <> "".
Proof.
  unfold truthy. destruct (String.eqb_spec v ""); simpl; split; intros H;
    congruence.
Qed.

Lemma option_eqb_spec o s : SearchService.option_eqb o s = true <-> o = Some s.
Proof.
  unfold SearchService.option_eqb. destruct o as [x|].
  - destruct (String.eqb_spec x s); split; intros H; congruence.
  - split; intros H; discriminate.
Qed.

Lemma where_spec q t e :
  In e (where_ q t) <->
  In e (cultural_entries t)
  /\ ((spans_examples q = true
       /\ exists u, In u (examples_of t e) /\ eval_Q q e (Some u) = true)
      \/ ((spans_examples q = false \/ examples_of t e = [])
          /\ eval_Q q e None = true)).
Proof.
  unfold where_, joined_rows. rewrite in_map_iff. split.
  - intros [[e' x] [Heq Hin]]. simpl in Heq. subst e'.
    apply filter_In in Hin. destruct Hin as [Hin Hev]. simpl in Hev.
    apply in_flat_map in Hin. destruct Hin as [e' [He' Hin]].
    destruct (spans_examples q) eqn:Hsp.
    + destruct (examples_of t e') as [|u us] eqn:Hex.
      * destruct Hin as [Heq|[]]. inversion Heq; subst.
        split; [assumption|]. right. split; [now right | assumption].
      * apply in_map_iff in Hin. destruct Hin as [u' [Heq Hu']].
        inversion Heq; subst. split; [assumption|]. left.
        split; [reflexivity|]. exists u'. rewrite Hex. auto.
    + destruct Hin as [Heq|[]]. inversion Heq; subst.
      split; [assumption|]. right. split; [now left | assumption].
  - intros [He [[Hsp [u [Hu Hev]]]|[Hnone Hev]]].
    + exists (e, Some u). split; [reflexivity|]. apply filter_In.
      split; [|exact Hev]. apply in_flat_map. exists e. split; [assumption|].
      rewrite Hsp. destruct (examples_of t e) as [|u0 us] eqn:Hex; [contradiction|].
      apply in_map_iff. exists u. auto.
    + exists (e, None). split; [reflexivity|]. apply filter_In.
      split; [|exact Hev]. apply in_flat_map. exists e. split; [assumption|].
      destruct Hnone as [Hsp|Hex].
      * rewrite Hsp. now left.
      * destruct (spans_examples q); rewrite ?Hex; now left.
Qed.

(** What [_apply_filters] adds to a condition. *)
Lemma apply_filters_eval base f q :
  SearchService._apply_filters base f = Ok q ->
  spans_examples q = spans_examples base
  /\ forall e x, eval_Q q e x = true <->
                 eval_Q base e x = true /\ passes_filters (Some f) e.
Proof.
  unfold SearchService._apply_filters.
  set (q1 := match SearchService.filters_get f "part_of_speech" with
             | Some v => if truthy (Some v) then base &&& Qf (part_of_speech_ v) else base
             | None => base
             end).
  set (q2 := match SearchService.filters_get f "genre" with
             | Some v => if truthy (Some v) then q1 &&& Qf (genre_ v) else q1
             | None => q1
             end).
  assert (H1 : spans_examples q1 = spans_examples base
               /\ forall e x, eval_Q q1 e x = true <->
                              eval_Q base e x = true
                              /\ (forall v, SearchService.filters_get f "part_of_speech"
                                            = Some v -> v <> "" ->
                                            CulturalEntry.part_of_speech e = v)).
  { subst q1. destruct (SearchService.filters_get f "part_of_speech") as [v|].
    - destruct (truthy (Some v)) eqn:Ht.
      + apply truthy_spec in Ht. split; [simpl; now rewrite orb_false_r|].
        intros e x. simpl. rewrite andb_true_iff, String.eqb_eq. split.
        * intros [Hb He]. split; [assumption|]. intros v' Hv' _. congruence.
        * intros [Hb He]. split; [assumption|]. now apply He.
      + split; [reflexivity|]. intros e x. split; [|tauto].
        intros Hb. split; [assumption|]. intros v' Hv' Hne.
        injection Hv' as <-. apply truthy_spec in Hne. congruence.
    - split; [reflexivity|]. intros e x. split; [|tauto].
      intros Hb. split; [assumption|]. intros v' Hv'. discriminate. }
  assert (H2 : spans_examples q2 = spans_examples base
               /\ forall e x, eval_Q q2 e x = true <->
                              eval_Q q1 e x = true
                              /\ (forall v, SearchService.filters_get f "genre" = Some v ->
                                            v <> "" -> CulturalEntry.genre e = v)).
  { destruct H1 as [Hs1 _]. subst q2.
    destruct (SearchService.filters_get f "genre") as [v|].
    - destruct (truthy (Some v)) eqn:Ht.
      + apply truthy_spec in Ht. split; [simpl; now rewrite orb_false_r|].
        intros e x. simpl. rewrite andb_true_iff, String.eqb_eq. split.
        * intros [Hb He]. split; [assumption|]. intros v' Hv' _. congruence.
        * intros [Hb He]. split; [assumption|]. now apply He.
      + split; [assumption|]. intros e x. split; [|tauto].
        intros Hb. split; [assumption|]. intros v' Hv' Hne.
        injection Hv' as <-. apply truthy_spec in Hne. congruence.
    - split; [assumption|]. intros e x. split; [|tauto].
      intros Hb. split; [assumption|]. intros v' Hv'. discriminate. }
  clearbody q2. clearbody q1.
  destruct H1 as [Hs1 H1]. destruct H2 as [Hs2 H2].
  assert (Hne : "isizulu" <> "english") by discriminate.
  destruct (SearchService.option_eqb (SearchService.filters_get f "language") "isizulu")
    eqn:Hz.
  - apply option_eqb_spec in Hz.
    destruct (SearchService.filters_query f) as [s|x0] eqn:Hs; [|discriminate].
    intros H; injection H as <-. split; [simpl; now rewrite orb_false_r|].
    intros e x. simpl. rewrite andb_true_iff, H2, H1. split.
    + intros [[[Hb Hp] Hg] Hl]. split; [assumption|].
      intros f0 Hf0. injection Hf0 as <-. repeat split; auto.
      * intros _ s' Hs'. congruence.
      * intros Hl'. congruence.
    + intros [Hb Hp]. destruct (Hp f eq_refl) as [Hp1 [Hp2 [Hp3 _]]].
      repeat split; auto.
  - destruct (SearchService.option_eqb (SearchService.filters_get f "language") "english")
      eqn:He.
    + apply option_eqb_spec in He.
      destruct (SearchService.filters_query f) as [s|x0] eqn:Hs; [|discriminate].
      intros H; injection H as <-. split; [simpl; now rewrite orb_false_r|].
      intros e x. simpl. rewrite andb_true_iff, H2, H1. split.
      * intros [[[Hb Hp] Hg] Hl]. split; [assumption|].
        intros f0 Hf0. injection Hf0 as <-. repeat split; auto.
        -- intros Hl'. congruence.
        -- intros _ s' Hs'. congruence.
      * intros [Hb Hp]. destruct (Hp f eq_refl) as [Hp1 [Hp2 [_ Hp4]]].
        repeat split; auto.
    + intros H; injection H as <-. split; [assumption|].
      intros e x. rewrite H2, H1. split.
      * intros [[Hb Hp] Hg]. split; [assumption|].
        intros f0 Hf0. injection Hf0 as <-. repeat split; auto.
        -- intros Hl. apply option_eqb_spec in Hl. congruence.
        -- intros Hl. apply option_eqb_spec in Hl. congruence.
      * intros [Hb Hp]. destruct (Hp f eq_refl) as [Hp1 [Hp2 _]].
        repeat split; auto.
Qed.

(** The condition of a search without filters, row by row of the join. *)
Lemma base_condition_eval query filters q :
  filters = None \/ filters = Some [] ->
  search_condition query filters = Ok q ->
  spans_examples q = truthy (Some query)
  /\ forall e x,
       eval_Q q e x = true <->
       CulturalEntry.is_active e = true
       /\ (query <> "" ->
           (icontains (CulturalEntry.isiZulu_text e) query
            || icontains (CulturalEntry.english_translation e) query
            || icontains (CulturalEntry.cultural_context e) query
            || match x with
               | Some u => icontains (UsageExample.isiZulu_example u) query
                           || icontains (UsageExample.english_example u) query
               | None => false
               end)%bool = true).
Proof.
  intros Hnone Hq.
  assert (Hbase : q = if truthy (Some query)
                      then Qf (is_active_ true) &&& SearchService.text_query query
                      else Qf (is_active_ true)).
  { destruct Hnone as [-> | ->]; unfold search_condition in Hq; now injection Hq. }
  subst q. destruct (truthy (Some query)) eqn:Ht.
  - apply truthy_spec in Ht. split; [reflexivity|]. intros e x. simpl.
    rewrite andb_true_iff, eqb_true_iff. split.
    + intros [Ha Hm]. split; [assumption|]. intros _.
      destruct x as [u|]; [now rewrite orb_assoc|].
      now rewrite !orb_false_r in *.
    + intros [Ha Hm]. split; [assumption|]. specialize (Hm Ht).
      destruct x as [u|]; [now rewrite orb_assoc in Hm|].
      now rewrite !orb_false_r in *.
  - split; [reflexivity|]. intros e x. simpl. rewrite eqb_true_iff.
    split; [|tauto]. intros Ha. split; [assumption|]. intros Hne.
    apply truthy_spec in Hne. congruence.
Qed.

Lemma text_matches_join query t e :
  text_matches query t e = true <->
  (exists u, In u (examples_of t e)
             /\ (icontains (CulturalEntry.isiZulu_text e) query
                 || icontains (CulturalEntry.english_translation e) query
                 || icontains (CulturalEntry.cultural_context e) query
                 || (icontains (UsageExample.isiZulu_example u) query
                     || icontains (UsageExample.english_example u) query))%bool = true)
  \/ (icontains (CulturalEntry.isiZulu_text e) query
      || icontains (CulturalEntry.english_translation e) query
      || icontains (CulturalEntry.cultural_context e) query)%bool = true.
Proof.
  unfold text_matches.
  set (b := (icontains _ query || icontains _ query || icontains _ query)%bool).
  rewrite orb_true_iff, existsb_exists. split.
  - intros [Hb|[u [Hu Hm]]]; [now right|]. left. exists u. split; [assumption|].
    rewrite Hm. apply orb_true_r.
  - intros [[u [Hu Hm]]|Hb]; [|now left].
    apply orb_true_iff in Hm. destruct Hm as [Hb|Hm]; [now left|].
    right. exists u. auto.
Qed.

Lemma where_search query filters q t e :
  filters = None \/ filters = Some [] ->
  search_condition query filters = Ok q ->
  (In e (where_ q t) <->
   In e (cultural_entries t)
   /\ CulturalEntry.is_active e = true
   /\ text_matches query t e = true).
Proof.
  intros Hnone Hq. destruct (base_condition_eval _ _ _ Hnone Hq) as [Hsp Hev].
  rewrite where_spec. rewrite Hsp.
  destruct (String.eqb_spec query "") as [->|Hne].
  - simpl truthy. split.
    + intros [He [[Hf _]|[_ Hn]]]; [discriminate|].
      apply Hev in Hn. destruct Hn as [Ha _].
      repeat split; auto. unfold text_matches. now rewrite icontains_empty.
    + intros [He [Ha _]]. split; [assumption|]. right.
      split; [now left|]. apply Hev. split; [assumption|]. intros Hne. congruence.
  - assert (Ht : truthy (Some query) = true) by now apply truthy_spec.
    rewrite Ht. rewrite text_matches_join. split.
    + intros [He [[_ [u [Hu Hm]]]|[Hnone' Hn]]].
      * apply Hev in Hm. destruct Hm as [Ha Hm]. specialize (Hm Hne).
        repeat split; auto. left. exists u. auto.
      * apply Hev in Hn. destruct Hn as [Ha Hm]. specialize (Hm Hne).
        repeat split; auto. right. now rewrite orb_false_r in Hm.
    + intros [He [Ha Hm]]. split; [assumption|].
      destruct Hm as [[u [Hu Hm]]|Hm].
      * left. split; [reflexivity|]. exists u. split; [assumption|].
        apply Hev. auto.
      * destruct (examples_of t e) as [|u us] eqn:Hex.
        -- right. split; [now right|]. apply Hev. repeat split; auto.
           intros _. now rewrite orb_false_r.
        -- left. split; [reflexivity|]. exists u. split; [now left|].
           apply Hev. repeat split; auto. intros _. rewrite Hm. reflexivity.
Qed.

Lemma sorted_trivially {A} (l : list A) : StronglySorted (fun _ _ => True) l.
Proof.
  induction l; constructor; auto. apply Forall_forall. auto.
Qed.

Lemma order_entries_newest_first l :
  StronglySorted (fun a b => CulturalEntry.created_at b <= CulturalEntry.created_at a)
                 (order_entries l).
Proof.
  unfold order_entries.
  eapply StronglySorted_weaken;
    [|apply (sort_by_sorted _ (fun a b => CulturalEntry.created_at b
                                          <? CulturalEntry.created_at a)
                            (fun _ _ => True))].
  - intros a b _ _ [H|[H _]]; [apply Z.ltb_lt in H | apply Z.ltb_ge in H]; lia.
  - intros a b H. apply Z.ltb_lt in H. apply Z.ltb_ge. lia.
  - intros a b c H. apply Z.ltb_lt in H.
    destruct (CulturalEntry.created_at b <? CulturalEntry.created_at a) eqn:E;
      [now left|]. right. apply Z.ltb_ge in E. apply Z.ltb_lt. lia.
  - apply sorted_trivially.
Qed.

(** X1: a search without filters that succeeds returns exactly the active
    entries whose text, or the text of one of their usage examples, contains
    the query, whatever the case of the letters (all active entries for the
    empty query); each comes back with its counter raised, and the newest
    entries come first. *)
Theorem search_finds_matching_entries :
  forall query filters c results c',
    filters = None \/ filters = Some [] ->
    SearchService.search_entries query filters c = (Ok results, c') ->
    (forall r, In r results <->
               exists e, In e (cultural_entries (tables c))
                         /\ CulturalEntry.is_active e = true
                         /\ text_matches query (tables c) e = true
                         /\ r = incremented e)
    /\ (query = "" ->
        forall e, In e (cultural_entries (tables c)) ->
                  CulturalEntry.is_active e = true -> In (incremented e) results)
    /\ StronglySorted
         (fun a b => CulturalEntry.created_at b <= CulturalEntry.created_at a) results.
Proof.
  intros query filters c results c' Hnone H.
  apply search_entries_results in H. destruct H as [q [Hq ->]].
  assert (Hin : forall r, In r (map incremented (matches q (tables c))) <->
                          exists e, In e (cultural_entries (tables c))
                                    /\ CulturalEntry.is_active e = true
                                    /\ text_matches query (tables c) e = true
                                    /\ r = incremented e).
  { intros r. rewrite in_map_iff. split.
    - intros [e [<- He]]. apply matches_In in He.
      apply (where_search _ _ _ _ _ Hnone Hq) in He. exists e. tauto.
    - intros [e [He [Ha [Hm ->]]]]. exists e. split; [reflexivity|].
      apply matches_In. apply (where_search _ _ _ _ _ Hnone Hq). auto. }
  split; [exact Hin|]. split.
  - intros -> e He Ha. apply Hin. exists e. repeat split; auto.
    unfold text_matches. now rewrite icontains_empty.
  - apply StronglySorted_map. unfold matches.
    apply (order_entries_newest_first (distinct (where_ q (tables c)))).
Qed.

Lemma search_finds_matching_entries_witness :
  SearchService.search_entries "UBUNTU" None (conn_of two_examples [])
  = (Ok [incremented ubuntu],
     with_tables (set_entries [incremented ubuntu; indlela] two_examples)
                 (tick (conn_of two_examples [])))
  /\ (In (incremented ubuntu) [incremented ubuntu] <->
      exists e, In e (cultural_entries two_examples)
                /\ CulturalEntry.is_active e = true
                /\ text_matches "UBUNTU" two_examples e = true
                /\ incremented ubuntu = incremented e).
Proof.
  split; [reflexivity|].
  exact (proj1 (search_finds_matching_entries
                  "UBUNTU" None (conn_of two_examples []) _ _
                  (or_introl eq_refl) eq_refl) (incremented ubuntu)).
Defined.

(** X2: the filters of a search only narrow it.  The condition
    [_apply_filters] builds from [base] selects the rows that [base] selects
    and that pass the filters: a non-empty [part_of_speech] and [genre] must
    be the entry's, and for the language 'isizulu' or 'english' the text in
    that language must contain the filters' [query]; an empty value and any
    other language ask for nothing. *)
Theorem apply_filters_narrows :
  forall base f q,
    SearchService._apply_filters base f = Ok q ->
    forall t e,
      In e (where_ q t) <-> In e (where_ base t) /\ passes_filters (Some f) e.
Proof.
  intros base f q H t e.
  destruct (apply_filters_eval _ _ _ H) as [Hsp Hev].
  rewrite !where_spec, Hsp. split.
  - intros [He [[Hs [u [Hu Hm]]]|[Hnone Hm]]]; apply Hev in Hm;
      destruct Hm as [Hb Hp]; (split; [split; [assumption|] | assumption]).
    + left. split; [assumption|]. exists u. auto.
    + right. auto.
  - intros [[He [[Hs [u [Hu Hm]]]|[Hnone Hm]]] Hp]; (split; [assumption|]).
    + left. split; [assumption|]. exists u. split; [assumption|].
      apply Hev. auto.
    + right. split; [assumption|]. apply Hev. auto.
Qed.

Lemma apply_filters_narrows_witness :
  SearchService._apply_filters (Qf (is_active_ true))
    [("part_of_speech", Some "proverb"); ("genre", Some ""); ("language", Some "english");
     ("query", Some "WAY")]
  = Ok (Qf (is_active_ true) &&& Qf (part_of_speech_ "proverb")
        &&& Qf (english_translation__icontains "WAY"))
  /\ (In indlela (where_ (Qf (is_active_ true) &&& Qf (part_of_speech_ "proverb")
                          &&& Qf (english_translation__icontains "WAY")) two_examples)
      <-> In indlela (where_ (Qf (is_active_ true)) two_examples)
          /\ passes_filters
               (Some [("part_of_speech", Some "proverb"); ("genre", Some "");
                      ("language", Some "english"); ("query", Some "WAY")]) indlela).
Proof.
  split; [reflexivity|].
  exact (apply_filters_narrows
           (Qf (is_active_ true))
           [("part_of_speech", Some "proverb"); ("genre", Some "");
            ("language", Some "english"); ("query", Some "WAY")]
           (Qf (is_active_ true) &&& Qf (part_of_speech_ "proverb")
            &&& Qf (english_translation__icontains "WAY"))
           eq_refl two_examples indlela).
Defined.

(** ** The activity log *)

(** X4: [log_activity] never raises.  It writes to no table but the log,
    where it appends at most one row: the row with the given user, action,
    description and address, keyed by the sequence and stamped by the clock.
    When the insert meets a fault nothing is written; when it meets none and
    the key is new, the row is written. *)
Theorem log_activity_never_raises :
  forall user action description ip c,
    let c' := snd (ActivityLogService.log_activity user action description ip c) in
    fst (ActivityLogService.log_activity user action description ip c) = Ok tt
    /\ cultural_entries (tables c') = cultural_entries (tables c)
    /\ usage_examples (tables c') = usage_examples (tables c)
    /\ additional_translations (tables c') = additional_translations (tables c)
    /\ collocations (tables c') = collocations (tables c)
    /\ (activity_logs (tables c') = activity_logs (tables c)
        \/ activity_logs (tables c')
           = (activity_logs (tables c) ++ [log_row c user action description ip])%list)
    /\ (next_fault c = true -> tables c' = tables c)
    /\ (next_fault c = false ->
        (forall l, In l (activity_logs (tables c)) -> ActivityLog.id l < log_seq c) ->
        activity_logs (tables c')
        = (activity_logs (tables c) ++ [log_row c user action description ip])%list).
Proof.
  intros user action description ip c c'.
  split; [apply log_activity_ok|].
  destruct (log_activity_cases user action description ip c)
    as [[Hnf [Hex [Ht _]]]|[Ht _]]; fold c' in Ht; rewrite Ht; simpl.
  - repeat split; auto. congruence.
  - repeat split; auto. intros Hnf Hfresh. exfalso.
    revert Ht. subst c'.
    unfold ActivityLogService.log_activity, try_except, ActivityLog_objects_create,
      bind, next_log_id, now, execute, ret. simpl.
    change (next_fault (mkConn _ _ _ _ _ _ _ _ _)) with (next_fault c).
    rewrite Hnf. unfold insert_log. simpl.
    replace (existsb (fun r => ActivityLog.id r =? log_seq c) (activity_logs (tables c)))
      with false.
    + simpl. intros H. apply (f_equal activity_logs) in H. simpl in H.
      apply (f_equal (@List.length _)) in H. rewrite length_app in H. simpl in H. lia.
    + symmetry. apply not_true_iff_false. intros H.
      apply existsb_exists in H. destruct H as [r [Hr Hid]].
      apply Z.eqb_eq in Hid. specialize (Hfresh r Hr). lia.
Qed.

Lemma log_activity_never_raises_witness :
  next_fault (fresh []) = false
  /\ (forall l, In l (activity_logs (tables (fresh []))) ->
                ActivityLog.id l < log_seq (fresh []))
  /\ activity_logs
       (tables (snd (ActivityLogService.log_activity (Some 7) "export" "Exported corpus data"
                       (Some "10.0.0.1") (fresh []))))
     = [ActivityLog.mk 1 (Some 7) "export" "Exported corpus data" (Some "10.0.0.1") 0 0].
Proof.
  split; [reflexivity|]. split; [intros l []|].
  exact (proj2 (proj2 (proj2 (proj2 (proj2 (proj2 (proj2
           (log_activity_never_raises (Some 7) "export" "Exported corpus data"
              (Some "10.0.0.1") (fresh [])))))))) eq_refl (fun l (H : In l []) => match H with end)).
Defined.

Lemma log_grown_refl actions t : log_grown actions t t.
Proof. exists []. split; [now rewrite app_nil_r | constructor]. Qed.

Lemma log_grown_trans actions a b c :
  log_grown actions a b -> log_grown actions b c -> log_grown actions a c.
Proof.
  intros [r1 [H1 F1]] [r2 [H2 F2]]. exists (r1 ++ r2)%list. split.
  - now rewrite H2, H1, app_assoc.
  - apply Forall_app. auto.
Qed.

Lemma log_grown_same actions t t' :
  activity_logs t' = activity_logs t -> log_grown actions t t'.
Proof. intros H. exists []. split; [now rewrite app_nil_r | constructor]. Qed.

Section Logging.

Variable actions : list string.

Ltac logging :=
  frame (log_grown_refl actions) (log_grown_trans actions).

Lemma logs_execute_same stmt :
  (forall c t, stmt c = Ok t -> activity_logs t = activity_logs (tables c)) ->
  keeps (log_grown actions) (execute stmt).
Proof.
  intros H. apply (keeps_execute _ (log_grown_refl actions)).
  intros c t Hs. apply log_grown_same. eauto.
Qed.

Lemma logs_CulturalEntry_objects_create kw :
  keeps (log_grown actions) (CulturalEntry_objects_create kw).
Proof.
  unfold CulturalEntry_objects_create. logging.
  apply logs_execute_same. intros c t. unfold insert_entry.
  destruct (existsb _ _); [discriminate|]. intros H; now inversion H.
Qed.

Lemma logs_UsageExample_objects_create kw :
  keeps (log_grown actions) (UsageExample_objects_create kw).
Proof.
  unfold UsageExample_objects_create. logging.
  apply logs_execute_same. intros c t. unfold insert_example.
  destruct (_ || _)%bool; [discriminate|]. intros H; now inversion H.
Qed.

Lemma logs_AdditionalTranslation_objects_create kw :
  keeps (log_grown actions) (AdditionalTranslation_objects_create kw).
Proof.
  unfold AdditionalTranslation_objects_create. logging.
  apply logs_execute_same. intros c t. unfold insert_translation.
  destruct (_ || _)%bool; [discriminate|]. intros H; now inversion H.
Qed.

Lemma logs_CulturalEntry_save instance :
  keeps (log_grown actions) (CulturalEntry_save instance).
Proof.
  unfold CulturalEntry_save. logging.
  apply logs_execute_same. intros c t. unfold save_entry.
  destruct (existsb _ _); intros H; now inversion H.
Qed.

Lemma logs_log_activity user action description ip :
  In action actions ->
  keeps (log_grown actions)
        (ActivityLogService.log_activity user action description ip).
Proof.
  intros Hin c r c' H.
  pose proof (log_activity_cases user action description ip c) as Hc.
  rewrite H in Hc. simpl in Hc.
  destruct Hc as [[_ [_ [Ht _]]]|[Ht _]]; rewrite Ht.
  - exists [log_row c user action description ip]. split; [reflexivity|].
    constructor; [exact Hin | constructor].
  - apply log_grown_refl.
Qed.

Lemma logs_serializer_create validated_data :
  keeps (log_grown actions) (CulturalEntrySerializer.create validated_data).
Proof.
  unfold CulturalEntrySerializer.create, CulturalEntrySerializer.create_examples,
    CulturalEntrySerializer.create_translations.
  logging; auto using logs_CulturalEntry_objects_create,
             logs_UsageExample_objects_create,
             logs_AdditionalTranslation_objects_create.
Qed.

Lemma logs_serializer_update instance validated_data :
  keeps (log_grown actions)
        (CulturalEntrySerializer.update instance validated_data).
Proof.
  unfold CulturalEntrySerializer.update, CulturalEntrySerializer.create_examples,
    CulturalEntrySerializer.create_translations, delete_examples_of,
    delete_translations_of.
  logging;
    auto using logs_CulturalEntry_save, logs_UsageExample_objects_create,
      logs_AdditionalTranslation_objects_create;
    apply logs_execute_same; intros c0 t0 H0; now inversion H0.
Qed.

(** A call of [get_client_ip] without its argument ends the method before
    the log is reached. *)
Lemma logs_then_no_ip {A B} (m : M A) (k : A -> option string -> M B) :
  keeps (log_grown actions) m ->
  keeps (log_grown actions)
        (bind m (fun a => bind (lift (CulturalEntryViewSet.call_get_client_ip []))
                               (fun ip_address => k a ip_address))).
Proof.
  intros Hm. apply (keeps_bind _ (log_grown_trans actions)); [exact Hm|].
  intros a c r c' H. unfold bind, lift in H. simpl in H. inversion H; subst.
  apply log_grown_refl.
Qed.

Lemma logs_perform_create request validated_data :
  keeps (log_grown actions)
        (CulturalEntryViewSet.perform_create request validated_data).
Proof.
  unfold CulturalEntryViewSet.perform_create.
  apply (logs_then_no_ip _ (fun instance ip_address =>
           bind (ActivityLogService.log_activity (user request) "create"
                   ("Created entry: " ++ CulturalEntry.isiZulu_text instance) ip_address)
                (fun _ => ret instance))).
  apply logs_serializer_create.
Qed.

Lemma logs_perform_update request instance validated_data :
  keeps (log_grown actions)
        (CulturalEntryViewSet.perform_update request instance validated_data).
Proof.
  unfold CulturalEntryViewSet.perform_update.
  apply (logs_then_no_ip _ (fun instance ip_address =>
           bind (ActivityLogService.log_activity (user request) "update"
                   ("Updated entry: " ++ CulturalEntry.isiZulu_text instance) ip_address)
                (fun _ => ret instance))).
  apply logs_serializer_update.
Qed.

Lemma logs_perform_destroy request instance :
  keeps (log_grown actions)
        (CulturalEntryViewSet.perform_destroy request instance).
Proof.
  unfold CulturalEntryViewSet.perform_destroy.
  apply (logs_then_no_ip _ (fun instance ip_address =>
           ActivityLogService.log_activity (user request) "delete"
             ("Deleted entry: " ++ CulturalEntry.isiZulu_text instance) ip_address)).
  apply logs_CulturalEntry_save.
Qed.

End Logging.

Ltac logging :=
  frame (log_grown_refl logged_actions) (log_grown_trans logged_actions).

Lemma logs_search_entries query filters :
  keeps (log_grown logged_actions) (SearchService.search_entries query filters).
Proof.
  intros c r c' H. apply log_grown_same. eapply search_entries_logs; eauto.
Qed.

Lemma logs_import_from_json json_data user :
  keeps (log_grown logged_actions) (DataImportService.import_from_json json_data user).
Proof.
  unfold DataImportService.import_from_json.
  apply (keeps_atomic _ (log_grown_refl logged_actions)).
  apply (keeps_try_except _ (log_grown_trans logged_actions)); [|intros; logging].
  apply (keeps_bind _ (log_grown_trans logged_actions)).
  - generalize 0. induction json_data as [|entry_data l IH]; intros n; simpl.
    + logging.
    + apply (keeps_bind _ (log_grown_trans logged_actions)); [|intros; apply IH].
      unfold DataImportService.import_record.
      logging; auto using logs_CulturalEntry_objects_create.
  - intros n. logging. apply logs_log_activity. unfold logged_actions. simpl. auto.
Qed.

Lemma import_outcome json_data user c :
  tables (snd (DataImportService.import_from_json json_data user c)) = tables c
  \/ committed json_data user c
       (fst (DataImportService.import_from_json json_data user c))
       (snd (DataImportService.import_from_json json_data user c)).
Proof.
  destruct (DataImportService.import_from_json json_data user c) as [r c'] eqn:Hrun.
  unfold DataImportService.import_from_json in Hrun.
  destruct (atomic_dichotomy _ _ _ _ (tracks_import_body json_data user) Hrun)
    as [Hcases _].
  destruct Hcases as [Hsame|[n [c1 [Hbody [Hr [Hnr [_ [Ht _]]]]]]]]; [now left|].
  right.
  pose proof (import_body_committed json_data user (with_flags true false c) n c1
                eq_refl eq_refl Hbody Hnr) as [rows [log Hc]].
  exists rows, log. simpl. rewrite Hr, Ht. exact Hc.
Qed.

Lemma logs_view a request :
  keeps (log_grown logged_actions) (view a request).
Proof.
  destruct a; simpl.
  - unfold CulturalEntryViewSet.list_, CulturalEntryViewSet.get_queryset. logging.
  - unfold CulturalEntryViewSet.retrieve, CulturalEntryViewSet.get_object,
      CulturalEntryViewSet.get_queryset. logging.
  - unfold CulturalEntryViewSet.create. logging. apply logs_perform_create.
  - unfold CulturalEntryViewSet.update, CulturalEntryViewSet.get_object,
      CulturalEntryViewSet.get_queryset. logging. apply logs_perform_update.
  - unfold CulturalEntryViewSet.update, CulturalEntryViewSet.get_object,
      CulturalEntryViewSet.get_queryset. logging. apply logs_perform_update.
  - unfold CulturalEntryViewSet.destroy, CulturalEntryViewSet.get_object,
      CulturalEntryViewSet.get_queryset. logging. apply logs_perform_destroy.
  - unfold CulturalEntryViewSet.search. logging.
    + apply logs_search_entries.
    + apply logs_log_activity. unfold logged_actions. simpl. auto.
  - unfold CulturalEntryViewSet.import_data. logging. apply logs_import_from_json.
  - unfold CulturalEntryViewSet.export_data, CulturalEntryViewSet.get_queryset.
    logging. apply logs_log_activity. unfold logged_actions. simpl. auto.
Qed.

Lemma logs_dispatch a request c :
  log_grown logged_actions (tables c) (tables (snd (dispatch a request c))).
Proof.
  unfold dispatch.
  destruct (is_safe a || CulturalEntryViewSet.is_authenticated request)%bool;
    [|apply log_grown_refl].
  pose proof (logs_view a request c) as H.
  destruct (view a request c) as [[response|e] c'].
  - simpl. eapply H; eauto.
  - specialize (H _ _ eq_refl). destruct e; exact H.
Qed.

Lemma logs_serve requests :
  forall c, log_grown logged_actions (tables c) (tables (serve requests c)).
Proof.
  induction requests as [|[a request] rest IH]; intros c; simpl.
  - apply log_grown_refl.
  - eapply log_grown_trans; [apply logs_dispatch | apply IH].
Qed.

Lemma log_grown_none t t' : log_grown [] t t' -> activity_logs t' = activity_logs t.
Proof.
  intros [rows [H F]]. destruct rows as [|l rows]; [now rewrite app_nil_r in H|].
  inversion F as [|? ? Hin _]; subst. destruct Hin.
Qed.

(** X5: the activity log is append-only, and the API writes to it under
    'search', 'import' and 'export' only.  Over any sequence of requests,
    and over the seed command, the rows of the log stay as they are and in
    place; every row that is added carries one of these three actions.  No
    row is ever written for 'create', 'update', 'delete' or 'view':
    [perform_create], [perform_update] and [perform_destroy] call
    [get_client_ip] without its argument, which ends them before their call
    of [log_activity]. *)
Theorem log_is_append_only :
  (forall requests c,
      exists rows,
        activity_logs (tables (serve requests c))
        = (activity_logs (tables c) ++ rows)%list
        /\ Forall (fun l => ActivityLog.action l = "search"
                            \/ ActivityLog.action l = "import"
                            \/ ActivityLog.action l = "export") rows)
  /\ (forall c,
         exists rows,
           activity_logs (tables (snd (seed_data.handle c)))
           = (activity_logs (tables c) ++ rows)%list
           /\ Forall (fun l => ActivityLog.action l = "import") rows)
  /\ (forall request validated_data c,
         activity_logs
           (tables (snd (CulturalEntryViewSet.perform_create request validated_data c)))
         = activity_logs (tables c))
  /\ (forall request instance validated_data c,
         activity_logs
           (tables (snd (CulturalEntryViewSet.perform_update request instance
                           validated_data c)))
         = activity_logs (tables c))
  /\ (forall request instance c,
         activity_logs
           (tables (snd (CulturalEntryViewSet.perform_destroy request instance c)))
         = activity_logs (tables c)).
Proof.
  split; [|split; [|split; [|split]]].
  - intros requests c. destruct (logs_serve requests c) as [rows [Hrows Hall]].
    exists rows. split; [exact Hrows|].
    eapply Forall_impl; [|exact Hall].
    intros l [H|[H|[H|[]]]]; auto.
  - intros c. unfold seed_data.handle, try_except, bind.
    destruct (import_outcome seed_data.initial_data None c) as [Hsame|Hcom].
    + exists []. split; [|constructor]. rewrite app_nil_r.
      destruct (DataImportService.import_from_json seed_data.initial_data None c)
        as [[n|e] c']; simpl in *; now rewrite Hsame.
    + destruct Hcom as [rows [log [Hr [_ [_ [_ [_ [Hact [_ Ht]]]]]]]]].
      exists [log]. split; [|constructor; [exact Hact | constructor]].
      destruct (DataImportService.import_from_json seed_data.initial_data None c)
        as [[n|e] c']; simpl in *; now rewrite Ht.
  - intros request validated_data c. apply log_grown_none.
    destruct (CulturalEntryViewSet.perform_create request validated_data c)
      as [r c'] eqn:H.
    exact (logs_perform_create [] request validated_data c r c' H).
  - intros request instance validated_data c. apply log_grown_none.
    destruct (CulturalEntryViewSet.perform_update request instance validated_data c)
      as [r c'] eqn:H.
    exact (logs_perform_update [] request instance validated_data c r c' H).
  - intros request instance c. apply log_grown_none.
    destruct (CulturalEntryViewSet.perform_destroy request instance c) as [r c'] eqn:H.
    exact (logs_perform_destroy [] request instance c r c' H).
Qed.

(** ** The write actions *)

Lemma no_ip_raises {A B} (m : M A) (k : A -> option string -> M B) c :
  bind m (fun a => bind (lift (CulturalEntryViewSet.call_get_client_ip []))
                        (fun ip_address => k a ip_address)) c
  = match m c with
    | (Ok _, c1) => (Raise TypeError, c1)
    | (Raise e, c1) => (Raise e, c1)
    end.
Proof. unfold bind, lift. destruct (m c) as [[a|e] c1]; reflexivity. Qed.

Lemma perform_create_eq request validated_data c :
  CulturalEntryViewSet.perform_create request validated_data c
  = match CulturalEntrySerializer.create validated_data c with
    | (Ok _, c1) => (Raise TypeError, c1)
    | (Raise e, c1) => (Raise e, c1)
    end.
Proof.
  unfold CulturalEntryViewSet.perform_create.
  apply (no_ip_raises _ (fun instance ip_address =>
           bind (ActivityLogService.log_activity (user request) "create"
                   ("Created entry: " ++ CulturalEntry.isiZulu_text instance) ip_address)
                (fun _ => ret instance))).
Qed.

Lemma perform_update_eq request instance validated_data c :
  CulturalEntryViewSet.perform_update request instance validated_data c
  = match CulturalEntrySerializer.update instance validated_data c with
    | (Ok _, c1) => (Raise TypeError, c1)
    | (Raise e, c1) => (Raise e, c1)
    end.
Proof.
  unfold CulturalEntryViewSet.perform_update.
  apply (no_ip_raises _ (fun instance ip_address =>
           bind (ActivityLogService.log_activity (user request) "update"
                   ("Updated entry: " ++ CulturalEntry.isiZulu_text instance) ip_address)
                (fun _ => ret instance))).
Qed.

Lemma perform_destroy_eq request instance c :
  CulturalEntryViewSet.perform_destroy request instance c
  = match CulturalEntry_save (CulturalEntry.set_is_active false instance) c with
    | (Ok _, c1) => (Raise TypeError, c1)
    | (Raise e, c1) => (Raise e, c1)
    end.
Proof.
  unfold CulturalEntryViewSet.perform_destroy.
  apply (no_ip_raises _ (fun instance ip_address =>
           ActivityLogService.log_activity (user request) "delete"
             ("Deleted entry: " ++ CulturalEntry.isiZulu_text instance) ip_address)).
Qed.

(** X6: the write actions never answer with success.  [perform_create],
    [perform_update] and [perform_destroy] call [get_client_ip] without its
    argument after they have saved, so each of them raises, always: a create
    never answers 201, an update never 200, a delete never 204.  What was
    saved stays: when the serializer's [create] or [update], or the [save]
    of the soft delete, has returned, the method raises [TypeError] and
    leaves the state that the save left. *)
Theorem write_actions_never_succeed :
  (forall request validated_data c,
      is_ok (fst (CulturalEntryViewSet.perform_create request validated_data c)) = false)
  /\ (forall request instance validated_data c,
         is_ok (fst (CulturalEntryViewSet.perform_update request instance
                       validated_data c)) = false)
  /\ (forall request instance c,
         is_ok (fst (CulturalEntryViewSet.perform_destroy request instance c)) = false)
  /\ (forall request c,
         status (fst (dispatch Create request c)) <> 201)
  /\ (forall request pk c,
         status (fst (dispatch (Update pk) request c)) <> 200
         /\ status (fst (dispatch (PartialUpdate pk) request c)) <> 200
         /\ status (fst (dispatch (Destroy pk) request c)) <> 204)
  /\ (forall request validated_data c entry c1,
         CulturalEntrySerializer.create validated_data c = (Ok entry, c1) ->
         CulturalEntryViewSet.perform_create request validated_data c
         = (Raise TypeError, c1))
  /\ (forall request instance validated_data c instance' c1,
         CulturalEntrySerializer.update instance validated_data c = (Ok instance', c1) ->
         CulturalEntryViewSet.perform_update request instance validated_data c
         = (Raise TypeError, c1))
  /\ (forall request instance c saved c1,
         CulturalEntry_save (CulturalEntry.set_is_active false instance) c
         = (Ok saved, c1) ->
         CulturalEntryViewSet.perform_destroy request instance c
         = (Raise TypeError, c1)).
Proof.
  assert (Hupdate : forall request pk partial c,
             status (fst (let (r, c') := CulturalEntryViewSet.update request pk partial c in
                          match r with
                          | Ok response => (response, c')
                          | Raise Http404 => (mkResponse 404 JNull, c')
                          | Raise ValidationError => (mkResponse 400 JNull, c')
                          | Raise _ => (mkResponse 500 JNull, c')
                          end)) <> 200).
  { intros request pk partial c. unfold CulturalEntryViewSet.update.
    unfold bind at 1.
    destruct (CulturalEntryViewSet.get_object request pk c) as [[instance|e] c1];
      [|destruct e; simpl; discriminate].
    unfold bind at 1. unfold lift at 1.
    destruct (CulturalEntrySerializer.run_validation partial (data request))
      as [vd|e]; [|destruct e; simpl; discriminate].
    unfold bind at 1. rewrite perform_update_eq.
    destruct (CulturalEntrySerializer.update instance vd c1) as [[i|e] c2];
      [|destruct e]; simpl; discriminate. }
  split; [|split; [|split; [|split; [|split; [|split; [|split]]]]]].
  - intros request validated_data c. rewrite perform_create_eq.
    now destruct (CulturalEntrySerializer.create validated_data c) as [[a|e] c1].
  - intros request instance validated_data c. rewrite perform_update_eq.
    now destruct (CulturalEntrySerializer.update instance validated_data c)
      as [[a|e] c1].
  - intros request instance c. rewrite perform_destroy_eq.
    now destruct (CulturalEntry_save _ c) as [[a|e] c1].
  - intros request c. unfold dispatch.
    destruct (is_safe Create || CulturalEntryViewSet.is_authenticated request)%bool;
      [|simpl; discriminate].
    simpl view. unfold CulturalEntryViewSet.create.
    unfold bind at 1. unfold lift at 1.
    destruct (CulturalEntrySerializer.run_validation false (data request))
      as [vd|e]; [|destruct e; simpl; discriminate].
    unfold bind at 1. rewrite perform_create_eq.
    destruct (CulturalEntrySerializer.create vd c) as [[i|e] c2];
      [|destruct e]; simpl; discriminate.
  - intros request pk c. unfold dispatch. simpl is_safe. simpl orb.
    destruct (CulturalEntryViewSet.is_authenticated request);
      [|simpl; repeat split; discriminate].
    split; [apply Hupdate|]. split; [apply Hupdate|].
    simpl view. unfold CulturalEntryViewSet.destroy.
    unfold bind at 1.
    destruct (CulturalEntryViewSet.get_object request pk c) as [[instance|e] c1];
      [|destruct e; simpl; discriminate].
    unfold bind at 1. rewrite perform_destroy_eq.
    destruct (CulturalEntry_save _ c1) as [[i|e] c2];
      [|destruct e]; simpl; discriminate.
  - intros request validated_data c entry c1 Hcreate.
    now rewrite perform_create_eq, Hcreate.
  - intros request instance validated_data c instance' c1 Hupd.
    now rewrite perform_update_eq, Hupd.
  - intros request instance c saved c1 Hsave.
    now rewrite perform_destroy_eq, Hsave.
Qed.

Lemma write_actions_never_succeed_witness :
  is_ok (fst (CulturalEntrySerializer.create create_payload (fresh []))) = true
  /\ fst (CulturalEntryViewSet.perform_create
            (mkRequest (Some 7) [] [] (JObj create_payload) None) create_payload
            (fresh []))
     = Raise TypeError
  /\ status (fst (dispatch Create (mkRequest (Some 7) [] [] (JObj create_payload) None)
                    (fresh []))) = 500
  /\ map CulturalEntry.isiZulu_text
         (cultural_entries
            (tables (snd (dispatch Create
                            (mkRequest (Some 7) [] [] (JObj create_payload) None)
                            (fresh []))))) = ["Ubuntu"].
Proof.
  split; [reflexivity|].
  pose proof (proj1 (proj2 (proj2 (proj2 (proj2 (proj2 write_actions_never_succeed)))))
                (mkRequest (Some 7) [] [] (JObj create_payload) None) create_payload
                (fresh []) _ _ eq_refl) as H.
  split; [rewrite H; reflexivity|]. split; reflexivity.
Defined.

(** ** Reading a computation backwards *)

Lemma bind_ok {A B} (m : M A) (k : A -> M B) c b c' :
  bind m k c = (Ok b, c') ->
  exists a c1, m c = (Ok a, c1) /\ k a c1 = (Ok b, c').
Proof.
  unfold bind. destruct (m c) as [[a|e] c1]; [|discriminate].
  intros H. exists a, c1. auto.
Qed.

Lemma prepare_ok {A} (x : result A) c a c' :
  prepare x c = (Ok a, c') -> x = Ok a /\ c' = c.
Proof. unfold prepare. destruct x; intros H; inversion H; auto. Qed.

Lemma lift_ok {A} (x : result A) c a c' :
  lift x c = (Ok a, c') -> x = Ok a /\ c' = c.
Proof. unfold lift. intros H; inversion H; auto. Qed.

Lemma ret_ok {A} (x : A) c a c' : ret x c = (Ok a, c') -> a = x /\ c' = c.
Proof. unfold ret. intros H; inversion H; auto. Qed.

Lemma now_ok c t c' : now c = (Ok t, c') -> t = clock c /\ c' = c.
Proof. unfold now. intros H; inversion H; auto. Qed.

Lemma execute_ok stmt c u c' :
  execute stmt c = (Ok u, c') ->
  next_fault c = false /\ exists t, stmt c = Ok t /\ c' = with_tables t (tick c).
Proof.
  unfold execute. destruct (next_fault c); [discriminate|].
  destruct (stmt c) as [t|e]; [|discriminate].
  intros H; inversion H. split; [reflexivity|]. exists t. auto.
Qed.

Lemma pk_value_ok v (next : M Z) c pk c' :
  (forall c0 n c1, next c0 = (Ok n, c1) ->
                   tables c1 = tables c0 /\ clock c1 = clock c0
                   /\ faults c1 = faults c0) ->
  pk_value v next c = (Ok pk, c') ->
  tables c' = tables c /\ clock c' = clock c /\ faults c' = faults c.
Proof.
  intros Hnext. unfold pk_value.
  destruct v as [[j|e]|]; try (apply Hnext).
  - destruct j; try (apply Hnext);
      try (intros H; apply prepare_ok in H; destruct H; discriminate).
    intros H. apply ret_ok in H. destruct H as [_ ->]. auto.
  - intros H; apply prepare_ok in H; destruct H; discriminate.
Qed.

Lemma next_entry_id_ok c0 n c1 :
  next_entry_id c0 = (Ok n, c1) ->
  tables c1 = tables c0 /\ clock c1 = clock c0 /\ faults c1 = faults c0.
Proof. unfold next_entry_id. intros H; inversion H; auto. Qed.

Lemma next_example_id_ok c0 n c1 :
  next_example_id c0 = (Ok n, c1) ->
  tables c1 = tables c0 /\ clock c1 = clock c0 /\ faults c1 = faults c0.
Proof. unfold next_example_id. intros H; inversion H; auto. Qed.

Lemma next_translation_id_ok c0 n c1 :
  next_translation_id c0 = (Ok n, c1) ->
  tables c1 = tables c0 /\ clock c1 = clock c0 /\ faults c1 = faults c0.
Proof. unfold next_translation_id. intros H; inversion H; auto. Qed.

(** Takes the successful runs of chains of binds apart, step by step. *)
Ltac unbind H :=
  repeat match goal with
         | Hb : bind _ _ _ = (Ok _, _) |- _ =>
             let a := fresh "a" in
             let c1 := fresh "c" in
             let H1 := fresh "Hstep" in
             apply bind_ok in Hb; destruct Hb as [a [c1 [H1 Hb]]]
         end.

(** Resolves the steps of such a run that neither read nor write. *)
Ltac unstep :=
  repeat match goal with
         | Hp : prepare _ _ = (Ok _, _) |- _ =>
             apply prepare_ok in Hp; destruct Hp as [? ?]; subst
         | Hp : lift _ _ = (Ok _, _) |- _ =>
             apply lift_ok in Hp; destruct Hp as [? ?]; subst
         | Hp : now _ = (Ok _, _) |- _ =>
             apply now_ok in Hp; destruct Hp as [? ?]; subst
         | Hp : ret _ _ = (Ok _, _) |- _ =>
             apply ret_ok in Hp; destruct Hp as [? ?]; subst
         end.

Lemma CulturalEntry_objects_create_ok kw c e c' :
  CulturalEntry_objects_create kw c = (Ok e, c') ->
  tables c' = set_entries (cultural_entries (tables c) ++ [e]) (tables c)
  /\ text_value (dict_get "isiZulu_text" kw) = Ok (CulturalEntry.isiZulu_text e)
  /\ text_value (dict_get "english_translation" kw)
     = Ok (CulturalEntry.english_translation e)
  /\ text_value (dict_get "part_of_speech" kw) = Ok (CulturalEntry.part_of_speech e)
  /\ text_value (dict_get "genre" kw) = Ok (CulturalEntry.genre e)
  /\ text_value (dict_get "cultural_context" kw) = Ok (CulturalEntry.cultural_context e)
  /\ text_value (dict_get "source" kw) = Ok (CulturalEntry.source e)
  /\ int_value 0 (dict_get "frequency" kw) = Ok (CulturalEntry.frequency e)
  /\ bool_value true (dict_get "is_active" kw) = Ok (CulturalEntry.is_active e)
  /\ CulturalEntry.created_at e = clock c
  /\ CulturalEntry.updated_at e = clock c
  /\ (dict_get "id" kw = None -> CulturalEntry.id e = entry_seq c)
  /\ ~ In (CulturalEntry.id e) (entry_ids (tables c)).
Proof.
  unfold CulturalEntry_objects_create.
  destruct (unexpected CulturalEntry.fields kw); [|discriminate].
  intros H. unbind H. unstep.
  match goal with
  | He : execute _ _ = (Ok _, _) |- _ =>
      apply execute_ok in He; destruct He as [_ [t [Hins ->]]]
  end.
  match goal with
  | Hp : pk_value _ _ c = (Ok ?pk, ?c1) |- _ =>
      assert (Hpk : tables c1 = tables c /\ clock c1 = clock c /\ faults c1 = faults c)
        by (eapply pk_value_ok; [apply next_entry_id_ok | exact Hp]);
      rename Hp into Hkey
  end.
  destruct Hpk as [Ht [Hc _]].
  unfold insert_entry in Hins. simpl in Hins.
  destruct (existsb _ _) eqn:Hex; [discriminate|]. injection Hins as <-.
  simpl. rewrite Ht, Hc. repeat split; auto.
  - intros Hnone. rewrite Hnone in Hkey. unfold pk_value, next_entry_id in Hkey.
    now inversion Hkey.
  - unfold entry_ids. rewrite <- Ht. intros Hin. apply in_map_iff in Hin.
    destruct Hin as [r [Hid Hr]].
    rewrite <- not_true_iff_false in Hex. apply Hex.
    apply existsb_exists. exists r. split; [assumption | now apply Z.eqb_eq].
Qed.

Lemma UsageExample_objects_create_ok kw c u c' :
  UsageExample_objects_create kw c = (Ok u, c') ->
  tables c' = set_examples (usage_examples (tables c) ++ [u]) (tables c)
  /\ fk_value (dict_get "entry" kw) = Ok (UsageExample.entry u)
  /\ text_value (dict_get "isiZulu_example" kw) = Ok (UsageExample.isiZulu_example u)
  /\ text_value (dict_get "english_example" kw) = Ok (UsageExample.english_example u).
Proof.
  unfold UsageExample_objects_create.
  destruct (unexpected UsageExample.fields kw); [|discriminate].
  intros H. unbind H. unstep.
  match goal with
  | He : execute _ _ = (Ok _, _) |- _ =>
      apply execute_ok in He; destruct He as [_ [t [Hins ->]]]
  end.
  match goal with
  | Hp : pk_value _ _ c = (Ok ?pk, ?c1) |- _ =>
      assert (Hpk : tables c1 = tables c /\ clock c1 = clock c /\ faults c1 = faults c)
        by (eapply pk_value_ok; [apply next_example_id_ok | exact Hp])
  end.
  destruct Hpk as [Ht _].
  unfold insert_example in Hins. simpl in Hins.
  destruct (_ || _)%bool; [discriminate|]. injection Hins as <-.
  simpl. rewrite Ht. repeat split; auto.
Qed.

Lemma AdditionalTranslation_objects_create_ok kw c a c' :
  AdditionalTranslation_objects_create kw c = (Ok a, c') ->
  tables c' = set_translations (additional_translations (tables c) ++ [a]) (tables c)
  /\ fk_value (dict_get "entry" kw) = Ok (AdditionalTranslation.entry a)
  /\ text_value (dict_get "language" kw) = Ok (AdditionalTranslation.language a)
  /\ text_value (dict_get "translation" kw) = Ok (AdditionalTranslation.translation a)
  /\ forall r, In r (additional_translations (tables c)) ->
               AdditionalTranslation.entry r = AdditionalTranslation.entry a ->
               AdditionalTranslation.language r <> AdditionalTranslation.language a.
Proof.
  unfold AdditionalTranslation_objects_create.
  destruct (unexpected AdditionalTranslation.fields kw); [|discriminate].
  intros H. unbind H. unstep.
  match goal with
  | He : execute _ _ = (Ok _, _) |- _ =>
      apply execute_ok in He; destruct He as [_ [t [Hins ->]]]
  end.
  match goal with
  | Hp : pk_value _ _ c = (Ok ?pk, ?c1) |- _ =>
      assert (Hpk : tables c1 = tables c /\ clock c1 = clock c /\ faults c1 = faults c)
        by (eapply pk_value_ok; [apply next_translation_id_ok | exact Hp])
  end.
  destruct Hpk as [Ht _].
  unfold insert_translation in Hins. simpl in Hins.
  destruct (_ || _ || _)%bool eqn:Hchk; [discriminate|]. injection Hins as <-.
  simpl. rewrite Ht. repeat split; auto.
  intros r Hr Hentry Hlang.
  apply orb_false_elim in Hchk. destruct Hchk as [_ Hdup].
  rewrite <- not_true_iff_false in Hdup. apply Hdup.
  apply existsb_exists. exists r. rewrite <- Ht in Hr. split; [exact Hr|].
  simpl. rewrite Hentry, Hlang, Z.eqb_refl, String.eqb_refl. reflexivity.
Qed.

Lemma dict_get_map_PJson k (d : list (string * json)) :
  dict_get k (map (fun kv => (fst kv, PJson (snd kv))) d)
  = option_map PJson (dict_get k d).
Proof.
  induction d as [|[k' v] d IH]; simpl; [reflexivity|].
  destruct (String.eqb k k'); [reflexivity | exact IH].
Qed.

Lemma child_kwargs_ok entry item kw :
  CulturalEntrySerializer.child_kwargs entry item = Ok kw ->
  exists d, item = JObj d
            /\ dict_get "entry" kw = Some (PEntry entry)
            /\ forall k, k <> "entry" -> dict_get k kw = option_map PJson (dict_get k d).
Proof.
  unfold CulturalEntrySerializer.child_kwargs.
  destruct item as [| | | | |d]; try discriminate.
  destruct (dict_has "entry" d); [discriminate|].
  intros H; injection H as <-. exists d. split; [reflexivity|].
  split; [reflexivity|]. intros k Hk. simpl.
  destruct (String.eqb_spec k "entry"); [contradiction|].
  apply dict_get_map_PJson.
Qed.

Lemma set_examples_twice l l' t : set_examples l (set_examples l' t) = set_examples l t.
Proof. reflexivity. Qed.

Lemma set_translations_twice l l' t :
  set_translations l (set_translations l' t) = set_translations l t.
Proof. reflexivity. Qed.

Lemma create_examples_ok entry l :
  forall c u c',
    CulturalEntrySerializer.create_examples entry l c = (Ok u, c') ->
    exists rows,
      tables c' = set_examples (usage_examples (tables c) ++ rows) (tables c)
      /\ Forall2 example_of_payload l rows
      /\ Forall (fun r => UsageExample.entry r = CulturalEntry.id entry) rows.
Proof.
  unfold CulturalEntrySerializer.create_examples.
  induction l as [|item l IH]; intros c u c' H; simpl in H.
  - apply ret_ok in H. destruct H as [_ ->]. exists []. rewrite app_nil_r.
    split; [now destruct (tables c)|]. split; constructor.
  - unbind H. unstep.
    match goal with
    | Hk : CulturalEntrySerializer.child_kwargs _ _ = Ok _ |- _ =>
        apply child_kwargs_ok in Hk; destruct Hk as [d [-> [Hentry Hother]]]
    end.
    match goal with
    | Hc : UsageExample_objects_create _ _ = (Ok _, _) |- _ =>
        apply UsageExample_objects_create_ok in Hc;
        destruct Hc as [Ht [Hfk [Hz He]]]
    end.
    destruct (IH _ _ _ H) as [rows [Ht' [Hall Hfk']]].
    rewrite Hentry in Hfk. simpl in Hfk. injection Hfk as Hfk.
    rewrite Hother in Hz, He by discriminate.
    match goal with
    | _ : tables ?c1 = set_examples (_ ++ [?row]) _ |- _ => exists (row :: rows)
    end.
    split; [|split].
    + rewrite Ht', Ht. simpl. now rewrite <- app_assoc.
    + constructor; [|exact Hall]. exists d. auto.
    + constructor; [now symmetry | exact Hfk'].
Qed.

Lemma create_translations_ok entry l :
  forall c u c',
    CulturalEntrySerializer.create_translations entry l c = (Ok u, c') ->
    exists rows,
      tables c' = set_translations (additional_translations (tables c) ++ rows) (tables c)
      /\ Forall2 translation_of_payload l rows
      /\ Forall (fun r => AdditionalTranslation.entry r = CulturalEntry.id entry) rows.
Proof.
  unfold CulturalEntrySerializer.create_translations.
  induction l as [|item l IH]; intros c u c' H; simpl in H.
  - apply ret_ok in H. destruct H as [_ ->]. exists []. rewrite app_nil_r.
    split; [now destruct (tables c)|]. split; constructor.
  - unbind H. unstep.
    match goal with
    | Hk : CulturalEntrySerializer.child_kwargs _ _ = Ok _ |- _ =>
        apply child_kwargs_ok in Hk; destruct Hk as [d [-> [Hentry Hother]]]
    end.
    match goal with
    | Hc : AdditionalTranslation_objects_create _ _ = (Ok _, _) |- _ =>
        apply AdditionalTranslation_objects_create_ok in Hc;
        destruct Hc as [Ht [Hfk [Hz [He _]]]]
    end.
    destruct (IH _ _ _ H) as [rows [Ht' [Hall Hfk']]].
    rewrite Hentry in Hfk. simpl in Hfk. injection Hfk as Hfk.
    rewrite Hother in Hz, He by discriminate.
    match goal with
    | _ : tables ?c1 = set_translations (_ ++ [?row]) _ |- _ => exists (row :: rows)
    end.
    split; [|split].
    + rewrite Ht', Ht. simpl. now rewrite <- app_assoc.
    + constructor; [|exact Hall]. exists d. auto.
    + constructor; [now symmetry | exact Hfk'].
Qed.

Lemma dict_get_remove_other {V} k x (d : list (string * V)) :
  k <> x -> dict_get k (CulturalEntrySerializer.dict_remove x d) = dict_get k d.
Proof.
  intros Hne. unfold CulturalEntrySerializer.dict_remove.
  induction d as [|[k' v] d IH]; simpl; [reflexivity|].
  destruct (String.eqb_spec k' x) as [->|Hx]; simpl.
  - destruct (String.eqb_spec k x); [contradiction | exact IH].
  - destruct (String.eqb k k'); [reflexivity | exact IH].
Qed.

(** X7: [CulturalEntrySerializer.create] attaches the nested rows to the
    entry it creates.  When it returns, one row has been added to each table
    it writes: the entry, under a key that was not in use; one usage example
    per item of [examples] and one translation per item of
    [additional_translations], in the order of the payload, with the texts
    of their items, and each with the new entry as its parent. *)
Theorem serializer_create_attaches_children :
  forall validated_data c entry c',
    CulturalEntrySerializer.create validated_data c = (Ok entry, c') ->
    exists examples_data translations_data examples translations,
      py_iter (nested "examples" validated_data (JArr [])) = Ok examples_data
      /\ py_iter (nested "additional_translations" validated_data (JArr []))
         = Ok translations_data
      /\ tables c'
         = mkTables (cultural_entries (tables c) ++ [entry])
                    (usage_examples (tables c) ++ examples)
                    (additional_translations (tables c) ++ translations)
                    (collocations (tables c))
                    (activity_logs (tables c))
      /\ Forall2 example_of_payload examples_data examples
      /\ Forall2 translation_of_payload translations_data translations
      /\ Forall (fun u => UsageExample.entry u = CulturalEntry.id entry) examples
      /\ Forall (fun a => AdditionalTranslation.entry a = CulturalEntry.id entry)
                translations
      /\ ~ In (CulturalEntry.id entry) (entry_ids (tables c)).
Proof.
  intros validated_data c entry c' H.
  unfold CulturalEntrySerializer.create in H.
  rewrite (dict_get_remove_other "additional_translations" "examples") in H
    by discriminate.
  fold (nested "examples" validated_data (JArr [])) in H.
  fold (nested "additional_translations" validated_data (JArr [])) in H.
  unbind H. unstep.
  match goal with
  | Hc : CulturalEntry_objects_create _ _ = (Ok _, _) |- _ =>
      apply CulturalEntry_objects_create_ok in Hc;
      destruct Hc as [Ht [_ [_ [_ [_ [_ [_ [_ [_ [_ [_ [_ Hnew]]]]]]]]]]]]
  end.
  match goal with
  | Hc : CulturalEntrySerializer.create_examples _ _ _ = (Ok _, _) |- _ =>
      apply create_examples_ok in Hc; destruct Hc as [examples [Hte [Hex Hexp]]]
  end.
  match goal with
  | Hc : CulturalEntrySerializer.create_translations _ _ _ = (Ok _, _) |- _ =>
      apply create_translations_ok in Hc;
      destruct Hc as [translations [Htt [Htr Htrp]]]
  end.
  do 2 eexists. exists examples, translations.
  split; [eassumption|]. split; [eassumption|].
  split; [|auto].
  rewrite Htt, Hte, Ht. reflexivity.
Qed.

Lemma serializer_create_attaches_children_witness :
  exists entry c',
    CulturalEntrySerializer.create create_payload (fresh []) = (Ok entry, c')
    /\ exists examples_data translations_data examples translations,
         py_iter (nested "examples" create_payload (JArr [])) = Ok examples_data
         /\ py_iter (nested "additional_translations" create_payload (JArr []))
            = Ok translations_data
         /\ tables c'
            = mkTables (cultural_entries (tables (fresh [])) ++ [entry])
                       (usage_examples (tables (fresh [])) ++ examples)
                       (additional_translations (tables (fresh [])) ++ translations)
                       (collocations (tables (fresh [])))
                       (activity_logs (tables (fresh [])))
         /\ Forall2 example_of_payload examples_data examples
         /\ Forall2 translation_of_payload translations_data translations
         /\ Forall (fun u => UsageExample.entry u = CulturalEntry.id entry) examples
         /\ Forall (fun a => AdditionalTranslation.entry a = CulturalEntry.id entry)
                   translations
         /\ ~ In (CulturalEntry.id entry) (entry_ids (tables (fresh []))).
Proof.
  eexists. eexists. split; [reflexivity|].
  apply (serializer_create_attaches_children create_payload (fresh [])).
  reflexivity.
Defined.

(** ** What a failed create leaves behind *)

Lemma children_added_refl pk t : children_added pk t t.
Proof.
  repeat split; auto. exists [], []. rewrite !app_nil_r. repeat split; constructor.
Qed.

Lemma children_added_trans pk a b c :
  children_added pk a b -> children_added pk b c -> children_added pk a c.
Proof.
  intros [He1 [Hc1 [Hl1 [x1 [y1 [Hx1 [Hy1 [Fx1 Fy1]]]]]]]]
         [He2 [Hc2 [Hl2 [x2 [y2 [Hx2 [Hy2 [Fx2 Fy2]]]]]]]].
  split; [congruence|]. split; [congruence|]. split; [congruence|].
  exists (x1 ++ x2)%list, (y1 ++ y2)%list.
  rewrite Hx2, Hx1, Hy2, Hy1, !app_assoc.
  repeat split; auto; apply Forall_app; auto.
Qed.

Section Children.

Variable pk : Z.

Ltac adding := frame (children_added_refl pk) (children_added_trans pk).

Lemma adds_UsageExample kw :
  fk_value (dict_get "entry" kw) = Ok pk ->
  keeps (children_added pk) (UsageExample_objects_create kw).
Proof.
  intros Hfk. unfold UsageExample_objects_create.
  destruct (unexpected UsageExample.fields kw); [|adding].
  rewrite Hfk. intros c r c' H. unfold bind at 1 in H. unfold prepare at 1 in H.
  revert c r c' H.
  change (keeps (children_added pk)
            (bind (prepare (text_value (dict_get "isiZulu_example" kw))) (fun isiZulu_example =>
             bind (prepare (text_value (dict_get "english_example" kw))) (fun english_example =>
             bind (pk_value (dict_get "id" kw) next_example_id) (fun key =>
             bind now (fun t =>
             bind (execute (insert_example
                              (UsageExample.mk key pk isiZulu_example english_example t t)))
                  (fun _ => ret (UsageExample.mk key pk isiZulu_example
                                                 english_example t t)))))))).
  adding. apply (keeps_execute _ (children_added_refl pk)). intros c t.
  unfold insert_example. destruct (_ || _)%bool; [discriminate|].
  intros H; inversion H; subst. simpl. repeat split; auto.
  eexists. exists []. simpl. split; [reflexivity|].
  split; [now rewrite app_nil_r|]. split; repeat constructor.
Qed.

Lemma adds_AdditionalTranslation kw :
  fk_value (dict_get "entry" kw) = Ok pk ->
  keeps (children_added pk) (AdditionalTranslation_objects_create kw).
Proof.
  intros Hfk. unfold AdditionalTranslation_objects_create.
  destruct (unexpected AdditionalTranslation.fields kw); [|adding].
  rewrite Hfk. intros c r c' H. unfold bind at 1 in H. unfold prepare at 1 in H.
  revert c r c' H.
  change (keeps (children_added pk)
            (bind (prepare (text_value (dict_get "language" kw))) (fun language =>
             bind (prepare (text_value (dict_get "translation" kw))) (fun translation =>
             bind (pk_value (dict_get "id" kw) next_translation_id) (fun key =>
             bind now (fun t =>
             bind (execute (insert_translation
                              (AdditionalTranslation.mk key pk language translation t t)))
                  (fun _ => ret (AdditionalTranslation.mk key pk language
                                                          translation t t)))))))).
  adding. apply (keeps_execute _ (children_added_refl pk)). intros c t.
  unfold insert_translation. destruct (_ || _ || _)%bool; [discriminate|].
  intros H; inversion H; subst. simpl. repeat split; auto.
  exists []. eexists. simpl. split; [now rewrite app_nil_r|].
  split; [reflexivity|]. split; repeat constructor.
Qed.

End Children.

Lemma child_kwargs_parent entry item kw :
  CulturalEntrySerializer.child_kwargs entry item = Ok kw ->
  fk_value (dict_get "entry" kw) = Ok (CulturalEntry.id entry).
Proof.
  intros H. apply child_kwargs_ok in H. destruct H as [d [_ [Hentry _]]].
  now rewrite Hentry.
Qed.

Lemma adds_create_examples entry l :
  keeps (children_added (CulturalEntry.id entry))
        (CulturalEntrySerializer.create_examples entry l).
Proof.
  unfold CulturalEntrySerializer.create_examples.
  apply (keeps_for_each _ (children_added_refl _) (children_added_trans _)).
  intros item c r c'.
  apply (bind_from _ _ _ c r c' (children_added_trans _)).
  - apply (keeps_lift _ (children_added_refl _)).
  - intros kw c1 Hkw. apply lift_ok in Hkw. destruct Hkw as [Hkw ->].
    apply child_kwargs_parent in Hkw. revert c.
    change (keeps (children_added (CulturalEntry.id entry))
              (bind (UsageExample_objects_create kw) (fun _ => ret tt))).
    apply (keeps_bind _ (children_added_trans _)).
    + now apply adds_UsageExample.
    + intros _. apply (keeps_ret _ (children_added_refl _)).
Qed.

Lemma adds_create_translations entry l :
  keeps (children_added (CulturalEntry.id entry))
        (CulturalEntrySerializer.create_translations entry l).
Proof.
  unfold CulturalEntrySerializer.create_translations.
  apply (keeps_for_each _ (children_added_refl _) (children_added_trans _)).
  intros item c r c'.
  apply (bind_from _ _ _ c r c' (children_added_trans _)).
  - apply (keeps_lift _ (children_added_refl _)).
  - intros kw c1 Hkw. apply lift_ok in Hkw. destruct Hkw as [Hkw ->].
    apply child_kwargs_parent in Hkw. revert c.
    change (keeps (children_added (CulturalEntry.id entry))
              (bind (AdditionalTranslation_objects_create kw) (fun _ => ret tt))).
    apply (keeps_bind _ (children_added_trans _)).
    + now apply adds_AdditionalTranslation.
    + intros _. apply (keeps_ret _ (children_added_refl _)).
Qed.

(** X8: [CulturalEntrySerializer.create] is not all-or-nothing.  Once the
    entry's row has been inserted it stays in the table whatever comes of
    the nested rows, and so do the nested rows written before a failure:
    whether [create] returns or raises, the state it leaves has the new
    entry and, besides, only child rows of that entry; the collocations and
    the log are as they were.  (The import runs in a transaction; the
    serializer does not.) *)
Theorem serializer_create_keeps_partial_writes :
  forall validated_data c entry c1 r c',
    CulturalEntry_objects_create (entry_fields validated_data) c = (Ok entry, c1) ->
    CulturalEntrySerializer.create validated_data c = (r, c') ->
    cultural_entries (tables c') = (cultural_entries (tables c) ++ [entry])%list
    /\ collocations (tables c') = collocations (tables c)
    /\ activity_logs (tables c') = activity_logs (tables c)
    /\ exists examples translations,
         usage_examples (tables c') = (usage_examples (tables c) ++ examples)%list
         /\ additional_translations (tables c')
            = (additional_translations (tables c) ++ translations)%list
         /\ Forall (fun u => UsageExample.entry u = CulturalEntry.id entry) examples
         /\ Forall (fun a => AdditionalTranslation.entry a = CulturalEntry.id entry)
                   translations.
Proof.
  intros validated_data c entry c1 r c' Hentry Hrun.
  unfold CulturalEntrySerializer.create in Hrun.
  fold (entry_fields validated_data) in Hrun.
  unfold bind at 1 in Hrun. rewrite Hentry in Hrun.
  apply CulturalEntry_objects_create_ok in Hentry. destruct Hentry as [Ht _].
  assert (Hrest : children_added (CulturalEntry.id entry) (tables c1) (tables c')).
  { revert Hrun. generalize c1 r c'.
    match goal with
    | |- forall c0 r0 c0', ?m c0 = (r0, c0') -> _ =>
        change (keeps (children_added (CulturalEntry.id entry)) m)
    end.
    frame (children_added_refl (CulturalEntry.id entry))
          (children_added_trans (CulturalEntry.id entry));
      auto using adds_create_examples, adds_create_translations. }
  destruct Hrest as [He [Hc [Hl [examples [translations [Hx [Hy [Fx Fy]]]]]]]].
  rewrite He, Hc, Hl, Hx, Hy, Ht. simpl.
  split; [reflexivity|]. split; [reflexivity|]. split; [reflexivity|].
  exists examples, translations. auto.
Qed.

Lemma serializer_create_keeps_partial_writes_witness :
  exists entry c1 c',
    CulturalEntry_objects_create (entry_fields twice_isixhosa) (fresh [])
    = (Ok entry, c1)
    /\ CulturalEntrySerializer.create twice_isixhosa (fresh [])
       = (Raise IntegrityError, c')
    /\ cultural_entries (tables c') = [entry]
    /\ List.length (additional_translations (tables c')) = 1%nat.
Proof.
  eexists. eexists. eexists.
  split; [vm_compute; reflexivity|]. split; [vm_compute; reflexivity|].
  split; [|reflexivity].
  exact (proj1 (serializer_create_keeps_partial_writes twice_isixhosa (fresh [])
                  _ _ _ _ eq_refl eq_refl)).
Defined.

(** ** Updates through the serializer, row by row *)

Lemma setattr_fixed e attr v e' :
  In attr scalar_fields ->
  CulturalEntrySerializer.setattr e attr v = Ok e' ->
  CulturalEntry.id e' = CulturalEntry.id e
  /\ CulturalEntry.frequency e' = CulturalEntry.frequency e
  /\ CulturalEntry.created_at e' = CulturalEntry.created_at e.
Proof.
  intros Hin. destruct e. unfold scalar_fields in Hin. simpl in Hin.
  assert (Hfin : forall r : result CulturalEntry.t,
             (forall x, r = Ok x ->
                        CulturalEntry.id x = id /\ CulturalEntry.frequency x = frequency
                        /\ CulturalEntry.created_at x = created_at) ->
             r = Ok e' ->
             CulturalEntry.id e' = id /\ CulturalEntry.frequency e' = frequency
             /\ CulturalEntry.created_at e' = created_at)
    by (intros r Hr Hx; now apply Hr).
  repeat (destruct Hin as [<-|Hin];
          [unfold CulturalEntrySerializer.setattr; simpl; apply Hfin; intros x;
           destruct v as [|b|n|s|l|d]; simpl;
           try (intros H; first [discriminate H | inversion H; subst; now repeat split]);
           destruct n as [|[p|p|]|p]; simpl;
           intros H; first [discriminate H | inversion H; subst; now repeat split] |]).
  contradiction.
Qed.

Lemma setattrs_fixed items :
  forall e e',
    (forall k, In k (map fst items) -> In k scalar_fields) ->
    CulturalEntrySerializer.setattrs e items = Ok e' ->
    CulturalEntry.id e' = CulturalEntry.id e
    /\ CulturalEntry.frequency e' = CulturalEntry.frequency e
    /\ CulturalEntry.created_at e' = CulturalEntry.created_at e.
Proof.
  induction items as [|[attr value] items IH]; simpl; intros e e' Hk H.
  - inversion H; subst. now repeat split.
  - destruct (CulturalEntrySerializer.setattr e attr value) as [e1|x] eqn:Hs;
      [|discriminate].
    apply setattr_fixed in Hs; [|apply Hk; now left].
    destruct (IH e1 e' (fun k Hin => Hk k (or_intror Hin)) H) as [Hid [Hf Hc]].
    destruct Hs as [Hid1 [Hf1 Hc1]]. repeat split; congruence.
Qed.

Lemma CulturalEntry_save_ok instance c instance' c' :
  CulturalEntry_save instance c = (Ok instance', c') ->
  instance' = CulturalEntry.set_updated_at (clock c) instance
  /\ usage_examples (tables c') = usage_examples (tables c)
  /\ additional_translations (tables c') = additional_translations (tables c)
  /\ collocations (tables c') = collocations (tables c)
  /\ activity_logs (tables c') = activity_logs (tables c)
  /\ (In (CulturalEntry.id instance) (entry_ids (tables c)) ->
      cultural_entries (tables c')
      = map (fun r => if CulturalEntry.id r =? CulturalEntry.id instance
                      then instance' else r)
            (cultural_entries (tables c))).
Proof.
  unfold CulturalEntry_save. intros H. unbind H. unstep.
  match goal with
  | He : execute _ _ = (Ok _, _) |- _ =>
      apply execute_ok in He; destruct He as [_ [t [Hsave ->]]]
  end.
  unfold save_entry in Hsave.
  change (CulturalEntry.id (CulturalEntry.set_updated_at (clock c) instance))
    with (CulturalEntry.id instance) in Hsave.
  split; [reflexivity|].
  destruct (existsb _ _) eqn:Hex; injection Hsave as <-; simpl;
    repeat split; auto.
  intros Hin. exfalso. rewrite <- not_true_iff_false in Hex. apply Hex.
  apply in_map_iff in Hin. destruct Hin as [r [Hid Hr]].
  apply existsb_exists. exists r. split; [assumption | now apply Z.eqb_eq].
Qed.

Lemma replace_examples_ok instance examples_data c u c' :
  bind (delete_examples_of instance) (fun _ =>
  bind (lift (py_iter examples_data)) (fun examples_data0 =>
  CulturalEntrySerializer.create_examples instance examples_data0)) c = (Ok u, c') ->
  exists l rows,
    py_iter examples_data = Ok l
    /\ tables c'
       = set_examples
           (filter (fun r => negb (UsageExample.entry r =? CulturalEntry.id instance))
                   (usage_examples (tables c)) ++ rows)
           (tables c)
    /\ Forall2 example_of_payload l rows
    /\ Forall (fun r => UsageExample.entry r = CulturalEntry.id instance) rows.
Proof.
  intros H. unbind H. unstep.
  match goal with
  | He : delete_examples_of _ _ = (Ok _, _) |- _ =>
      unfold delete_examples_of in He;
      apply execute_ok in He; destruct He as [_ [t [Hdel ->]]]
  end.
  injection Hdel as <-.
  apply create_examples_ok in H. destruct H as [rows [Ht [Hall Hfk]]].
  eexists. exists rows. split; [eassumption|]. rewrite Ht. simpl. auto.
Qed.

Lemma replace_translations_ok instance translations_data c u c' :
  bind (delete_translations_of instance) (fun _ =>
  bind (lift (py_iter translations_data)) (fun translations_data0 =>
  CulturalEntrySerializer.create_translations instance translations_data0)) c
  = (Ok u, c') ->
  exists l rows,
    py_iter translations_data = Ok l
    /\ tables c'
       = set_translations
           (filter (fun r => negb (AdditionalTranslation.entry r
                                   =? CulturalEntry.id instance))
                   (additional_translations (tables c)) ++ rows)
           (tables c)
    /\ Forall2 translation_of_payload l rows
    /\ Forall (fun r => AdditionalTranslation.entry r = CulturalEntry.id instance) rows.
Proof.
  intros H. unbind H. unstep.
  match goal with
  | He : delete_translations_of _ _ = (Ok _, _) |- _ =>
      unfold delete_translations_of in He;
      apply execute_ok in He; destruct He as [_ [t [Hdel ->]]]
  end.
  injection Hdel as <-.
  apply create_translations_ok in H. destruct H as [rows [Ht [Hall Hfk]]].
  eexists. exists rows. split; [eassumption|]. rewrite Ht. simpl. auto.
Qed.

(** X9: what [CulturalEntrySerializer.update] changes, when it returns.  For
    validated data (the writable fields only) the row keeps its key, its
    counter and its creation time, takes the clock as [updated_at], and is
    the only row of the table that changes.  A nested field that was not
    supplied leaves the child rows alone; one that was supplied replaces
    them: all usage examples (translations) of the entry are deleted and one
    row per item of the payload is created, attached to the entry, in the
    order of the payload.  The child rows of other entries stay. *)
Theorem serializer_update_replaces_children :
  forall instance validated_data c instance' c',
    (forall k, In k (map fst validated_data) ->
               In k CulturalEntrySerializer.writable_fields) ->
    In (CulturalEntry.id instance) (entry_ids (tables c)) ->
    CulturalEntrySerializer.update instance validated_data c = (Ok instance', c') ->
    (CulturalEntry.id instance' = CulturalEntry.id instance
     /\ CulturalEntry.frequency instance' = CulturalEntry.frequency instance
     /\ CulturalEntry.created_at instance' = CulturalEntry.created_at instance
     /\ CulturalEntry.updated_at instance' = clock c)
    /\ cultural_entries (tables c')
       = map (fun r => if CulturalEntry.id r =? CulturalEntry.id instance
                       then instance' else r)
             (cultural_entries (tables c))
    /\ (dict_get "examples" validated_data = None ->
        usage_examples (tables c') = usage_examples (tables c))
    /\ (forall l, dict_get "examples" validated_data = Some (JArr l) ->
                  exists rows,
                    usage_examples (tables c')
                    = (filter (fun r => negb (UsageExample.entry r
                                              =? CulturalEntry.id instance))
                              (usage_examples (tables c)) ++ rows)%list
                    /\ Forall2 example_of_payload l rows
                    /\ Forall (fun r => UsageExample.entry r = CulturalEntry.id instance)
                              rows)
    /\ (dict_get "additional_translations" validated_data = None ->
        additional_translations (tables c') = additional_translations (tables c))
    /\ (forall l, dict_get "additional_translations" validated_data = Some (JArr l) ->
                  exists rows,
                    additional_translations (tables c')
                    = (filter (fun r => negb (AdditionalTranslation.entry r
                                              =? CulturalEntry.id instance))
                              (additional_translations (tables c)) ++ rows)%list
                    /\ Forall2 translation_of_payload l rows
                    /\ Forall (fun r => AdditionalTranslation.entry r
                                        = CulturalEntry.id instance) rows)
    /\ activity_logs (tables c') = activity_logs (tables c).
Proof.
  intros instance vd c instance' c' Hkeys Hin H.
  unfold CulturalEntrySerializer.update in H.
  rewrite (dict_get_remove_other "additional_translations" "examples") in H
    by discriminate.
  unbind H. unstep.
  match goal with
  | Hs : CulturalEntry_save _ _ = (Ok ?i, _) |- _ => rename i into saved
  end.
  match goal with
  | Hs : CulturalEntrySerializer.setattrs _ _ = Ok ?i |- _ =>
      apply setattrs_fixed in Hs; [|now apply scalar_after_pops];
      destruct Hs as [Hid [Hfreq Hcreated]]
  end.
  match goal with
  | Hs : CulturalEntry_save _ _ = (Ok _, _) |- _ =>
      apply CulturalEntry_save_ok in Hs;
      destruct Hs as [Hnew [Hx1 [Hy1 [_ [Hl1 He1]]]]]
  end.
  rewrite Hid in He1. specialize (He1 Hin).
  match type of Hstep1 with
  | _ ?c1 = (Ok _, ?c2) =>
      rename Hstep1 into Hs;
      assert (Hex : cultural_entries (tables c2) = cultural_entries (tables c1)
                    /\ additional_translations (tables c2)
                       = additional_translations (tables c1)
                    /\ activity_logs (tables c2) = activity_logs (tables c1)
                    /\ (dict_get "examples" vd = None ->
                        usage_examples (tables c2) = usage_examples (tables c1))
                    /\ (forall l, dict_get "examples" vd = Some (JArr l) ->
                          exists rows,
                            usage_examples (tables c2)
                            = (filter (fun r => negb (UsageExample.entry r
                                                      =? CulturalEntry.id saved))
                                      (usage_examples (tables c1)) ++ rows)%list
                            /\ Forall2 example_of_payload l rows
                            /\ Forall (fun r => UsageExample.entry r
                                                = CulturalEntry.id saved) rows));
      [destruct (dict_get "examples" vd) as [[| | | | |]|];
       try (apply ret_ok in Hs; destruct Hs as [_ ->];
            repeat split; auto; intros; discriminate);
       apply replace_examples_ok in Hs;
       destruct Hs as [l0 [rows [Hiter [Ht2 [Hall Hfk]]]]];
       rewrite Ht2; simpl; repeat split; auto; try (intros; discriminate);
       intros l1 Hsome; injection Hsome as <-; simpl in Hiter; injection Hiter as <-;
       exists rows; auto
      | clear Hs]
  end.
  match type of Hstep2 with
  | _ ?c2 = (Ok _, ?c3) =>
      rename Hstep2 into Hs;
      assert (Htr : cultural_entries (tables c3) = cultural_entries (tables c2)
                    /\ usage_examples (tables c3) = usage_examples (tables c2)
                    /\ activity_logs (tables c3) = activity_logs (tables c2)
                    /\ (dict_get "additional_translations" vd = None ->
                        additional_translations (tables c3)
                        = additional_translations (tables c2))
                    /\ (forall l, dict_get "additional_translations" vd
                                  = Some (JArr l) ->
                          exists rows,
                            additional_translations (tables c3)
                            = (filter (fun r => negb (AdditionalTranslation.entry r
                                                      =? CulturalEntry.id saved))
                                      (additional_translations (tables c2)) ++ rows)%list
                            /\ Forall2 translation_of_payload l rows
                            /\ Forall (fun r => AdditionalTranslation.entry r
                                                = CulturalEntry.id saved) rows));
      [destruct (dict_get "additional_translations" vd) as [[| | | | |]|];
       try (apply ret_ok in Hs; destruct Hs as [_ ->];
            repeat split; auto; intros; discriminate);
       apply replace_translations_ok in Hs;
       destruct Hs as [l0 [rows [Hiter [Ht2 [Hall Hfk]]]]];
       rewrite Ht2; simpl; repeat split; auto; try (intros; discriminate);
       intros l1 Hsome; injection Hsome as <-; simpl in Hiter; injection Hiter as <-;
       exists rows; auto
      | clear Hs]
  end.
  destruct Hex as [Ee [Ey [El [Enone Esome]]]].
  destruct Htr as [Te [Tx [Tl [Tnone Tsome]]]].
  assert (Hid' : CulturalEntry.id saved = CulturalEntry.id instance)
    by (rewrite Hnew; exact Hid).
  split.
  { rewrite Hnew. simpl. repeat split; assumption. }
  split; [congruence|].
  split; [intros Hn; rewrite Tx, (Enone Hn); assumption|].
  split.
  { intros l Hl. destruct (Esome l Hl) as [rows [Hrows [Hall Hfk]]].
    exists rows. rewrite Tx, Hrows, Hx1, Hid'. rewrite Hid' in Hfk. auto. }
  split; [intros Hn; rewrite (Tnone Hn), Ey; assumption|].
  split.
  { intros l Hl. destruct (Tsome l Hl) as [rows [Hrows [Hall Hfk]]].
    exists rows. rewrite Hrows, Ey, Hy1, Hid'. rewrite Hid' in Hfk. auto. }
  congruence.
Qed.

Lemma serializer_update_replaces_children_witness :
  exists instance' c',
    (forall k, In k (map fst update_payload) ->
               In k CulturalEntrySerializer.writable_fields)
    /\ In (CulturalEntry.id ubuntu) (entry_ids (tables (conn_of two_examples [])))
    /\ CulturalEntrySerializer.update ubuntu update_payload (conn_of two_examples [])
       = (Ok instance', c')
    /\ CulturalEntry.frequency instance' = CulturalEntry.frequency ubuntu
    /\ map UsageExample.isiZulu_example (usage_examples (tables c'))
       = ["Umuntu ngumuntu ngabantu"].
Proof.
  assert (Hkeys : forall k, In k (map fst update_payload) ->
                            In k CulturalEntrySerializer.writable_fields).
  { intros k [<-|[<-|[]]]; vm_compute; tauto. }
  assert (Hin : In (CulturalEntry.id ubuntu)
                   (entry_ids (tables (conn_of two_examples []))))
    by (left; reflexivity).
  eexists. eexists. split; [exact Hkeys|]. split; [exact Hin|].
  split; [vm_compute; reflexivity|].
  split; [|reflexivity].
  exact (proj1 (proj2 (proj1 (serializer_update_replaces_children
                                ubuntu update_payload (conn_of two_examples []) _ _
                                Hkeys Hin eq_refl)))).
Defined.

(** ** Read-only fields *)

Lemma dict_get_absent {V} k (d : list (string * V)) :
  ~ In k (map fst d) -> dict_get k d = None.
Proof.
  induction d as [|[k' v] d IH]; simpl; intros Hn; [reflexivity|].
  destruct (String.eqb_spec k k') as [->|Hne]; [tauto|]. apply IH. tauto.
Qed.

Lemma entry_fields_keys validated_data k :
  In k (map fst (entry_fields validated_data)) ->
  In k (map fst validated_data) /\ k <> "examples" /\ k <> "additional_translations".
Proof.
  unfold entry_fields. rewrite map_map. simpl.
  change (map (fun x : string * json => fst x)) with (@map (string * json) _ fst).
  intros H. apply dict_remove_keys in H. destruct H as [H H1].
  apply dict_remove_keys in H. destruct H as [H H2]. auto.
Qed.

(** X10: the columns a client cannot write.  For validated data that
    carries writable fields only, so none of the serializer's
    [read_only_fields], the row that [create] makes starts with the counter
    at 0, the default of the column, takes its key from the sequence, a key
    that is not in use, and both its timestamps from the clock; it is active
    unless [is_active] was supplied. *)
Theorem create_fills_read_only_columns :
  forall validated_data c entry c',
    (forall k, In k (map fst validated_data) ->
               In k CulturalEntrySerializer.writable_fields) ->
    CulturalEntrySerializer.create validated_data c = (Ok entry, c') ->
    CulturalEntry.frequency entry = 0
    /\ CulturalEntry.id entry = entry_seq c
    /\ ~ In (CulturalEntry.id entry) (entry_ids (tables c))
    /\ CulturalEntry.created_at entry = clock c
    /\ CulturalEntry.updated_at entry = clock c
    /\ (~ In "is_active" (map fst validated_data) ->
        CulturalEntry.is_active entry = true).
Proof.
  intros vd c entry c' Hkeys H.
  assert (Hro : forall k, In k CulturalEntrySerializer.writable_fields ->
                          ~ In k CulturalEntrySerializer.Meta_read_only_fields).
  { intros k Hw Hr. vm_compute in Hw, Hr.
    repeat (destruct Hw as [<-|Hw];
            [repeat (destruct Hr as [Hr|Hr]; [discriminate|]); contradiction|]).
    contradiction. }
  assert (Hnot : forall k, ~ In k (map fst vd) -> dict_get k (entry_fields vd) = None).
  { intros k Hk. apply dict_get_absent. intros Hin.
    apply entry_fields_keys in Hin. tauto. }
  assert (Hread : forall k, In k CulturalEntrySerializer.Meta_read_only_fields ->
                            dict_get k (entry_fields vd) = None).
  { intros k Hr. apply Hnot. intros Hin. exact (Hro k (Hkeys k Hin) Hr). }
  unfold CulturalEntrySerializer.create in H.
  fold (entry_fields vd) in H.
  unbind H.
  match goal with
  | Hc : CulturalEntry_objects_create _ _ = (Ok ?e, _) |- _ =>
      apply CulturalEntry_objects_create_ok in Hc;
      destruct Hc as [_ [_ [_ [_ [_ [_ [_ [Hf [Ha [Hcr [Hup [Hid Hnew]]]]]]]]]]]]
  end.
  unstep.
  rewrite (Hread "frequency") in Hf by (vm_compute; tauto).
  injection Hf as Hf.
  specialize (Hid (Hread "id" ltac:(vm_compute; tauto))).
  repeat split; auto.
  intros Hno. rewrite (Hnot "is_active" Hno) in Ha. now injection Ha.
Qed.

Lemma create_fills_read_only_columns_witness :
  (forall k, In k (map fst create_payload) ->
             In k CulturalEntrySerializer.writable_fields)
  /\ exists entry c',
       CulturalEntrySerializer.create create_payload (fresh []) = (Ok entry, c')
       /\ CulturalEntry.frequency entry = 0
       /\ CulturalEntry.id entry = 1
       /\ CulturalEntry.is_active entry = true.
Proof.
  assert (Hkeys : forall k, In k (map fst create_payload) ->
                            In k CulturalEntrySerializer.writable_fields).
  { intros k Hk. vm_compute in Hk |- *.
    repeat (destruct Hk as [<-|Hk]; [tauto|]). contradiction. }
  split; [exact Hkeys|].
  destruct (CulturalEntrySerializer.create create_payload (fresh []))
    as [[entry|e] c'] eqn:Hc; [|vm_compute in Hc; discriminate].
  exists entry, c'. split; [reflexivity|].
  destruct (create_fills_read_only_columns create_payload (fresh []) entry c' Hkeys Hc)
    as [Hf [Hid [_ [_ [_ Ha]]]]].
  split; [exact Hf|]. split; [exact Hid|].
  apply Ha. vm_compute. intuition discriminate.
Defined.

(** ** An import whose log row cannot be written *)

Lemma import_record_goes entry_data c :
  (accepted entry_data = true -> next_fault c = false) ->
  sequences_fresh c -> importable entry_data ->
  exists c1,
    DataImportService.import_record entry_data c = (Ok (accepted entry_data), c1)
    /\ sequences_fresh c1
    /\ faults c1 = (if accepted entry_data then tl (faults c) else faults c)
    /\ in_atomic_block c1 = in_atomic_block c
    /\ needs_rollback c1 = needs_rollback c.
Proof.
  intros Hnf Hfresh [d [-> Himp]].
  rewrite import_record_eq, has_required_obj. rewrite accepted_obj in *.
  destruct (dict_has "isiZulu_text" d && dict_has "english_translation" d)%bool.
  - destruct (Himp eq_refl) as [Hconv Hch]. specialize (Hnf eq_refl).
    unfold create_entry_row.
    specialize (Hconv (entry_seq c) (clock c)).
    destruct (row_of_record d (entry_seq c) (clock c)) as [row|] eqn:Hrow;
      [|discriminate].
    destruct (row_of_record_key _ _ _ _ Hrow) as [Hid _].
    cbv zeta. rewrite Hnf.
    unfold insert_entry. simpl tables. rewrite Hid.
    rewrite (fresh_not_exists c Hfresh). rewrite Hch.
    eexists. split; [reflexivity|]. simpl. repeat split; auto.
    + destruct Hfresh as [He Hl]. intros e Hin. simpl in Hin |- *.
      apply in_app_iff in Hin. destruct Hin as [Hin|[<-|[]]].
      * specialize (He e Hin). lia.
      * lia.
    + destruct Hfresh as [_ Hl]. exact Hl.
  - exists c. auto.
Qed.

Lemma import_loop_goes json_data :
  forall n c rest,
    sequences_fresh c -> Forall importable json_data ->
    faults c = (repeat false (List.length (filter accepted json_data)) ++ rest)%list ->
    exists m c',
      DataImportService.import_loop json_data n c = (Ok m, c')
      /\ sequences_fresh c' /\ faults c' = rest
      /\ in_atomic_block c' = in_atomic_block c
      /\ needs_rollback c' = needs_rollback c.
Proof.
  induction json_data as [|entry_data l IH]; intros n c rest Hfresh Hall Hf.
  - exists n, c. simpl in *. auto.
  - inversion Hall as [|? ? Himp Hall']; subst.
    simpl filter in Hf.
    assert (Hnf : accepted entry_data = true -> next_fault c = false).
    { intros Ha. rewrite Ha in Hf. unfold next_fault. rewrite Hf. reflexivity. }
    destruct (import_record_goes entry_data c Hnf Hfresh Himp)
      as [c1 [Hrec [Hfresh1 [Hf1 [Hat1 Hnr1]]]]].
    assert (Hf1' : faults c1
                   = (repeat false (List.length (filter accepted l)) ++ rest)%list).
    { rewrite Hf1. destruct (accepted entry_data); rewrite Hf; reflexivity. }
    destruct (IH (if accepted entry_data then n + 1 else n) c1 rest Hfresh1 Hall' Hf1')
      as [m [c' [Hloop [Hfresh' [Hf' [Hat' Hnr']]]]]].
    exists m, c'. simpl. unfold bind. rewrite Hrec.
    split; [exact Hloop|]. split; [exact Hfresh'|]. split; [exact Hf'|].
    split; congruence.
Qed.

(** X11: an import can report success and store nothing.  When every
    record of the batch goes in and the insert of the 'import' log row then
    meets a fault, [log_activity] swallows the error, [import_from_json]
    returns the count of the accepted records, and the transaction, marked
    by the failed insert, is rolled back as a whole: the tables are what
    they were, and the [import_data] action answers 200 with that count. *)
Theorem import_reports_success_after_rollback :
  forall json_data c rest,
    sequences_fresh c ->
    Forall importable json_data ->
    faults c = (repeat false (List.length (filter accepted json_data)) ++ true :: rest)%list ->
    let imported_count := Z.of_nat (List.length (filter accepted json_data)) in
    (forall who,
        fst (DataImportService.import_from_json json_data who c) = Ok imported_count
        /\ tables (snd (DataImportService.import_from_json json_data who c)) = tables c)
    /\ (forall request,
           data request = JArr json_data ->
           fst (CulturalEntryViewSet.import_data request c)
           = Ok (mkResponse 200
                   (JObj [("message",
                           JStr ("Successfully imported " ++ str_of_Z imported_count
                                 ++ " entries"));
                          ("imported_count", JNum imported_count)]))
           /\ tables (snd (CulturalEntryViewSet.import_data request c)) = tables c).
Proof.
  intros json_data c rest Hfresh Hall Hf imported_count.
  assert (Hservice : forall who,
             fst (DataImportService.import_from_json json_data who c) = Ok imported_count
             /\ tables (snd (DataImportService.import_from_json json_data who c))
                = tables c).
  { intros who.
    destruct (import_loop_goes json_data 0 (with_flags true false c) (true :: rest)
                Hfresh Hall Hf) as [m [cL [Hloop [_ [HfL [HatL _]]]]]].
    destruct (import_loop_ok _ _ _ _ _ Hloop) as [Hm _].
    assert (Hm' : m = imported_count) by (subst imported_count; lia).
    set (description := "Imported " ++ str_of_Z m ++ " entries from JSON").
    assert (HnfL : next_fault cL = true) by (unfold next_fault; now rewrite HfL).
    destruct (log_activity_cases who "import" description None cL)
      as [[Hno _]|[Ht Hmark]]; [congruence|].
    specialize (Hmark HatL).
    assert (Hbody :
      try_except
        (bind (DataImportService.import_loop json_data 0) (fun imported_count =>
         bind (ActivityLogService.log_activity who "import"
                 ("Imported " ++ str_of_Z imported_count ++ " entries from JSON") None)
              (fun _ => ret imported_count)))
        (fun e => raise e) (with_flags true false c)
      = (Ok m, snd (ActivityLogService.log_activity who "import" description None cL))).
    { unfold try_except, bind. rewrite Hloop.
      fold description. now rewrite log_activity_pair. }
    unfold DataImportService.import_from_json, atomic.
    rewrite Hbody, Hmark. simpl.
    split; [now rewrite Hm' | reflexivity]. }
  split; [exact Hservice|].
  intros request Hdata. unfold CulturalEntryViewSet.import_data. rewrite Hdata.
  unfold try_except, bind.
  destruct (Hservice (user request)) as [Hr Ht].
  destruct (DataImportService.import_from_json json_data (user request) c) as [r c'].
  simpl in Hr, Ht. subst r. simpl. split; [reflexivity | exact Ht].
Qed.

Lemma import_reports_success_after_rollback_witness :
  sequences_fresh (fresh [false; true])
  /\ Forall importable [valid_record]
  /\ faults (fresh [false; true])
     = (repeat false (List.length (filter accepted [valid_record])) ++ [true])%list
  /\ fst (DataImportService.import_from_json [valid_record] None (fresh [false; true]))
     = Ok 1
  /\ tables (snd (DataImportService.import_from_json [valid_record] None
                    (fresh [false; true])))
     = empty_tables.
Proof.
  assert (Hfresh : sequences_fresh (fresh [false; true]))
    by apply fresh_sequences_fresh.
  assert (Hall : Forall importable [valid_record])
    by (constructor; [apply importable_valid_record | constructor]).
  split; [exact Hfresh|]. split; [exact Hall|]. split; [reflexivity|].
  exact (proj1 (import_reports_success_after_rollback [valid_record]
                  (fresh [false; true]) [] Hfresh Hall eq_refl) None).
Defined.

(** ** The [import_data] action *)

Lemma import_raise_unchanged json_data user c e c' :
  DataImportService.import_from_json json_data user c = (Raise e, c') ->
  tables c' = tables c.
Proof.
  intros Hrun. unfold DataImportService.import_from_json in Hrun.
  destruct (atomic_dichotomy _ _ _ _ (tracks_import_body json_data user) Hrun)
    as [_ [Hraise _]].
  now apply Hraise.
Qed.

(** X12: the [import_data] action never lets an exception out.  A body
    that is not a list is refused with 400 before anything is touched.  A
    list is handed to the import: when the import returns, the answer is 200
    with the number of records that have both required keys; when it raises,
    whatever the exception, the answer is 500 and the tables are what they
    were.  Without a user the request changes nothing. *)
Theorem import_data_answers :
  (forall request c,
      (forall json_data, data request <> JArr json_data) ->
      CulturalEntryViewSet.import_data request c
      = (Ok (mkResponse 400 (JObj [("error", JStr "Data must be a list of entries")])), c))
  /\ (forall request c json_data,
         data request = JArr json_data ->
         let imported_count := Z.of_nat (List.length (filter accepted json_data)) in
         fst (CulturalEntryViewSet.import_data request c)
         = Ok (mkResponse 200
                 (JObj [("message",
                         JStr ("Successfully imported " ++ str_of_Z imported_count
                               ++ " entries"));
                        ("imported_count", JNum imported_count)]))
         \/ (fst (CulturalEntryViewSet.import_data request c)
             = Ok (mkResponse 500 (JObj [("error", JStr "Import failed")]))
             /\ tables (snd (CulturalEntryViewSet.import_data request c)) = tables c))
  /\ (forall request c,
         user request = None -> snd (dispatch ImportData request c) = c).
Proof.
  split; [|split].
  - intros request c Hnot. unfold CulturalEntryViewSet.import_data.
    destruct (data request) as [| | | |l|]; try reflexivity.
    exfalso. now apply (Hnot l).
  - intros request c json_data Hdata imported_count.
    unfold CulturalEntryViewSet.import_data. rewrite Hdata.
    unfold try_except, bind.
    destruct (DataImportService.import_from_json json_data (user request) c)
      as [[n|e] c'] eqn:Hrun.
    + left. apply import_ok_count in Hrun. subst n. reflexivity.
    + right. apply import_raise_unchanged in Hrun. simpl. auto.
  - intros request c Hnone. unfold dispatch, CulturalEntryViewSet.is_authenticated.
    rewrite Hnone. reflexivity.
Qed.

Lemma import_data_answers_witness :
  data (mkRequest (Some 7) [] [] (JArr seed_data.initial_data) None)
  = JArr seed_data.initial_data
  /\ fst (CulturalEntryViewSet.import_data
            (mkRequest (Some 7) [] [] (JArr seed_data.initial_data) None) (fresh []))
     = Ok (mkResponse 500 (JObj [("error", JStr "Import failed")]))
  /\ tables (snd (CulturalEntryViewSet.import_data
                    (mkRequest (Some 7) [] [] (JArr seed_data.initial_data) None)
                    (fresh []))) = tables (fresh []).
Proof.
  split; [reflexivity|].
  destruct (proj1 (proj2 import_data_answers)
              (mkRequest (Some 7) [] [] (JArr seed_data.initial_data) None) (fresh [])
              seed_data.initial_data eq_refl) as [Hok|Hfail].
  - vm_compute in Hok. discriminate Hok.
  - exact Hfail.
Defined.

(** ** Reading one entry *)

Lemma active_queryset_spec c e :
  In e (order_entries (where_ (Qf (is_active_ true)) (tables c))) <->
  In e (cultural_entries (tables c)) /\ CulturalEntry.is_active e = true.
Proof.
  split; [apply active_queryset_In|].
  intros [He Ha]. unfold order_entries. apply sort_by_In. apply where_spec.
  split; [assumption|]. right. split; [now left|]. simpl. now rewrite Ha.
Qed.

Lemma get_object_spec request pk c :
  GET request = [] ->
  (exists instance,
      CulturalEntryViewSet.get_object request pk c = (Ok instance, c)
      /\ In instance (cultural_entries (tables c))
      /\ CulturalEntry.id instance = pk
      /\ CulturalEntry.is_active instance = true)
  \/ (CulturalEntryViewSet.get_object request pk c = (Raise Http404, c)
      /\ forall e, In e (cultural_entries (tables c)) -> CulturalEntry.id e = pk ->
                   CulturalEntry.is_active e = false).
Proof.
  intros HGET.
  unfold CulturalEntryViewSet.get_object, CulturalEntryViewSet.get_queryset,
    objects_filter, bind, lift.
  rewrite (filter_queryset_no_params _ _ HGET).
  destruct (find _ _) as [instance|] eqn:Hf.
  - left. exists instance. split; [reflexivity|].
    apply find_some in Hf. destruct Hf as [Hin Hid].
    apply active_queryset_spec in Hin. apply Z.eqb_eq in Hid. tauto.
  - right. split; [reflexivity|]. intros e He Hid.
    destruct (CulturalEntry.is_active e) eqn:Ha; [|reflexivity]. exfalso.
    assert (Hq : In e (order_entries (where_ (Qf (is_active_ true)) (tables c))))
      by (apply active_queryset_spec; auto).
    apply (find_none _ _ Hf) in Hq. apply Z.eqb_neq in Hq. contradiction.
Qed.

(** X13: [retrieve] and [list] only read.  Neither writes a row, logs a
    'view' or touches a counter: the connection is left exactly as it was.
    A [retrieve] without query parameters answers 200 when an active entry
    has the key and 404 otherwise, so also for an entry that was
    soft-deleted; where keys are unique, the body is the full representation
    of that entry, with its examples, translations and collocations. *)
Theorem retrieve_only_reads :
  forall request pk c,
    snd (dispatch (Retrieve pk) request c) = c
    /\ snd (dispatch List request c) = c
    /\ (GET request = [] ->
        ((exists e, In e (cultural_entries (tables c))
                    /\ CulturalEntry.id e = pk /\ CulturalEntry.is_active e = true)
         -> status (fst (dispatch (Retrieve pk) request c)) = 200)
        /\ ((forall e, In e (cultural_entries (tables c)) -> CulturalEntry.id e = pk ->
                       CulturalEntry.is_active e = false)
            -> fst (dispatch (Retrieve pk) request c) = mkResponse 404 JNull)
        /\ (ids_unique (tables c) ->
            forall e, In e (cultural_entries (tables c)) -> CulturalEntry.id e = pk ->
                      CulturalEntry.is_active e = true ->
                      fst (dispatch (Retrieve pk) request c)
                      = mkResponse 200
                          (CulturalEntrySerializer.CulturalEntry_representation
                             (tables c) e))).
Proof.
  intros request pk c.
  assert (Hlist : snd (dispatch List request c) = c).
  { unfold dispatch. simpl. unfold CulturalEntryViewSet.list_,
      CulturalEntryViewSet.get_queryset, objects_filter, bind, lift.
    destruct (filter_queryset request _) as [qs|e]; [|now destruct e].
    now destruct (paginate_queryset request qs). }
  assert (Hret : snd (dispatch (Retrieve pk) request c) = c).
  { unfold dispatch. simpl. unfold CulturalEntryViewSet.retrieve, bind.
    destruct (CulturalEntryViewSet.get_object request pk c) as [[i|e] c1] eqn:Hg;
      destruct (get_object_found _ _ _ _ _ Hg) as [-> _];
      [reflexivity | now destruct e]. }
  split; [exact Hret|]. split; [exact Hlist|]. intros HGET.
  destruct (get_object_spec request pk c HGET)
    as [[instance [Hget [Hin [Hid Hact]]]]|[Hget Hnone]].
  - assert (Hd : dispatch (Retrieve pk) request c
                 = (mkResponse 200
                      (CulturalEntrySerializer.CulturalEntry_representation
                         (tables c) instance), c)).
    { unfold dispatch. simpl. unfold CulturalEntryViewSet.retrieve, bind.
      now rewrite Hget. }
    rewrite Hd. simpl.
    split; [reflexivity|]. split.
    + intros Hall. rewrite (Hall instance Hin Hid) in Hact. discriminate.
    + intros Hu e He Hide Ha. f_equal. f_equal.
      apply (ids_unique_inj (tables c)); auto. congruence.
  - assert (Hd : dispatch (Retrieve pk) request c = (mkResponse 404 JNull, c)).
    { unfold dispatch. simpl. unfold CulturalEntryViewSet.retrieve, bind.
      now rewrite Hget. }
    rewrite Hd. simpl. split.
    + intros [e [He [Hide Ha]]]. rewrite (Hnone e He Hide) in Ha. discriminate.
    + split; [reflexivity|]. intros Hu e He Hide Ha.
      rewrite (Hnone e He Hide) in Ha. discriminate.
Qed.

Lemma retrieve_only_reads_witness :
  GET (mkRequest None [] [] JNull None) = []
  /\ ids_unique (tables (conn_of two_examples []))
  /\ In ubuntu (cultural_entries (tables (conn_of two_examples [])))
  /\ fst (dispatch (Retrieve 1) (mkRequest None [] [] JNull None) (conn_of two_examples []))
     = mkResponse 200
         (CulturalEntrySerializer.CulturalEntry_representation two_examples ubuntu).
Proof.
  split; [reflexivity|].
  split; [exact two_examples_unique|]. split; [left; reflexivity|].
  exact (proj2 (proj2 (proj2 (proj2
           (retrieve_only_reads (mkRequest None [] [] JNull None) 1
              (conn_of two_examples []))) eq_refl))
           two_examples_unique ubuntu (or_introl eq_refl) eq_refl eq_refl).
Defined.

(** ** The client address *)

Lemma fields_of_no_sep is_sep s :
  forallb (fun c => negb (is_sep c)) (list_ascii_of_string s) = true ->
  fields_of is_sep s = [s].
Proof.
  induction s as [|a s IH]; simpl; [reflexivity|].
  intros H. apply andb_prop in H. destruct H as [Ha Hs].
  apply negb_true_iff in Ha. rewrite Ha, (IH Hs). reflexivity.
Qed.

Lemma fields_of_first is_sep first sep rest :
  forallb (fun c => negb (is_sep c)) (list_ascii_of_string first) = true ->
  is_sep sep = true ->
  fields_of is_sep (first ++ String sep rest) = first :: fields_of is_sep rest.
Proof.
  intros Hfirst Hsep. induction first as [|a s IH]; simpl.
  - now rewrite Hsep.
  - simpl in Hfirst. apply andb_prop in Hfirst. destruct Hfirst as [Ha Hs].
    apply negb_true_iff in Ha. rewrite Ha, (IH Hs). reflexivity.
Qed.

(** X14: the address [get_client_ip] reports is the first hop of the
    [X-Forwarded-For] header whenever the request carries a non-empty one:
    the text before the first comma, untrimmed, or the whole header when it
    has no comma; [REMOTE_ADDR] is not looked at then.  Only without the
    header, or with an empty one, is the address [REMOTE_ADDR] (or [None]
    when that is missing too). *)
Theorem client_ip_is_first_forwarded_hop :
  forall request,
    (forall first rest,
        dict_get "HTTP_X_FORWARDED_FOR" (META request) = Some (first ++ "," ++ rest) ->
        comma_free first ->
        CulturalEntryViewSet.get_client_ip request = Some first)
    /\ (forall header,
           dict_get "HTTP_X_FORWARDED_FOR" (META request) = Some header ->
           header <> "" -> comma_free header ->
           CulturalEntryViewSet.get_client_ip request = Some header)
    /\ (dict_get "HTTP_X_FORWARDED_FOR" (META request) = None
        \/ dict_get "HTTP_X_FORWARDED_FOR" (META request) = Some "" ->
        CulturalEntryViewSet.get_client_ip request
        = dict_get "REMOTE_ADDR" (META request)).
Proof.
  intros request. unfold CulturalEntryViewSet.get_client_ip. repeat split.
  - intros first rest H Hfirst. rewrite H.
    assert (Hne : non_empty (first ++ "," ++ rest) = true).
    { unfold non_empty. apply negb_true_iff, String.eqb_neq.
      destruct first; discriminate. }
    rewrite Hne. simpl. rewrite fields_of_first; auto.
  - intros header H Hne Hfree. rewrite H.
    assert (Hn : non_empty header = true).
    { unfold non_empty. now apply negb_true_iff, String.eqb_neq. }
    rewrite Hn, fields_of_no_sep; auto.
  - intros [H|H]; rewrite H; reflexivity.
Qed.

Lemma client_ip_is_first_forwarded_hop_witness :
  dict_get "HTTP_X_FORWARDED_FOR" (META proxied) = Some ("203.0.113.7" ++ "," ++ " 10.0.0.1")
  /\ comma_free "203.0.113.7"
  /\ dict_get "REMOTE_ADDR" (META proxied) = Some "10.0.0.2"
  /\ CulturalEntryViewSet.get_client_ip proxied = Some "203.0.113.7".
Proof.
  split; [reflexivity|]. split; [reflexivity|]. split; [reflexivity|].
  exact (proj1 (client_ip_is_first_forwarded_hop proxied)
               "203.0.113.7" " 10.0.0.1" eq_refl eq_refl).
Defined.

(** ** Statistics *)

Lemma count_search_or_view (logs : list ActivityLog.t) :
  List.length (filter (fun l => existsb (String.eqb (ActivityLog.action l))
                                        ["search"; "view"]) logs)
  = (List.length (filter (fun l => String.eqb (ActivityLog.action l) "search") logs)
     + List.length (filter (fun l => String.eqb (ActivityLog.action l) "view") logs))%nat.
Proof.
  induction logs as [|l logs IH]; simpl in *; [reflexivity|].
  destruct (String.eqb (ActivityLog.action l) "search") eqn:Hs;
    destruct (String.eqb (ActivityLog.action l) "view") eqn:Hv; simpl;
    rewrite ?IH; try lia.
  apply String.eqb_eq in Hs, Hv. congruence.
Qed.

Lemma no_view_among actions rows :
  ~ In "view" actions ->
  Forall (fun l => In (ActivityLog.action l) actions) rows ->
  filter (fun l => String.eqb (ActivityLog.action l) "view") rows = [].
Proof.
  intros Hno. induction 1 as [|l rows Hl _ IH]; simpl; [reflexivity|].
  destruct (String.eqb (ActivityLog.action l) "view") eqn:Hv; [|exact IH].
  apply String.eqb_eq in Hv. rewrite Hv in Hl. contradiction.
Qed.

Lemma get_usage_statistics_eq c :
  AnalyticsService.get_usage_statistics c
  = (Ok (usage_of (activity_logs (tables c))), c).
Proof.
  unfold AnalyticsService.get_usage_statistics, AnalyticsService.count_logs,
    bind, ret, usage_of, count_action. simpl.
  rewrite count_search_or_view, Nat2Z.inj_add. reflexivity.
Qed.

(** X15: [get_usage_statistics] reads the log and nothing else, and never
    fails.  [recent_activities] is the sum of [total_searches] and
    [total_views], over the whole log, with no limit in time.  Over any
    sequence of requests to the viewset [total_views] stays what it was, as
    no action logs a 'view', and [total_searches] never goes down. *)
Theorem usage_statistics_count_the_log :
  forall c,
    AnalyticsService.get_usage_statistics c
    = (Ok (usage_of (activity_logs (tables c))), c)
    /\ 0 <= count_action "search" (activity_logs (tables c))
    /\ 0 <= count_action "view" (activity_logs (tables c))
    /\ forall requests,
         count_action "view" (activity_logs (tables (serve requests c)))
         = count_action "view" (activity_logs (tables c))
         /\ count_action "search" (activity_logs (tables c))
            <= count_action "search" (activity_logs (tables (serve requests c))).
Proof.
  intros c. split; [apply get_usage_statistics_eq|].
  unfold count_action. split; [lia|]. split; [lia|].
  intros requests. destruct (logs_serve requests c) as [rows [Hrows Hall]].
  rewrite Hrows, !filter_app, !length_app. split.
  - rewrite (no_view_among logged_actions rows); [simpl; lia| |exact Hall].
    unfold logged_actions. simpl. intros [H|[H|[H|[]]]]; discriminate.
  - lia.
Qed.

Lemma where_active_rows t :
  where_ (Qf (is_active_ true)) t = active_rows t.
Proof.
  unfold where_, joined_rows, active_rows. simpl.
  induction (cultural_entries t) as [|e l IH]; simpl; [reflexivity|].
  destruct (CulturalEntry.is_active e); simpl; now rewrite IH.
Qed.

Lemma active_queryset_perm c :
  Permutation (order_entries (where_ (Qf (is_active_ true)) (tables c)))
              (active_rows (tables c)).
Proof. rewrite where_active_rows. apply sort_by_perm. Qed.

Lemma is_space_lower_char a : is_space (lower_char a) = is_space a.
Proof. destruct a as [[] [] [] [] [] [] [] []]; reflexivity. Qed.

Lemma fields_of_lower s :
  fields_of is_space (lower s) = map lower (fields_of is_space s).
Proof.
  induction s as [|a s IH]; simpl; [reflexivity|].
  rewrite is_space_lower_char, IH.
  destruct (is_space a); [reflexivity|].
  now destruct (fields_of is_space s).
Qed.

Lemma split_whitespace_lower s :
  List.length (split_whitespace (lower s)) = List.length (split_whitespace s).
Proof.
  unfold split_whitespace. rewrite fields_of_lower.
  induction (fields_of is_space s) as [|f fs IH]; simpl; [reflexivity|].
  replace (non_empty (lower f)) with (non_empty f) by now destruct f.
  destruct (non_empty f); simpl; now rewrite IH.
Qed.

Lemma length_nodup_le (l : list string) :
  (List.length (nodup string_dec l) <= List.length l)%nat.
Proof.
  induction l as [|a l IH]; simpl; [lia|].
  destruct (in_dec string_dec a l); simpl; lia.
Qed.

Lemma lowered_words_count (rows : list CulturalEntry.t) :
  Z.of_nat (List.length
              (flat_map (fun entry =>
                           split_whitespace (lower (CulturalEntry.isiZulu_text entry)))
                        rows))
  = fold_right Z.add 0
      (map (fun entry =>
              Z.of_nat (List.length (split_whitespace (CulturalEntry.isiZulu_text entry))))
           rows).
Proof.
  induction rows as [|e rows IH]; simpl; [reflexivity|].
  rewrite length_app, Nat2Z.inj_add, IH, split_whitespace_lower. reflexivity.
Qed.

Lemma genre_counts_le (rows : list CulturalEntry.t) :
  (List.length (filter (fun e => String.eqb (CulturalEntry.genre e) "proverb") rows)
   + List.length (filter (fun e => String.eqb (CulturalEntry.genre e) "idiom") rows)
   + List.length (filter (fun e => String.eqb (CulturalEntry.genre e) "narrative") rows)
   + List.length (filter (fun e => String.eqb (CulturalEntry.genre e) "song") rows)
   <= List.length rows)%nat.
Proof.
  induction rows as [|e rows IH]; simpl; [lia|].
  destruct (String.eqb (CulturalEntry.genre e) "proverb") eqn:H1;
    destruct (String.eqb (CulturalEntry.genre e) "idiom") eqn:H2;
    destruct (String.eqb (CulturalEntry.genre e) "narrative") eqn:H3;
    destruct (String.eqb (CulturalEntry.genre e) "song") eqn:H4;
    simpl; try lia; exfalso;
    repeat match goal with
           | H : String.eqb _ _ = true |- _ => apply String.eqb_eq in H
           end; congruence.
Qed.

Lemma max_bounds (a : Z) (l : list Z) :
  a <= fold_right Z.max a l /\ Forall (fun x => x <= fold_right Z.max a l) l.
Proof.
  induction l as [|x l [IHa IHl]]; simpl; [split; [lia | constructor]|].
  split; [lia|]. constructor; [lia|].
  eapply Forall_impl; [|exact IHl]. simpl. intros; lia.
Qed.

Lemma sum_le_max_times (m : Z) (l : list Z) :
  Forall (fun x => x <= m) l ->
  fold_right Z.add 0 l <= m * Z.of_nat (List.length l).
Proof.
  induction 1 as [|x l Hx _ IH]; [simpl; lia|].
  cbn [fold_right List.length]. rewrite Nat2Z.inj_succ. lia.
Qed.

(** X16: [get_corpus_statistics] reads the active entries and nothing else,
    and never fails: on an empty corpus the quotient is taken over 1, not 0.
    [total_entries] is the number of active rows; the four genre counts
    together never exceed it; [unique_words] never exceeds [total_words];
    [average_word_length] is [total_words] over the number of entries, that
    is the words per entry; the sum of the frequencies under [avg_frequency]
    is at most [max_frequency] times the number of entries, and both are
    [None] on an empty corpus.  Two stores with the same active rows have
    the same statistics, whatever their soft-deleted rows are. *)
Theorem corpus_statistics_are_consistent :
  forall c,
    (exists proverbs idioms narratives songs avg_frequency max_frequency words unique,
        let total := Z.of_nat (List.length (active_rows (tables c))) in
        AnalyticsService.get_corpus_statistics c
        = (Ok [("total_entries", SInt total);
               ("total_proverbs", SInt proverbs);
               ("total_idioms", SInt idioms);
               ("total_narratives", SInt narratives);
               ("total_songs", SInt songs);
               ("avg_frequency", avg_frequency);
               ("max_frequency", max_frequency);
               ("total_words", SInt words);
               ("unique_words", SInt unique);
               ("average_word_length", SQuotient words (Z.max total 1))], c)
        /\ 0 <= proverbs /\ 0 <= idioms /\ 0 <= narratives /\ 0 <= songs
        /\ proverbs + idioms + narratives + songs <= total
        /\ 0 <= unique <= words
        /\ 0 < Z.max total 1
        /\ (total = 0 ->
            words = 0 /\ avg_frequency = SNone /\ max_frequency = SNone)
        /\ (0 < total ->
            exists sum highest,
              avg_frequency = SQuotient sum total
              /\ max_frequency = SInt highest
              /\ sum <= highest * total))
    /\ (forall c', active_rows (tables c') = active_rows (tables c) ->
                   fst (AnalyticsService.get_corpus_statistics c')
                   = fst (AnalyticsService.get_corpus_statistics c)).
Proof.
  intros c. split.
  - unfold AnalyticsService.get_corpus_statistics, bind, ret, objects_filter,
      Count_filter. cbv zeta.
    pose proof (Permutation_length (active_queryset_perm c)) as Hlen.
    rewrite where_active_rows in *.
    set (rows := order_entries (active_rows (tables c))) in *.
    rewrite <- Hlen.
    do 8 eexists. split; [simpl; reflexivity|].
    pose proof (genre_counts_le rows) as Hg.
    pose proof (length_nodup_le
                  (flat_map (fun entry =>
                               split_whitespace (lower (CulturalEntry.isiZulu_text entry)))
                            rows)) as Hn.
    pose proof (lowered_words_count rows) as Hw.
    repeat (split; [lia|]).
    split.
    + intros H0. destruct rows as [|r rows']; [|simpl in H0; lia].
      simpl. auto.
    + intros Hpos. destruct rows as [|r rows'] eqn:Hr; [simpl in Hpos; lia|].
      unfold Avg, Max. do 2 eexists. split; [reflexivity|]. split; [reflexivity|].
      rewrite <- (length_map CulturalEntry.frequency (r :: rows')).
      apply sum_le_max_times. cbn [map].
      destruct (max_bounds (CulturalEntry.frequency r)
                           (map CulturalEntry.frequency rows')) as [Ha Hl].
      constructor; assumption.
  - intros c' H.
    unfold AnalyticsService.get_corpus_statistics, bind, ret, objects_filter.
    cbv zeta. rewrite !where_active_rows, H. reflexivity.
Qed.

Lemma corpus_statistics_are_consistent_witness :
  active_rows (tables (conn_of with_deleted_entry [])) = active_rows (tables (conn_of two_examples []))
  /\ fst (AnalyticsService.get_corpus_statistics (conn_of with_deleted_entry []))
     = fst (AnalyticsService.get_corpus_statistics (conn_of two_examples [])).
Proof.
  split; [reflexivity|].
  exact (proj2 (corpus_statistics_are_consistent (conn_of two_examples []))
               (conn_of with_deleted_entry []) eq_refl).
Defined.

Lemma frequency_case_is_active objs r :
  CulturalEntry.is_active (frequency_case objs r) = CulturalEntry.is_active r.
Proof.
  unfold frequency_case.
  now destruct (find (fun o => CulturalEntry.id o =? CulturalEntry.id r) objs).
Qed.

Lemma filter_map_same {A} (p : A -> bool) (f : A -> A) (l : list A) :
  (forall x, p (f x) = p x) ->
  List.length (filter p (map f l)) = List.length (filter p l).
Proof.
  intros H. induction l as [|x l IH]; simpl; [reflexivity|].
  rewrite H. destruct (p x); simpl; now rewrite IH.
Qed.

Lemma search_keeps_row_counts query filters c results c' :
  SearchService.search_entries query filters c = (Ok results, c') ->
  List.length (cultural_entries (tables c')) = List.length (cultural_entries (tables c))
  /\ List.length (active_rows (tables c')) = List.length (active_rows (tables c)).
Proof.
  rewrite search_entries_eq.
  destruct (search_condition query filters) as [q|e]; [|discriminate].
  cbv zeta. destruct (map incremented (matches q (tables c))) as [|r rs].
  - intros H. inversion H; subst. split; reflexivity.
  - destruct (next_fault c); [discriminate|].
    intros H. inversion H; subst. unfold active_rows. simpl.
    rewrite length_map. split; [reflexivity|].
    apply filter_map_same. apply frequency_case_is_active.
Qed.

(** X17: [get_basic_stats] reads the entries and nothing else, and never
    fails.  It counts over every row, soft-deleted ones included, and
    [total_searches] is the number of rows once more, not a number of
    searches: [active_entries] never exceeds [total_entries],
    [avg_frequency] is [None] exactly on an empty table, and a search that
    succeeds, with or without filters, leaves [total_entries],
    [active_entries] and [total_searches] as they were. *)
Theorem basic_stats_count_rows :
  forall c,
    exists avg_frequency,
      let total := Z.of_nat (List.length (cultural_entries (tables c))) in
      let active := Z.of_nat (List.length (active_rows (tables c))) in
      StatisticsService.get_basic_stats c
      = (Ok [("total_entries", SInt total);
             ("active_entries", SInt active);
             ("avg_frequency", avg_frequency);
             ("total_searches", SInt total)], c)
      /\ 0 <= active <= total
      /\ (avg_frequency = SNone <-> total = 0)
      /\ (forall query filters results c',
             SearchService.search_entries query filters c = (Ok results, c') ->
             exists avg_frequency',
               StatisticsService.get_basic_stats c'
               = (Ok [("total_entries", SInt total);
                      ("active_entries", SInt active);
                      ("avg_frequency", avg_frequency');
                      ("total_searches", SInt total)], c')).
Proof.
  intros c. eexists. cbv zeta. split; [reflexivity|]. split.
  - unfold active_rows. pose proof (filter_length_le CulturalEntry.is_active
                                      (cultural_entries (tables c))). lia.
  - split.
    + unfold Avg. destruct (cultural_entries (tables c)); simpl; split;
        intros H; try reflexivity; try discriminate; lia.
    + intros query filters results c' H.
      destruct (search_keeps_row_counts _ _ _ _ _ H) as [Hall Hact].
      eexists. unfold StatisticsService.get_basic_stats, Count, Count_filter.
      fold (active_rows (tables c')). rewrite Hall, Hact. reflexivity.
Qed.

Lemma basic_stats_count_rows_witness :
  exists results c' avg_frequency',
    SearchService.search_entries "ubuntu" (Some noun_filters) (conn_of two_examples [])
    = (Ok results, c')
    /\ results <> []
    /\ StatisticsService.get_basic_stats c'
       = (Ok [("total_entries", SInt 2);
              ("active_entries", SInt 2);
              ("avg_frequency", avg_frequency');
              ("total_searches", SInt 2)], c').
Proof.
  destruct (basic_stats_count_rows (conn_of two_examples [])) as [avg [_ [_ [_ H]]]].
  destruct (SearchService.search_entries "ubuntu" (Some noun_filters)
              (conn_of two_examples []))
    as [[results|e] c'] eqn:Hs; [|vm_compute in Hs; discriminate].
  destruct (H "ubuntu" (Some noun_filters) results c' Hs) as [avg' Hstats].
  exists results, c', avg'. split; [reflexivity|]. split; [|exact Hstats].
  vm_compute in Hs. inversion Hs. discriminate.
Defined.
